(** * MapUp data-assessment utilities: a shallow embedding and its properties

    The development follows the two Python source files
    - [templates/python_section_1.py]: list, string, matrix and timestamp
      utilities;
    - [submissions/python_section_2 (1).py]: the distance / toll tables.

    Python values are embedded as follows.
    - [int] is [Z] (unbounded), [len] results and list indices are [nat]
      or [Z] as the operation requires;
    - [str] is [string] (a sequence of characters);
    - [list] is [list]; a [dict] is an association list in insertion
      order (module [PyDict]);
    - [float] is an IEEE-754 binary64 value, [spec_float] with the
      operations of [SpecFloat] at precision 53 and maximal exponent 1024;
    - a raised exception is the [Raise] alternative of [result];
    - a [DataFrame] is a finite map from column names to typed columns;
      a function that receives a frame runs in the state-and-exception
      monad [Frame.M] whose state is the caller's frame object. *)

From Stdlib Require Import ZArith List Ascii String SpecFloat Permutation Sorted.
From Stdlib Require Import DecimalString.
From stdpp Require Import base tactics option list gmap strings fin_maps.

Local Open Scope Z_scope.

(** ** Exceptions and fallible computations *)

Inductive exn : Set :=
| ValueError
| KeyError
| IndexError
| TypeError
| UnboundLocalError
| OutOfBoundsDatetime.

Inductive result (A : Type) : Type :=
| Ok (a : A)
| Raise (e : exn).

Arguments Ok {A} a.
Arguments Raise {A} e.

Definition rbind {A B} (r : result A) (k : A -> result B) : result B :=
  match r with
  | Ok a => k a
  | Raise e => Raise e
  end.

#[global] Instance result_bind : MBind result := fun _ _ k r => rbind r k.
#[global] Instance result_ret : MRet result := fun _ a => Ok a.

Fixpoint rmapM {A B} (f : A -> result B) (l : list A) : result (list B) :=
  match l with
  | [] => Ok []
  | a :: l' => b ← f a; bs ← rmapM f l'; Ok (b :: bs)
  end.

Definition of_option {A} (e : exn) (o : option A) : result A :=
  match o with
  | Some a => Ok a
  | None => Raise e
  end.

(** ** Python built-ins used by the sources *)

Module Py.

(** [range(start, stop, step)]: a zero step raises [ValueError]; the
    number of elements is computed as CPython does. *)
Definition range_len (start stop step : Z) : nat :=
  if 0 <? step then Z.to_nat ((stop - start + step - 1) / step)
  else Z.to_nat ((start - stop - step - 1) / (- step)).

Definition range (start stop step : Z) : result (list Z) :=
  if step =? 0 then Raise ValueError
  else Ok (map (fun k => start + Z.of_nat k * step)
               (seq 0 (range_len start stop step))).

(** Slice bounds: a negative bound counts from the end, then both
    bounds are clipped to [0, len]. *)
Definition clip (len k : Z) : nat :=
  Z.to_nat (if k <? 0 then Z.max 0 (k + len) else Z.min k len).

(** [lst[i:j]] *)
Definition slice {A} (lst : list A) (i j : Z) : list A :=
  let len := Z.of_nat (length lst) in
  let a := clip len i in
  let b := clip len j in
  firstn (b - a) (skipn a lst).

(** [zip] applied to the unpacked rows: the i-th tuple collects the
    i-th element of every row; the result is as long as the shortest
    row, and empty when there is no row. *)
Fixpoint zip_star {A} (rows : list (list A)) : list (list A) :=
  match rows with
  | [] => []
  | [r] => map (fun x => [x]) r
  | r :: rs => zip_with cons r (zip_star rs)
  end.

(** [l[i]] for a non-negative index. *)
Definition index {A} (l : list A) (i : nat) : result A :=
  of_option IndexError (l !! i).

End Py.

(** ** ListReverser: [reverse_by_n_elements] *)

(** [[item for group in (lst[i:i + n] for i in range(0, len(lst), n))
      for item in reversed(group)]] *)
Definition reverse_by_n_elements {A} (lst : list A) (n : Z) : result (list A) :=
  idxs ← Py.range 0 (Z.of_nat (length lst)) n;
  Ok (flat_map (fun i => rev (Py.slice lst i (i + n))) idxs).

(** ** LengthGrouper: [group_by_length] *)

(** A [dict] keeps its keys in insertion order; assigning to a key that
    is present replaces the value in place, assigning to a new key
    appends the entry. *)
Module PyDict.
Section Dict.
Context {K V : Type} `{EqDecision K}.

Fixpoint get (k : K) (d : list (K * V)) : option V :=
  match d with
  | [] => None
  | (k', v) :: d' => if decide (k = k') then Some v else get k d'
  end.

(** [k in d] *)
Definition contains (k : K) (d : list (K * V)) : bool :=
  match get k d with Some _ => true | None => false end.

(** [d[k]], [KeyError] when absent *)
Definition getitem (k : K) (d : list (K * V)) : result V :=
  of_option KeyError (get k d).

(** [d[k] = v] *)
Fixpoint set (k : K) (v : V) (d : list (K * V)) : list (K * V) :=
  match d with
  | [] => [(k, v)]
  | (k', v') :: d' =>
      if decide (k = k') then (k, v) :: d' else (k', v') :: set k v d'
  end.

Definition keys (d : list (K * V)) : list K := map fst d.
Definition values (d : list (K * V)) : list V := map snd d.
End Dict.
End PyDict.

(** A [for] loop whose body may raise. *)
Fixpoint rfold {S A} (body : S -> A -> result S) (s : S) (l : list A) : result S :=
  match l with
  | [] => Ok s
  | a :: l' => s' ← body s a; rfold body s' l'
  end.

(** One iteration of the loop of [group_by_length]:
    [[
      length = len(string)
      if length not in grouped:
          grouped[length] = []
      grouped[length].append(string)
    ]] *)
Definition group_by_length_body (grouped : list (nat * list string)) (s : string)
  : result (list (nat * list string)) :=
  let len := String.length s in
  let grouped :=
    if negb (PyDict.contains len grouped) then PyDict.set len [] grouped
    else grouped in
  bucket ← PyDict.getitem len grouped;
  Ok (PyDict.set len (bucket ++ [s]) grouped).

Definition group_by_length (lst : list string) : result (list (nat * list string)) :=
  rfold group_by_length_body [] lst.

(** ** MatrixRotator: [rotate_and_multiply_matrix] *)

(** [[
      rotated = [list(row) for row in zip( *matrix[::-1])]
      for i in range(len(rotated)):
          for j in range(len(rotated[0])):
              new_value = rotated[i][j] * (i + j)
    ]]
    Every subscript is bounds-checked as in Python. *)
Definition rotate_and_multiply_matrix (matrix : list (list Z)) : result (list (list Z)) :=
  let rotated := Py.zip_star (rev matrix) in
  rmapM (fun i =>
           row0 ← Py.index rotated 0;
           rmapM (fun j =>
                    row ← Py.index rotated i;
                    x ← Py.index row j;
                    Ok (x * (Z.of_nat i + Z.of_nat j)))
                 (seq 0 (length row0)))
        (seq 0 (length rotated)).

(** ** DateExtractor: [find_all_dates] *)

Local Close Scope Z_scope.

Definition is_digit (c : ascii) : bool :=
  let n := nat_of_ascii c in (48 <=? n)%nat && (n <=? 57)%nat.

Definition digit_val (c : ascii) : nat := nat_of_ascii c - 48.

Definition digit_char (n : nat) : ascii := ascii_of_nat (48 + n mod 10).

(** [int(s)] on a run of digits, blanks ignored. *)
Definition int_of (s : list ascii) : nat :=
  fold_left (fun acc c => if is_digit c then 10 * acc + digit_val c else acc) s 0%nat.

(** The fragment of [re] that the three date patterns use: word
    boundaries, literal characters and greedy bounded runs of digits,
    matched with backtracking in priority order. The text is ASCII
    text, a character being its code: on such text [\d] is [[0-9]] and
    [\w] is [[a-zA-Z0-9_]]. *)
Module Re.

Inductive item : Set :=
| Boundary                      (* \b *)
| Digits (lo extra : nat)       (* \d{lo,lo+extra} *)
| Char (c : ascii).

(** [\w] on ASCII text *)
Definition is_word (c : ascii) : bool :=
  let n := nat_of_ascii c in
  is_digit c || ((65 <=? n)%nat && (n <=? 90)%nat)
  || ((97 <=? n)%nat && (n <=? 122)%nat) || (n =? 95)%nat.

Definition word_opt (o : option ascii) : bool :=
  match o with Some c => is_word c | None => false end.

(** [\b] holds between [prev] and the head of [s] when exactly one of
    them is a word character; the ends of the text count as non-word. *)
Definition at_boundary (prev : option ascii) (s : list ascii) : bool :=
  xorb (word_opt prev) (word_opt (head s)).

(** Consume exactly [k] digits. *)
Fixpoint take_digits (k : nat) (prev : option ascii) (s : list ascii)
  : option (option ascii * list ascii) :=
  match k with
  | O => Some (prev, s)
  | S k' =>
      match s with
      | c :: s' => if is_digit c then take_digits k' (Some c) s' else None
      | [] => None
      end
  end.

(** Greedy [\d{lo,lo+extra}] followed by the continuation [cont]: the
    longest run is tried first, then shorter ones. The result is the
    number of characters matched. *)
Fixpoint attempt (lo extra : nat)
    (cont : option ascii -> list ascii -> option nat)
    (prev : option ascii) (s : list ascii) : option nat :=
  let try k :=
    match take_digits k prev s with
    | Some (prev', rest) => option_map (Nat.add k) (cont prev' rest)
    | None => None
    end in
  match extra with
  | O => try lo
  | S e =>
      match try (lo + S e)%nat with
      | Some r => Some r
      | None => attempt lo e cont prev s
      end
  end.

(** Match the pattern at the current position; [prev] is the character
    before it. *)
Fixpoint match_here (p : list item) (prev : option ascii) (s : list ascii)
  : option nat :=
  match p with
  | [] => Some O
  | Boundary :: p' => if at_boundary prev s then match_here p' prev s else None
  | Digits lo extra :: p' => attempt lo extra (match_here p') prev s
  | Char c :: p' =>
      match s with
      | c' :: s' =>
          if Ascii.eqb c c' then option_map S (match_here p' (Some c') s')
          else None
      | [] => None
      end
  end.

(** Left-to-right scan for non-overlapping matches. [skip] counts the
    characters of the last match that are still to be passed over. *)
Fixpoint scan (p : list item) (prev : option ascii) (skip : nat)
    (s : list ascii) : list (list ascii) :=
  match s with
  | [] => []
  | c :: s' =>
      match skip with
      | S k => scan p (Some c) k s'
      | O =>
          match match_here p prev s with
          | Some (S k) => firstn (S k) s :: scan p (Some c) k s'
          | _ => scan p (Some c) O s'
          end
      end
  end.

(** [re.findall(pattern, text)] for a pattern without groups that
    matches no empty string. *)
Definition findall (p : list item) (text : list ascii) : list (list ascii) :=
  scan p None O text.

End Re.

(** [datetime.strptime] and [strftime] for the directives [%d], [%m]
    and [%Y]. *)
Module Datetime.

Record datetime : Set := mkdate { year : nat; month : nat; day : nat }.

Definition is_leap (y : nat) : bool :=
  ((y mod 4 =? 0) && (negb (y mod 100 =? 0) || (y mod 400 =? 0)))%nat.

Definition days_in_month (y m : nat) : nat :=
  match m with
  | 2 => if is_leap y then 29 else 28
  | 4 | 6 | 9 | 11 => 30
  | _ => 31
  end%nat.

(** The constructor [datetime(year, month, day)] validates its
    arguments and raises [ValueError] otherwise. *)
Definition make (y m d : nat) : result datetime :=
  if ((1 <=? y) && (y <? 10 * 1000) && (1 <=? m) && (m <=? 12)
      && (1 <=? d) && (d <=? days_in_month y m))%nat
  then Ok (mkdate y m d)
  else Raise ValueError.

Inductive directive : Set :=
| Pd          (* %d *)
| Pm          (* %m *)
| PY          (* %Y *)
| Lit (c : ascii).

(** A character class is a range of characters; an alternative is a
    sequence of classes. These are the regular expressions that
    [_strptime] compiles the directives to:
    - [%d]: [3[0-1]|[1-2]\d|0[1-9]|[1-9]| [1-9]]
    - [%m]: [1[0-2]|0[1-9]|[1-9]]
    - [%Y]: [\d\d\d\d] *)
Definition alternatives (d : directive) : list (list (ascii * ascii)) :=
  match d with
  | Pd => [ [("3","3"); ("0","1")]; [("1","2"); ("0","9")];
            [("0","0"); ("1","9")]; [("1","9")]; [(" "," "); ("1","9")] ]
  | Pm => [ [("1","1"); ("0","2")]; [("0","0"); ("1","9")]; [("1","9")] ]
  | PY => [ [("0","9"); ("0","9"); ("0","9"); ("0","9")] ]
  | Lit c => [ [(c, c)] ]
  end%char.

Definition in_class (cl : ascii * ascii) (c : ascii) : bool :=
  ((nat_of_ascii (fst cl) <=? nat_of_ascii c)
   && (nat_of_ascii c <=? nat_of_ascii (snd cl)))%nat.

(** Consume one character per class. *)
Fixpoint match_classes (alt : list (ascii * ascii)) (s : list ascii)
  : option (list ascii * list ascii) :=
  match alt with
  | [] => Some ([], s)
  | cl :: alt' =>
      match s with
      | c :: s' =>
          if in_class cl c then
            match match_classes alt' s' with
            | Some (txt, rest) => Some (c :: txt, rest)
            | None => None
            end
          else None
      | [] => None
      end
  end.

(** Fields found so far; a directive that is absent keeps the default
    (1900-01-01). *)
Definition store (d : directive) (txt : list ascii) (f : datetime) : datetime :=
  match d with
  | Pd => mkdate (year f) (month f) (int_of txt)
  | Pm => mkdate (year f) (int_of txt) (day f)
  | PY => mkdate (int_of txt) (month f) (day f)
  | Lit _ => f
  end.

(** The compiled format matched at the start of [s] (as [re.match]):
    alternatives are tried in order, with backtracking. *)
Fixpoint match_format (fmt : list directive) (f : datetime) (s : list ascii)
  : option (datetime * list ascii) :=
  match fmt with
  | [] => Some (f, s)
  | d :: fmt' =>
      fold_right
        (fun alt otherwise =>
           match match_classes alt s with
           | Some (txt, rest) =>
               match match_format fmt' (store d txt f) rest with
               | Some r => Some r
               | None => otherwise
               end
           | None => otherwise
           end)
        None (alternatives d)
  end.

(** [datetime.strptime(s, fmt)]: [ValueError] when the text does not
    match the format, when unconverted data remains, or when the
    fields are not a date of the calendar. *)
Definition strptime (s : list ascii) (fmt : list directive) : result datetime :=
  match match_format fmt (mkdate 1900 1 1) s with
  | None => Raise ValueError
  | Some (f, rest) =>
      match rest with
      | [] => make (year f) (month f) (day f)
      | _ :: _ => Raise ValueError
      end
  end.

Definition pad2 (n : nat) : list ascii :=
  [digit_char (n / 10); digit_char n].

(** The decimal numeral of [n], without leading zero; [fuel] bounds the
    number of digits. *)
Fixpoint numeral_upto (fuel n : nat) : list ascii :=
  match fuel with
  | O => []
  | S fuel' =>
      if n <? 10 then [digit_char n]
      else numeral_upto fuel' (n / 10) ++ [digit_char n]
  end.

Definition numeral (n : nat) : list ascii := numeral_upto (S n) n.

(** [dt.strftime('%Y-%m-%d')]: [%m] and [%d] are written with two
    digits, [%Y] as the C library writes it, the year as a decimal
    number that is not padded to four digits. *)
Definition strftime_ymd (dt : datetime) : list ascii :=
  numeral (year dt) ++ "-"%char :: pad2 (month dt) ++ "-"%char :: pad2 (day dt).

End Datetime.

Import Re Datetime.

(** [r'\b\d{2}-\d{2}-\d{4}\b'] *)
Definition pattern_dmy : list Re.item :=
  [Boundary; Digits 2 0; Char "-"; Digits 2 0; Char "-"; Digits 4 0; Boundary]%char.

(** [r'\b\d{1,2}/\d{1,2}/\d{4}\b'] *)
Definition pattern_mdy : list Re.item :=
  [Boundary; Digits 1 1; Char "/"; Digits 1 1; Char "/"; Digits 4 0; Boundary]%char.

(** [r'\b\d{4}\.\d{1,2}\.\d{1,2}\b'] *)
Definition pattern_ymd : list Re.item :=
  [Boundary; Digits 4 0; Char "."; Digits 1 1; Char "."; Digits 1 1; Boundary]%char.

Definition date_patterns : list (list Re.item) :=
  [pattern_dmy; pattern_mdy; pattern_ymd].

(** ['%d-%m-%Y'], ['%m/%d/%Y'], ['%Y.%m.%d'] *)
Definition fmt_dmy : list directive := [Pd; Lit "-"; Pm; Lit "-"; PY]%char.
Definition fmt_mdy : list directive := [Pm; Lit "/"; Pd; Lit "/"; PY]%char.
Definition fmt_ymd : list directive := [PY; Lit "."; Pm; Lit "."; Pd]%char.

(** [c in s] *)
Definition contains_char (c : ascii) (s : list ascii) : bool :=
  existsb (Ascii.eqb c) s.

(** The local variables of the validation loop: [dt] is unbound until
    the first successful parse and then keeps its last value. *)
Record date_loop : Set := mkloop {
  dt : option datetime;
  valid_dates : list (list ascii)
}.

(** The [if]/[elif] chain on the separator that occurs in the match;
    [None] when no branch is taken:
    [[
      if '-' in date:   dt = datetime.strptime(date, '%d-%m-%Y')
      elif '/' in date: dt = datetime.strptime(date, '%m/%d/%Y')
      elif '.' in date: dt = datetime.strptime(date, '%Y.%m.%d')
    ]] *)
Definition parse_by_separator (date : list ascii) : option (result datetime) :=
  if contains_char "-" date then Some (strptime date fmt_dmy)
  else if contains_char "/" date then Some (strptime date fmt_mdy)
  else if contains_char "." date then Some (strptime date fmt_ymd)
  else None.

(** One iteration of the validation loop:
    [[
      try:
          (the chain above)
          valid_dates.append(dt.strftime('%Y-%m-%d'))
      except ValueError:
          continue
    ]] *)
Definition find_all_dates_body (st : date_loop) (date : list ascii) : result date_loop :=
  match parse_by_separator date with
  | Some (Ok d) => Ok (mkloop (Some d) (valid_dates st ++ [strftime_ymd d]))
  | Some (Raise ValueError) => Ok st
  | Some (Raise e) => Raise e
  | None =>
      match dt st with
      | Some d => Ok (mkloop (Some d) (valid_dates st ++ [strftime_ymd d]))
      | None => Raise UnboundLocalError
      end
  end.

Definition find_all_dates (text : string) : result (list string) :=
  let found_dates :=
    flat_map (fun pattern => findall pattern (list_ascii_of_string text)) date_patterns in
  st ← rfold find_all_dates_body (mkloop None []) found_dates;
  Ok (map string_of_list_ascii (valid_dates st)).

Local Open Scope Z_scope.

(** ** Floating point: IEEE-754 binary64 *)

Module F.
Definition prec : Z := 53.
Definition emax : Z := 1024.

Definition nan : spec_float := S754_nan.
Definition zero : spec_float := S754_zero false.

(** [float(z)], rounded to nearest even *)
Definition of_Z (z : Z) : spec_float := binary_normalize prec emax z 0 false.

Definition add : spec_float -> spec_float -> spec_float := SFadd prec emax.
Definition mul : spec_float -> spec_float -> spec_float := SFmul prec emax.
Definition div : spec_float -> spec_float -> spec_float := SFdiv prec emax.

(** [x <= y]; false as soon as one side is NaN *)
Definition leb : spec_float -> spec_float -> bool := SFleb.
(** [x >= y] *)
Definition geb (x y : spec_float) : bool := SFleb y x.

(** The decimal literal [num/den] for a power of ten [den], e.g.
    [dec 12 10] is the literal [1.2]: the nearest binary64 value. *)
Definition dec (num den : Z) : spec_float := div (of_Z num) (of_Z den).
End F.

(** ** Data frames *)

Module Frame.

(** [datetime.time]: compared field by field. *)
Record time : Set := mktime {
  hour : Z; minute : Z; second : Z; microsecond : Z
}.

(** A column and its dtype. Timestamps ([datetime64[ns]]) are counted
    in nanoseconds since the epoch (the counts that are timestamps lie
    between [ts_lowest] and [ts_highest] below); missing values in
    integer, string and timestamp columns are not part of the
    embedding, a missing float is NaN. *)
Inductive column : Type :=
| ColInt (l : list Z)
| ColStr (l : list string)
| ColFloat (l : list spec_float)
| ColDatetime (l : list Z)
| ColTime (l : list time).

Definition col_length (c : column) : nat :=
  match c with
  | ColInt l => length l
  | ColStr l => length l
  | ColFloat l => length l
  | ColDatetime l => length l
  | ColTime l => length l
  end.

(** Computations on the caller's frame: the frame is threaded through,
    and is kept when an exception is raised. *)
Record M (A : Type) : Type := mkM {
  run : gmap string column -> result A * gmap string column
}.
Arguments mkM {A} run.
Arguments run {A} m df.

Definition ret {A} (a : A) : M A := mkM (fun df => (Ok a, df)).

Definition bind {A B} (m : M A) (k : A -> M B) : M B :=
  mkM (fun df =>
         match run m df with
         | (Ok a, df') => run (k a) df'
         | (Raise e, df') => (Raise e, df')
         end).

#[global] Instance M_ret : MRet M := @ret.
#[global] Instance M_bind : MBind M := fun _ _ k m => bind m k.

Definition lift {A} (r : result A) : M A := mkM (fun df => (r, df)).

(** [df[name]] *)
Definition getitem (name : string) : M column :=
  mkM (fun df => (of_option KeyError (df !! name), df)).

(** [df[name] = col] *)
Definition setitem (name : string) (col : column) : M unit :=
  mkM (fun df => (Ok tt, <[name := col]> df)).

(** [df[[n1, n2, ...]]]: a new frame with the listed columns *)
Definition select (names : list string) : M (gmap string column) :=
  mkM (fun df =>
         (cols ← rmapM (fun n => of_option KeyError (df !! n)) names;
          Ok (list_to_map (zip names cols)), df)).

(** Typed views of a column. A dtype that the embedding does not
    account for stops the computation with [TypeError]. *)
Definition as_ints (c : column) : result (list Z) :=
  match c with ColInt l => Ok l | _ => Raise TypeError end.

Definition as_datetimes (c : column) : result (list Z) :=
  match c with ColDatetime l => Ok l | _ => Raise TypeError end.

Definition as_times (c : column) : result (list time) :=
  match c with ColTime l => Ok l | _ => Raise TypeError end.

(** Numeric view for arithmetic: integers are converted to floats. *)
Definition as_floats (c : column) : result (list spec_float) :=
  match c with
  | ColFloat l => Ok l
  | ColInt l => Ok (map F.of_Z l)
  | _ => Raise TypeError
  end.

(** [a * b], element by element *)
Definition col_mul (a b : column) : result column :=
  x ← as_floats a;
  y ← as_floats b;
  Ok (ColFloat (zip_with F.mul x y)).

(** [series.map(d)] for a dict [d] with string keys: an element that
    is not a key of [d] maps to NaN; only a string can be equal to a
    key. *)
Definition map_dict_values (d : list (string * spec_float)) (c : column)
  : list spec_float :=
  match c with
  | ColStr l => map (fun s => default F.nan (PyDict.get s d)) l
  | _ => replicate (col_length c) F.nan
  end.

Definition map_dict (d : list (string * spec_float)) (c : column) : column :=
  ColFloat (map_dict_values d c).

(** *** Grouping *)

(** The sorted distinct keys of a [groupby]. *)
Fixpoint insert_key {K} (cmp : K -> K -> comparison) (k : K) (l : list K) : list K :=
  match l with
  | [] => [k]
  | x :: l' =>
      match cmp k x with
      | Lt => k :: l
      | Eq => l
      | Gt => x :: insert_key cmp k l'
      end
  end.

Definition group_keys {K} (cmp : K -> K -> comparison) (ks : list K) : list K :=
  fold_right (insert_key cmp) [] ks.

Definition same_key {K} (cmp : K -> K -> comparison) (a b : K) : bool :=
  match cmp a b with Eq => true | _ => false end.

(** The values of the rows whose key is [k], in row order. *)
Definition group_values {K V} (cmp : K -> K -> comparison) (k : K)
    (rows : list (K * V)) : list V :=
  map snd (List.filter (fun r => same_key cmp (fst r) k) rows).

(** [rows.groupby(key).apply(f)]: one result per distinct key, in
    ascending key order. *)
Definition groupby_apply {K V R} (cmp : K -> K -> comparison)
    (f : list V -> R) (rows : list (K * V)) : list (K * R) :=
  map (fun k => (k, f (group_values cmp k rows))) (group_keys cmp (map fst rows)).

Definition pair_compare (a b : Z * Z) : comparison :=
  match fst a ?= fst b with
  | Eq => snd a ?= snd b
  | c => c
  end.

(** [column[mask]] *)
Definition select_mask {V} (mask : list bool) (l : list V) : list V :=
  map snd (List.filter fst (zip mask l)).

(** *** Timestamps *)

Definition ns_per_second : Z := 1000000000.
Definition ns_per_day : Z := 86400 * ns_per_second.

(** [timedelta(days=d)] in nanoseconds *)
Definition timedelta_days (d : Z) : Z := d * ns_per_day.

(** [.dt.time]: the time of day, to the microsecond *)
Definition time_of (t : Z) : time :=
  let us := (t mod ns_per_day) / 1000 in
  mktime (us / 3600000000) ((us / 60000000) mod 60)
         ((us / 1000000) mod 60) (us mod 1000000).

(** [x >= y] on [datetime.time] *)
Definition time_ge (x y : time) : bool :=
  match hour x ?= hour y with
  | Gt => true
  | Lt => false
  | Eq =>
      match minute x ?= minute y with
      | Gt => true
      | Lt => false
      | Eq =>
          match second x ?= second y with
          | Gt => true
          | Lt => false
          | Eq => microsecond y <=? microsecond x
          end
      end
  end.

(** [pd.to_datetime(s).time()] for a clock string ["HH:MM"] *)
Definition clock_time (s : string) : result time :=
  match list_ascii_of_string s with
  | [h1; h2; c; m1; m2] =>
      let h := (10 * digit_val h1 + digit_val h2)%nat in
      let m := (10 * digit_val m1 + digit_val m2)%nat in
      if is_digit h1 && is_digit h2 && Ascii.eqb c ":" && is_digit m1
         && is_digit m2 && (h <? 24)%nat && (m <? 60)%nat
      then Ok (mktime (Z.of_nat h) (Z.of_nat m) 0 0)
      else Raise ValueError
  | _ => Raise ValueError
  end.

(** [series.min()] and [series.max()] on timestamps; [None] is NaT,
    the result on an empty series. *)
Definition ts_min (l : list Z) : option Z :=
  match l with
  | [] => None
  | x :: l' => Some (fold_left Z.min l' x)
  end.

Definition ts_max (l : list Z) : option Z :=
  match l with
  | [] => None
  | x :: l' => Some (fold_left Z.max l' x)
  end.

(** The least and the greatest [Timestamp]: the 64-bit counts of
    nanoseconds without the least one, which is NaT
    ([-(2^63 - 1)] and [2^63 - 1]). *)
Definition ts_lowest : Z := -9223372036854775807.
Definition ts_highest : Z := 9223372036854775807.

(** [t + delta] on a [Timestamp]: NaT stays NaT, and a sum that is no
    timestamp raises [OutOfBoundsDatetime]. *)
Definition ts_add (t : option Z) (delta : Z) : result (option Z) :=
  match t with
  | None => Ok None
  | Some x =>
      if (ts_lowest <=? x + delta) && (x + delta <=? ts_highest)
      then Ok (Some (x + delta))
      else Raise OutOfBoundsDatetime
  end.

(** [a <= b] on timestamps; false when either side is NaT *)
Definition ts_le (a b : option Z) : bool :=
  match a, b with
  | Some x, Some y => x <=? y
  | _, _ => false
  end.

(** [a >= b] *)
Definition ts_ge (a b : option Z) : bool := ts_le b a.

End Frame.

Import Frame.

(** ** The operations on frames *)

Section Pandas.

(** [Series.mean()] and [GroupBy.mean()] on the values of a series and
    of a group, in row order. pandas computes the two by different
    summations, which can round differently on the same values, so
    they are two parameters. *)
Variable series_mean : list spec_float -> spec_float.
Variable group_mean : list spec_float -> spec_float.

(** [pd.to_datetime] on one string: the timestamp in nanoseconds, or
    the exception raised on text that is no date. *)
Variable parse_timestamp : string -> result Z.

(** [pd.to_datetime(column)]; float and time columns are not
    accounted for. *)
Definition to_datetime (c : column) : result (list Z) :=
  match c with
  | ColDatetime l => Ok l
  | ColInt l => Ok l
  | ColStr l => rmapM parse_timestamp l
  | _ => Raise TypeError
  end.

(** *** ThresholdFilter *)

(** [[
      reference_avg = df[df['id_start'] == reference_id]['distance'].mean()
      lower_bound = reference_avg * 0.9
      upper_bound = reference_avg * 1.1
      avg_distances = df.groupby('id_start')['distance'].mean()
      within_threshold = avg_distances[(avg_distances >= lower_bound)
                                       & (avg_distances <= upper_bound)]
      return within_threshold.reset_index()
    ]] *)
Definition find_ids_within_ten_percentage_threshold (reference_id : Z)
  : M (gmap string column) :=
  ids ← getitem "id_start";
  ids ← lift (as_ints ids);
  let mask := map (fun i => i =? reference_id) ids in
  distance ← getitem "distance";
  distance ← lift (as_floats distance);
  let reference_avg := series_mean (select_mask mask distance) in
  let lower_bound := F.mul reference_avg (F.dec 9 10) in
  let upper_bound := F.mul reference_avg (F.dec 11 10) in
  keys ← getitem "id_start";
  keys ← lift (as_ints keys);
  values ← getitem "distance";
  values ← lift (as_floats values);
  let avg_distances := groupby_apply Z.compare group_mean (zip keys values) in
  let within_threshold :=
    List.filter (fun r => F.geb (snd r) lower_bound && F.leb (snd r) upper_bound)
                avg_distances in
  mret (<["id_start" := ColInt (map fst within_threshold)]>
          (<["distance" := ColFloat (map snd within_threshold)]> ∅)).

(** *** TollRateCalculator *)

Definition toll_rates : list (string * spec_float) :=
  [ ("car", F.dec 10 10); ("truck", F.dec 15 10); ("bus", F.dec 12 10) ]%string.

(** [[
      df['vehicle_type'] = df['id_start'].map(toll_rates)
      df['toll_rate'] = df['distance'] * df['vehicle_type']
      return df[['id_start', 'id_end', 'toll_rate']]
    ]] *)
Definition calculate_toll_rate : M (gmap string column) :=
  id_start ← getitem "id_start";
  setitem "vehicle_type" (map_dict toll_rates id_start);;
  distance ← getitem "distance";
  vehicle_type ← getitem "vehicle_type";
  toll ← lift (col_mul distance vehicle_type);
  setitem "toll_rate" toll;;
  select ["id_start"; "id_end"; "toll_rate"]%string.

(** *** TimeBasedTollCalculator *)

Definition time_based_rates : list (string * spec_float) :=
  [ ("00:00", F.dec 5 10); ("06:00", F.dec 10 10); ("12:00", F.dec 15 10);
    ("18:00", F.dec 20 10); ("23:59", F.dec 10 10) ]%string.

(** [next((rate for time, rate in items
           if x >= pd.to_datetime(time).time()), 1.0)]:
    the items are visited in order and the visit stops at the first
    one that passes the test. *)
Fixpoint first_rate (x : time) (items : list (string * spec_float))
  : result spec_float :=
  match items with
  | [] => Ok (F.dec 10 10)
  | (t, rate) :: items' =>
      bound ← clock_time t;
      if time_ge x bound then Ok rate else first_rate x items'
  end.

(** [[
      df['time'] = pd.to_datetime(df['timestamp']).dt.time
      df['toll_rate'] = df['time'].apply(lambda x: next(..., 1.0))
      return df[['id_start', 'id_end', 'toll_rate']]
    ]] *)
Definition calculate_time_based_toll_rates : M (gmap string column) :=
  timestamp ← getitem "timestamp";
  stamps ← lift (to_datetime timestamp);
  setitem "time" (ColTime (map time_of stamps));;
  times ← getitem "time";
  times ← lift (as_times times);
  rates ← lift (rmapM (fun x => first_rate x time_based_rates) times);
  setitem "toll_rate" (ColFloat rates);;
  select ["id_start"; "id_end"; "toll_rate"]%string.

(** *** CoverageChecker *)

(** The predicate applied to the timestamps of one group:
    [[
      (group['timestamp'].min() <= group['timestamp'].min() + timedelta(days=7)) and
      (group['timestamp'].max() >= group['timestamp'].min() + timedelta(days=1))
    ]]
    The second clause is evaluated when the first one holds. *)
Definition covers (group : list Z) : result bool :=
  week ← ts_add (ts_min group) (timedelta_days 7);
  if ts_le (ts_min group) week then
    day ← ts_add (ts_min group) (timedelta_days 1);
    Ok (ts_ge (ts_max group) day)
  else Ok false.

(** [[
      df['timestamp'] = pd.to_datetime(df['timestamp'])
      complete_series = df.groupby(['id', 'id_2']).apply(lambda group: ...)
      return complete_series
    ]]
    The series is the list of its (index, value) entries; an exception
    of the predicate on a group is the exception of the call. *)
Definition time_check : M (list ((Z * Z) * bool)) :=
  timestamp ← getitem "timestamp";
  stamps ← lift (to_datetime timestamp);
  setitem "timestamp" (ColDatetime stamps);;
  id ← getitem "id";
  id ← lift (as_ints id);
  id_2 ← getitem "id_2";
  id_2 ← lift (as_ints id_2);
  timestamp ← getitem "timestamp";
  timestamp ← lift (as_datetimes timestamp);
  lift (rmapM (fun entry => b ← entry.2; Ok (entry.1, b))
              (groupby_apply pair_compare covers (zip (zip id id_2) timestamp))).

End Pandas.

(** A mean for concrete evaluation: the sum from left to right, divided
    by the count. The mean of no value is 0/0, NaN. *)
Definition mean_seq (l : list spec_float) : spec_float :=
  F.div (fold_left F.add l F.zero) (F.of_Z (Z.of_nat (length l))).

(** Two more functions of the values of a group for concrete evaluation:
    the sum from right to left divided by the count, and the first
    value (which is no mean). *)
Definition mean_rev (l : list spec_float) : spec_float :=
  F.div (fold_right F.add F.zero l) (F.of_Z (Z.of_nat (length l))).

Definition mean_first (l : list spec_float) : spec_float :=
  hd F.nan l.

(** ** DictFlattener: [flatten_dict] *)

(** A value of a nested dictionary: a dictionary with string keys, or
    anything else (a leaf). *)
#[warnings="-register-all"]
Inductive nested (V : Type) : Type :=
| Leaf (v : V)
| Dict (items : list (string * nested V)).

Arguments Leaf {V} v.
Arguments Dict {V} items.

(** [f"{parent_key}{sep}{key}" if parent_key else key]: the empty
    string is false. *)
Definition new_key (sep parent_key key : string) : string :=
  match parent_key with
  | EmptyString => key
  | _ => (parent_key ++ sep ++ key)%string
  end.

(** The body of the loop of [flatten] for a value stored under
    [new_key]; [flat_dict] is the dictionary that the closure updates.
    [[
      if isinstance(value, dict):
          flatten(value, new_key)
      else:
          flat_dict[new_key] = value
    ]] *)
Fixpoint flatten_value {V} (sep : string) (value : nested V) (key : string)
    (flat_dict : list (string * V)) : list (string * V) :=
  match value with
  | Leaf v => PyDict.set key v flat_dict
  | Dict items =>
      fold_left (fun flat kv => flatten_value sep (snd kv) (new_key sep key (fst kv)) flat)
                items flat_dict
  end.

(** [flatten(current_dict, parent_key)]: the loop over the items. *)
Definition flatten {V} (sep : string) (current_dict : list (string * nested V))
    (parent_key : string) (flat_dict : list (string * V)) : list (string * V) :=
  fold_left (fun flat kv => flatten_value sep (snd kv) (new_key sep parent_key (fst kv)) flat)
            current_dict flat_dict.

Definition flatten_dict {V} (nested_dict : list (string * nested V)) (sep : string)
  : list (string * V) :=
  flatten sep nested_dict "" [].

(** ** PermutationGenerator: [unique_permutations] *)

(** Every element of [l] with the list of the others, by position. *)
Fixpoint selections {A} (l : list A) : list (A * list A) :=
  match l with
  | [] => []
  | x :: l' => (x, l') :: map (fun s => (fst s, x :: snd s)) (selections l')
  end.

(** [itertools.permutations(l)]: the arrangements of the positions of
    [l], in lexicographic order of the positions; equal elements at
    different positions give equal tuples more than once. [n] is the
    number of positions still to fill. *)
Fixpoint permutations_upto {A} (n : nat) (l : list A) : list (list A) :=
  match n with
  | O => [[]]
  | S n' =>
      flat_map (fun s => map (cons (fst s)) (permutations_upto n' (snd s)))
               (selections l)
  end.

Definition permutations {A} (l : list A) : list (list A) :=
  permutations_upto (length l) l.

Section PermutationGenerator.

(** [list(set(tuples))]: the elements of the set in the order in which
    the set yields them, which depends on the hashes of the tuples. *)
Variable set_order : list (list Z) -> list (list Z).

(** [list(map(list, set(itertools.permutations(nums))))] *)
Definition unique_permutations (nums : list Z) : list (list Z) :=
  set_order (permutations nums).

End PermutationGenerator.

(** ** DistanceMatrixBuilder and MatrixUnroller *)

(** A cell of a frame of dtype [object]: not assigned yet (NaN), a
    Python [int], or a float. *)
Inductive cell : Type :=
| Missing
| IntCell (z : Z)
| FloatCell (f : spec_float).

(** A frame addressed by position and by label: the row labels, the
    column labels and the rows of cells. *)
Record matrix : Type := mkmatrix {
  index : list Z;
  columns : list Z;
  cells : list (list cell)
}.

(** [pd.DataFrame(index=ids, columns=ids)]: every cell is missing. *)
Definition empty_matrix (ids : list Z) : matrix :=
  mkmatrix ids ids (replicate (length ids) (replicate (length ids) Missing)).

(** [m.iloc[i, j] = v]; a position outside the frame raises
    [IndexError]: [iloc] does not enlarge its target. *)
Definition iloc_set (m : matrix) (i j : nat) (v : cell) : result matrix :=
  if (i <? length (index m))%nat && (j <? length (columns m))%nat
  then Ok (mkmatrix (index m) (columns m) (alter (fun row => <[j := v]> row) i (cells m)))
  else Raise IndexError.

(** The position of a label among distinct labels. *)
Fixpoint position (label : Z) (labels : list Z) : option nat :=
  match labels with
  | [] => None
  | x :: labels' => if x =? label then Some O else option_map S (position label labels')
  end.

(** [m.loc[r, c]] on a frame whose labels are distinct. *)
Definition loc (m : matrix) (r c : Z) : result cell :=
  i ← of_option KeyError (position r (index m));
  j ← of_option KeyError (position c (columns m));
  row ← of_option KeyError (cells m !! i);
  of_option KeyError (row !! j).

(** [series.unique()]: the values in the order of their first
    occurrence. *)
Fixpoint unique (l : list Z) : list Z :=
  match l with
  | [] => []
  | x :: l' => x :: List.filter (fun y => negb (y =? x)) (unique l')
  end.

(** [df.iloc[i][name]] as a number: [KeyError] without the column,
    [IndexError] without the row. *)
Definition iloc_float (df : gmap string column) (i : nat) (name : string)
  : result spec_float :=
  c ← of_option KeyError (df !! name);
  l ← as_floats c;
  of_option IndexError (l !! i).

Section DistanceMatrix.

(** The great-circle distance [haversine(lat1, lon1, lat2, lon2)] of the
    source, computed by numpy. *)
Variable haversine : spec_float -> spec_float -> spec_float -> spec_float -> spec_float.

(** The body of the inner loop:
    [[
      if i != j:
          distance = haversine(df.iloc[i]['latitude'], df.iloc[i]['longitude'],
                               df.iloc[j]['latitude'], df.iloc[j]['longitude'])
          distance_matrix.iloc[i, j] = distance
      else:
          distance_matrix.iloc[i, j] = 0
    ]] *)
Definition distance_cell (df : gmap string column) (i : nat)
    (distance_matrix : matrix) (j : nat) : result matrix :=
  if negb (i =? j)%nat then
    lat1 ← iloc_float df i "latitude";
    lon1 ← iloc_float df i "longitude";
    lat2 ← iloc_float df j "latitude";
    lon2 ← iloc_float df j "longitude";
    iloc_set distance_matrix i j (FloatCell (haversine lat1 lon1 lat2 lon2))
  else iloc_set distance_matrix i j (IntCell 0).

(** [[
      ids = df['id'].unique()
      distance_matrix = pd.DataFrame(index=ids, columns=ids)
      for i in range(len(df)):
          for j in range(len(df)):
              (the body above)
      return distance_matrix
    ]]
    The frame is only read; its number of rows is the length of its
    [id] column. *)
Definition calculate_distance_matrix (df : gmap string column) : result matrix :=
  id ← of_option KeyError (df !! "id"%string);
  id ← as_ints id;
  let ids := unique id in
  let len_df := length id in
  rfold (fun distance_matrix i =>
           rfold (distance_cell df i) distance_matrix (seq 0 len_df))
        (empty_matrix ids) (seq 0 len_df).

End DistanceMatrix.

(** One record of the list [unrolled]. *)
Record unrolled_row : Type := mkrow {
  row_id_start : Z;
  row_id_end : Z;
  row_distance : cell
}.

Definition is_int_cell (c : cell) : bool :=
  match c with IntCell _ => true | _ => false end.

Definition cell_int (c : cell) : Z :=
  match c with IntCell z => z | _ => 0 end.

Definition cell_float (c : cell) : spec_float :=
  match c with
  | Missing => F.nan
  | IntCell z => F.of_Z z
  | FloatCell f => f
  end.

(** The column that [pd.DataFrame] makes of the cells of the records:
    integers when every cell is an [int], floats as soon as one cell is
    a float or is missing, with every [int] converted. An [int] outside
    64 bits is not accounted for. *)
Definition cells_column (l : list cell) : column :=
  if forallb is_int_cell l then ColInt (map cell_int l) else ColFloat (map cell_float l).

(** [[
      for start_id in df.index:
          for end_id in df.columns:
              unrolled.append({'id_start': start_id, 'id_end': end_id,
                               'distance': df.loc[start_id, end_id]})
      return pd.DataFrame(unrolled)
    ]]
    [pd.DataFrame] makes a frame without columns of no record, and of
    the records the frame of their three keys. *)
Definition unroll_distance_matrix (df : matrix) : result (gmap string column) :=
  unrolled ←
    rfold (fun unrolled start_id =>
             rfold (fun unrolled end_id =>
                      distance ← loc df start_id end_id;
                      Ok (unrolled ++ [mkrow start_id end_id distance]))
                   unrolled (columns df))
          [] (index df);
  Ok (match unrolled with
      | [] => ∅
      | _ =>
          <["id_start"%string := ColInt (map row_id_start unrolled)]>
            (<["id_end"%string := ColInt (map row_id_end unrolled)]>
               (<["distance"%string := cells_column (map row_distance unrolled)]> ∅))
      end).

(** ** PolylineDecoder: [polyline_to_dataframe] *)

(** What the function raises: an exception of [exn], or the
    [OverflowError] of a float power. *)
Inductive raised : Set :=
| Exn (e : exn)
| OverflowError.

Inductive outcome (A : Type) : Type :=
| Returns (a : A)
| Raises (e : raised).

Arguments Returns {A} a.
Arguments Raises {A} e.

Definition obind {A B} (r : outcome A) (k : A -> outcome B) : outcome B :=
  match r with
  | Returns a => k a
  | Raises e => Raises e
  end.

#[global] Instance outcome_bind : MBind outcome := fun _ _ k r => obind r k.
#[global] Instance outcome_ret : MRet outcome := fun _ a => Returns a.

Definition of_result {A} (r : result A) : outcome A :=
  match r with
  | Ok a => Returns a
  | Raise e => Raises (Exn e)
  end.

Definition or_overflow {A} (o : option A) : outcome A :=
  match o with
  | Some a => Returns a
  | None => Raises OverflowError
  end.

Fixpoint omapM {A B} (f : A -> outcome B) (l : list A) : outcome (list B) :=
  match l with
  | [] => Returns []
  | a :: l' => b ← f a; bs ← omapM f l'; Returns (b :: bs)
  end.

Fixpoint ofold {S A} (body : S -> A -> outcome S) (s : S) (l : list A) : outcome S :=
  match l with
  | [] => Returns s
  | a :: l' => s' ← body s a; ofold body s' l'
  end.

(** The first field of [s] and the fields after it, for the separator
    [sep]. *)
Fixpoint split_fields (sep : ascii) (s : string) : string * list string :=
  match s with
  | EmptyString => (EmptyString, [])
  | String c s' =>
      let (field, fields) := split_fields sep s' in
      if Ascii.eqb c sep then (EmptyString, field :: fields)
      else (String c field, fields)
  end.

(** [s.split(sep)] for a separator of one character: the text between
    the separators, empty fields included. *)
Definition str_split (s : string) (sep : ascii) : list string :=
  let (field, fields) := split_fields sep s in field :: fields.

(** A Python number of the list [distances]. *)
Inductive number : Set :=
| Int (z : Z)
| Float (f : spec_float).

Definition is_int (x : number) : bool :=
  match x with Int _ => true | Float _ => false end.

Definition int_value (x : number) : Z :=
  match x with Int z => z | Float _ => 0 end.

Definition float_value (x : number) : spec_float :=
  match x with Int z => F.of_Z z | Float f => f end.

(** The column that a list of numbers becomes when it is assigned to a
    frame: integers when every number is an [int], floats as soon as
    one is a [float]. The list of the source is never empty and its
    only integer is 0. *)
Definition numbers_column (l : list number) : column :=
  if forallb is_int l then ColInt (map int_value l) else ColFloat (map float_value l).

Section PolylineDecoder.

(** [float(s)] on a string: [None] when it raises [ValueError]. *)
Variable float : string -> option spec_float.

(** [x ** y] on floats: [None] when it raises [OverflowError]. The
    source raises a difference of floats to the power 2 and a sum of two
    such squares to the power 0.5. *)
Variable pow : spec_float -> spec_float -> option spec_float.

(** [lat, lng = map(float, fields)]: the two targets take the first two
    values of the iterator, then a third one is requested to see that
    there is none, and [float] is applied as the values are requested.
    Too few and too many values raise [ValueError]. *)
Definition unpack_floats (fields : list string) : result (spec_float * spec_float) :=
  match fields with
  | [] => Raise ValueError
  | a :: fields' =>
      lat ← of_option ValueError (float a);
      match fields' with
      | [] => Raise ValueError
      | b :: fields'' =>
          lng ← of_option ValueError (float b);
          match fields'' with
          | [] => Ok (lat, lng)
          | c :: _ => _ ← of_option ValueError (float c); Raise ValueError
          end
      end
  end.

(** [((lat2 - lat1) ** 2 + (lon2 - lon1) ** 2) ** 0.5] *)
Definition distance_between (p1 p2 : spec_float * spec_float) : outcome spec_float :=
  let '(lat1, lon1) := p1 in
  let '(lat2, lon2) := p2 in
  a ← or_overflow (pow (SFsub F.prec F.emax lat2 lat1) (F.of_Z 2));
  b ← or_overflow (pow (SFsub F.prec F.emax lon2 lon1) (F.of_Z 2));
  or_overflow (pow (F.add a b) (F.dec 5 10)).

(** [[
      coords = polyline_str.split(';')
      points = []
      for coord in coords:
          lat, lng = map(float, coord.split(','))
          points.append((lat, lng))
      distances = [0]
      for i in range(1, len(points)):
          lat1, lon1 = points[i - 1]
          lat2, lon2 = points[i]
          distance = ((lat2 - lat1) ** 2 + (lon2 - lon1) ** 2) ** 0.5
          distances.append(distance)
      df = pd.DataFrame(points, columns=['latitude', 'longitude'])
      df['distance'] = distances
      return df
    ]]
    Assigning a list whose length is not the number of rows raises
    [ValueError]. *)
Definition polyline_to_dataframe (polyline_str : string) : outcome (gmap string column) :=
  let coords := str_split polyline_str ";" in
  points ← of_result (rmapM (fun coord => unpack_floats (str_split coord ",")) coords);
  distances ←
    ofold (fun distances i =>
             p1 ← of_result (Py.index points (i - 1));
             p2 ← of_result (Py.index points i);
             distance ← distance_between p1 p2;
             Returns (distances ++ [Float distance]))
          [Int 0] (seq 1 (length points - 1));
  let df : gmap string column :=
    <["latitude"%string := ColFloat (map fst points)]>
      (<["longitude"%string := ColFloat (map snd points)]> ∅) in
  if (length distances =? length points)%nat
  then Returns (<["distance"%string := numbers_column distances]> df)
  else Raises (Exn ValueError).

End PolylineDecoder.

(** ** Vocabulary of the statements *)

(** The strings of [l] whose length is [k], in the order of [l]. *)
Definition of_length (k : nat) (l : list string) : list string :=
  List.filter (fun s => String.length s =? k)%nat l.

(** Number of strings held by a dictionary of groups. *)
Definition total (grouped : list (nat * list string)) : nat :=
  list_sum (map length (PyDict.values grouped)).

(** What the loop of [group_by_length] maintains after the strings [pre]
    have been seen: the keys are distinct, the group under [k] is
    [of_length k pre], present exactly when it is not empty, and the
    groups hold [length pre] strings. *)
Definition grouped_inv (pre : list string) (grouped : list (nat * list string)) : Prop :=
  NoDup (PyDict.keys grouped)
  /\ (forall k, PyDict.get k grouped
                = match of_length k pre with [] => None | g => Some g end)
  /\ total grouped = length pre.

(** The normalized text of a match under a format, when the match is a
    date of the calendar. *)
Definition normalized (fmt : list directive) (m : list ascii) : option (list ascii) :=
  match strptime m fmt with
  | Ok d => Some (strftime_ymd d)
  | Raise _ => None
  end.

(** *** The dates of a text

    The text is ASCII text: every character has a code below 128. *)
Definition ascii_text (text : string) : Prop :=
  forallb (fun c => (nat_of_ascii c <? 128)%nat) (list_ascii_of_string text) = true.

Definition decimal_digit (c : ascii) : Prop :=
  In c (list_ascii_of_string "0123456789").

Definition word_char (c : ascii) : Prop :=
  In c (list_ascii_of_string
          "abcdefghijklmnopqrstuvwxyzABCDEFGHIJKLMNOPQRSTUVWXYZ0123456789_").

(** The three notations: dd-mm-yyyy, m/d/yyyy and yyyy.m.d. *)
Inductive notation : Set := DMY | MDY | YMD.

Definition separator (f : notation) : ascii :=
  match f with DMY => "-" | MDY => "/" | YMD => "." end%char.

(** The least and the greatest number of digits of the three fields. *)
Definition field_widths (f : notation) : (nat * nat) * (nat * nat) * (nat * nat) :=
  match f with
  | DMY => ((2, 2), (2, 2), (4, 4))
  | MDY => ((1, 2), (1, 2), (4, 4))
  | YMD => ((4, 4), (1, 2), (1, 2))
  end%nat.

Definition digits_between (w : nat * nat) (s : list ascii) : Prop :=
  (w.1 <= length s <= w.2)%nat /\ forall c, In c s -> decimal_digit c.

(** [m] is a date in the notation [f] with the fields [a], [b], [c]:
    three runs of digits around two separators. *)
Definition date_text (f : notation) (a b c m : list ascii) : Prop :=
  m = a ++ separator f :: b ++ separator f :: c
  /\ digits_between (field_widths f).1.1 a
  /\ digits_between (field_widths f).1.2 b
  /\ digits_between (field_widths f).2 c.

(** The character before the position that follows a run. *)
Definition after_run (prev : option ascii) (ds : list ascii) : option ascii :=
  match last ds with Some c => Some c | None => prev end.

(** [m] occurs in [t] at position [p] as a date in the notation [f]:
    it is the text at [p], and neither the character before it nor the
    character after it, if any, is a word character. *)
Definition occurs (f : notation) (t : list ascii) (p : nat) (m : list ascii) : Prop :=
  (exists pre post,
     t = pre ++ m ++ post /\ length pre = p
     /\ (forall x, last pre = Some x -> ~ word_char x)
     /\ (forall x, head post = Some x -> ~ word_char x))
  /\ exists a b c, date_text f a b c m.

(** The occurrences found by a scan from position [p] on, from left to
    right, each scan resuming after the occurrence found. *)
Inductive date_matches (f : notation) (t : list ascii) : nat -> list (list ascii) -> Prop :=
| matches_none p :
    (forall q m, (p <= q)%nat -> ~ occurs f t q m) ->
    date_matches f t p []
| matches_next p q m ms :
    (p <= q)%nat -> occurs f t q m ->
    (forall q' m', (p <= q' < q)%nat -> ~ occurs f t q' m') ->
    date_matches f t (q + length m)%nat ms ->
    date_matches f t p (m :: ms).

(** The number that a run of digits denotes. *)
Definition decimal (s : list ascii) : nat :=
  fold_left (fun n c => 10 * n + (nat_of_ascii c - 48))%nat s 0%nat.

(** The runs of [s] between the occurrences of [sep]. *)
Fixpoint runs (sep : ascii) (s : list ascii) : list (list ascii) :=
  match s with
  | [] => [[]]
  | c :: s' =>
      if Ascii.eqb c sep then [] :: runs sep s'
      else match runs sep s' with
           | r :: rs => (c :: r) :: rs
           | [] => [[c]]
           end
  end.

(** Year, month and day of the fields of a notation. *)
Definition year_month_day (f : notation) (a b c : list ascii) : nat * nat * nat :=
  match f with
  | DMY => (decimal c, decimal b, decimal a)
  | MDY => (decimal c, decimal a, decimal b)
  | YMD => (decimal a, decimal b, decimal c)
  end.

(** The Gregorian calendar for the years 1 to 9999. *)
Definition leap_year (y : nat) : bool :=
  ((y mod 400 =? 0) || ((y mod 4 =? 0) && negb (y mod 100 =? 0)))%nat.

Definition month_lengths (y : nat) : list nat :=
  [31; if leap_year y then 29 else 28; 31; 30; 31; 30; 31; 31; 30; 31; 30; 31]%nat.

Definition calendar_date (y mo d : nat) : bool :=
  ((1 <=? y) && (y <? 10 * 1000) && (1 <=? mo) && (mo <=? 12)
   && (1 <=? d) && (d <=? nth (mo - 1) (month_lengths y) 0))%nat.

(** A number in decimal, without leading zero, and with two digits. *)
Definition in_decimal (n : nat) : list ascii :=
  list_ascii_of_string (NilEmpty.string_of_uint (Nat.to_uint n)).

Definition two_digits (n : nat) : list ascii :=
  if (n <? 10)%nat then "0"%char :: in_decimal n else in_decimal n.

(** The text year-mm-dd of a date; the year has the digits of its
    decimal notation, four from the year 1000 on. *)
Definition year_mm_dd (y mo d : nat) : list ascii :=
  in_decimal y ++ "-"%char :: two_digits mo ++ "-"%char :: two_digits d.

(** The normalized text of a match in the notation [f], when its fields
    are a date of the calendar. *)
Definition normal_date (f : notation) (m : list ascii) : option (list ascii) :=
  match runs (separator f) m with
  | [a; b; c] =>
      let '(y, mo, d) := year_month_day f a b c in
      if calendar_date y mo d then Some (year_mm_dd y mo d) else None
  | _ => None
  end.

(** The pattern and the format that the source has for a notation. *)
Definition pattern_of (f : notation) : list Re.item :=
  match f with DMY => pattern_dmy | MDY => pattern_mdy | YMD => pattern_ymd end.

Definition format_of (f : notation) : list directive :=
  match f with DMY => fmt_dmy | MDY => fmt_mdy | YMD => fmt_ymd end.

(** The shape [yyyy-mm-dd]: ten characters, digits around two dashes. *)
Definition iso_shape (s : list ascii) : Prop :=
  exists y1 y2 y3 y4 m1 m2 d1 d2,
    s = [y1; y2; y3; y4; "-"; m1; m2; "-"; d1; d2]%char
    /\ forall c, In c [y1; y2; y3; y4; m1; m2; d1; d2] -> decimal_digit c.

(** [m] leaves every column outside [names] as it was, whether it
    returns or raises. *)
Definition assigns_only {A} (names : list string) (m : M A) : Prop :=
  forall df c, ~ In c names -> (run m df).2 !! c = df !! c.

(** The toll table as the specification gives it:
    {car: 1.0, truck: 1.5, bus: 1.2}. *)
Definition multiplier (s : string) : option spec_float :=
  if String.eqb s "car" then Some (F.dec 10 10)
  else if String.eqb s "truck" then Some (F.dec 15 10)
  else if String.eqb s "bus" then Some (F.dec 12 10)
  else None.

(** The multiplier of row [i] of an [id_start] column; there is none
    when the cell is not one of the three keys (a cell that is not a
    string is not a key). *)
Definition row_multiplier (c : column) (i : nat) : option spec_float :=
  match c with
  | ColStr l => l !! i ≫= multiplier
  | _ => None
  end.

(** *** Frames for concrete evaluation *)

(** Three distance records; the first two carry a vehicle type where
    the identifier is expected. *)
Definition toll_frame : gmap string column :=
  <["id_start" := ColStr ["car"; "truck"; "1001400"]]>
    (<["id_end" := ColInt [1001402; 1001404; 1001402]]>
       (<["distance" := ColFloat [F.dec 97 10; F.dec 292 10; F.dec 455 10]]> ∅)).

(** Five distance records over three identifiers. *)
Definition distance_frame : gmap string column :=
  <["id_start" := ColInt [3; 1; 2; 1; 3]]>
    (<["id_end" := ColInt [1; 2; 3; 3; 2]]>
       (<["distance" := ColFloat [F.dec 100 1; F.dec 10 1; F.dec 15 1;
                                  F.dec 20 1; F.dec 5 1]]> ∅)).

(** Five timestamped records in three groups; a day is 86400 * 10^9 ns. *)
Definition timed_frame : gmap string column :=
  <["id" := ColInt [1; 1; 2; 1; 2]]>
    (<["id_2" := ColInt [-1; -1; 3; 5; 3]]>
       (<["id_start" := ColInt [1; 1; 2; 1; 2]]>
          (<["id_end" := ColInt [7; 7; 8; 9; 8]]>
             (<["timestamp" := ColDatetime [0; 86400000000000; 5; 7;
                                            86400000000004]]> ∅)))).

(** The distances of the records of identifier [k], in row order. *)
Fixpoint distances_of (k : Z) (rows : list (Z * spec_float)) : list spec_float :=
  match rows with
  | [] => []
  | (k', d) :: rows' =>
      if decide (k' = k) then d :: distances_of k rows' else distances_of k rows'
  end.

(** The order of the (id, id_2) pairs: by [id], then by [id_2]. *)
Definition pair_lt (a b : Z * Z) : Prop :=
  a.1 < b.1 \/ (a.1 = b.1 /\ a.2 < b.2).

(** Three timestamped records in two groups; the only record of the
    second group is one day before the greatest timestamp. *)
Definition late_frame : gmap string column :=
  <["id" := ColInt [1; 1; 2]]>
    (<["id_2" := ColInt [4; 4; 4]]>
       (<["timestamp" := ColDatetime [0; 5; ts_highest - timedelta_days 1]]> ∅)).

(** The boundary table as the specification gives it, in declaration
    order, and the rate of the first boundary that is at most [x]
    (1.0 when there is none). *)
Definition boundaries : list (time * spec_float) :=
  [ (mktime 0 0 0 0, F.dec 5 10); (mktime 6 0 0 0, F.dec 10 10);
    (mktime 12 0 0 0, F.dec 15 10); (mktime 18 0 0 0, F.dec 20 10);
    (mktime 23 59 0 0, F.dec 10 10) ].

Definition first_boundary_rate (x : time) : spec_float :=
  match List.find (fun b => time_ge x (fst b)) boundaries with
  | Some b => snd b
  | None => F.dec 10 10
  end.

(** A time of day has no negative field. *)
Definition valid_time (x : time) : Prop :=
  0 <= hour x /\ 0 <= minute x /\ 0 <= second x /\ 0 <= microsecond x.


(** The elements of [l] without repetition, in the order of their first
    occurrence. *)
Fixpoint first_seen (l : list nat) : list nat :=
  match l with
  | [] => []
  | x :: l' => x :: List.filter (fun y => negb (y =? x)%nat) (first_seen l')
  end.

(** The key that [flatten] builds for the keys met along a path. *)
Definition joined (sep : string) (path : list string) : string :=
  fold_left (new_key sep) path ""%string.

(** The leaves below a value reached by [path], with their paths, in
    the order of the traversal. *)
Fixpoint leaves_value {V} (value : nested V) (path : list string)
  : list (list string * V) :=
  match value with
  | Leaf v => [(path, v)]
  | Dict items => flat_map (fun kv => leaves_value (snd kv) (path ++ [fst kv])) items
  end.

(** The leaves of a nested dictionary under their joined keys. *)
Definition dotted {V} (sep : string) (nested_dict : list (string * nested V))
  : list (string * V) :=
  map (fun pv => (joined sep (fst pv), snd pv)) (leaves_value (Dict nested_dict) []).

(** The value of the last pair of [pairs] whose key is [k]. *)
Definition last_assigned {V} (k : string) (pairs : list (string * V)) : option V :=
  option_map snd (List.find (fun kv => String.eqb (fst kv) k) (rev pairs)).

(** Assigning the pairs one after the other ([d[k] = v]). *)
Definition assign_all {V} (pairs flat : list (string * V)) : list (string * V) :=
  fold_left (fun acc kv => PyDict.set (fst kv) (snd kv) acc) pairs flat.

(** A nested dictionary for concrete evaluation. *)
Definition nested_sample : list (string * nested Z) :=
  [ ("road", Dict [ ("name", Leaf 1); ("lanes", Dict [ ("left", Leaf 2) ]) ]);
    ("empty", Dict []);
    ("toll", Leaf 3) ]%string.

(** What a set gives when it is iterated: every element that was put
    in, once. *)
Definition set_iteration {A} (f : list A -> list A) : Prop :=
  forall l, NoDup (f l) /\ forall x, In x (f l) <-> In x l.

(** An iteration order for concrete evaluation: the last occurrences,
    in list order. *)
Definition dedup (l : list (list Z)) : list (list Z) :=
  nodup (fun x y : list Z => decide (x = y)) l.

(** Three located identifiers, and a distance for concrete evaluation
    (the sum of the absolute differences is not the distance of the
    source). *)
Definition located_frame : gmap string column :=
  <["id" := ColInt [7; 3; 5]]>
    (<["latitude" := ColFloat [F.dec 10 1; F.dec 20 1; F.dec 40 1]]>
       (<["longitude" := ColFloat [F.dec 1 1; F.dec 2 1; F.dec 4 1]]> ∅)).

Definition repeated_frame : gmap string column :=
  <["id" := ColInt [7; 3; 7]]>
    (<["latitude" := ColFloat [F.dec 10 1; F.dec 20 1; F.dec 40 1]]>
       (<["longitude" := ColFloat [F.dec 1 1; F.dec 2 1; F.dec 4 1]]> ∅)).

Definition taxicab (lat1 lon1 lat2 lon2 : spec_float) : spec_float :=
  F.add (SFabs (SFsub F.prec F.emax lat2 lat1)) (SFabs (SFsub F.prec F.emax lon2 lon1)).

(** The cell that the distance matrix holds at position (i, j) for the
    rows with the given coordinates: the integer 0 on the diagonal, the
    distance of row [i] to row [j] elsewhere. *)
Definition expected_cell
    (haversine : spec_float -> spec_float -> spec_float -> spec_float -> spec_float)
    (lats lons : list spec_float) (i j : nat) : cell :=
  if (i =? j)%nat then IntCell 0
  else FloatCell (haversine (nth i lats F.nan) (nth i lons F.nan)
                            (nth j lats F.nan) (nth j lons F.nan)).

(** A frame of cells with one cell per pair of labels and no label
    twice on an axis. *)
Definition well_formed (m : matrix) : Prop :=
  NoDup (index m) /\ NoDup (columns m)
  /\ length (cells m) = length (index m)
  /\ List.Forall (fun row => length row = length (columns m)) (cells m).

(** The integer cells of a frame are 64-bit integers. *)
Definition int64_cells (m : matrix) : Prop :=
  forall row c z, In row (cells m) -> In c row -> c = IntCell z ->
                  - 2 ^ 63 <= z < 2 ^ 63.

(** The number that a cell is in a column of floats. *)
Definition float_of_cell (c : cell) : spec_float :=
  match c with
  | Missing => F.nan
  | IntCell z => F.of_Z z
  | FloatCell f => f
  end.

(** The frame of the unrolled distances. *)
Definition pair_frame (starts ends : list Z) (distance : column) : gmap string column :=
  <["id_start"%string := ColInt starts]>
    (<["id_end"%string := ColInt ends]> (<["distance"%string := distance]> ∅)).

(** The distance of the pair of rows (i, j) as a float: 0.0 for a row
    and itself. *)
Definition expected_distance
    (haversine : spec_float -> spec_float -> spec_float -> spec_float -> spec_float)
    (lats lons : list spec_float) (i j : nat) : spec_float :=
  if (i =? j)%nat then F.zero
  else haversine (nth i lats F.nan) (nth i lons F.nan) (nth j lats F.nan) (nth j lons F.nan).

(** A frame of two labels for concrete evaluation. *)
Definition sample_matrix : matrix :=
  mkmatrix [7; 3] [7; 3] [[IntCell 0; FloatCell (F.dec 15 1)];
                          [FloatCell (F.dec 15 1); IntCell 0]].

(** A coordinate of the input: two fields around one comma, both read
    by [float]. *)
Definition point_of (float : string -> option spec_float) (coord : string)
  : option (spec_float * spec_float) :=
  match str_split coord "," with
  | [a; b] =>
      match float a, float b with
      | Some lat, Some lng => Some (lat, lng)
      | _, _ => None
      end
  | _ => None
  end.

(** Number of occurrences of a character. *)
Fixpoint occurrences (c : ascii) (s : string) : nat :=
  match s with
  | EmptyString => 0
  | String c' s' => (if Ascii.eqb c' c then 1 else 0) + occurrences c s'
  end.

(** The frame of the points with the given distances. *)
Definition points_frame (points : list (spec_float * spec_float)) (distances : column)
  : gmap string column :=
  <["distance"%string := distances]>
    (<["latitude"%string := ColFloat (map fst points)]>
       (<["longitude"%string := ColFloat (map snd points)]> ∅)).

(** A reader of the numerals 0 to 4 and a power by multiplication and
    square root, for concrete evaluation. *)
Definition sample_float (s : string) : option spec_float :=
  if String.eqb s "0" then Some (F.of_Z 0)
  else if String.eqb s "1" then Some (F.of_Z 1)
  else if String.eqb s "3" then Some (F.of_Z 3)
  else if String.eqb s "4" then Some (F.of_Z 4)
  else None.

Definition sample_pow (x y : spec_float) : option spec_float :=
  if SFeqb y (F.of_Z 2) then Some (F.mul x x) else Some (SFsqrt F.prec F.emax x).

(** * Properties *)

(** ** ListReverser *)

Section ListReverser.
Context {A : Type}.
Implicit Types (lst : list A) (n : Z).

Lemma range_positive_step (len n : Z) :
  0 < n ->
  Py.range 0 len n
  = Ok (map (fun k => Z.of_nat k * n) (seq 0 (Z.to_nat ((len + n - 1) / n)))).
Proof.
  intros Hn. unfold Py.range, Py.range_len.
  destruct (Z.eqb_spec n 0) as [->|_]; [lia|].
  destruct (Z.ltb_spec 0 n) as [_|]; [|lia].
  f_equal. replace (len - 0 + n - 1) with (len + n - 1) by lia.
  apply map_ext. intros k. lia.
Qed.

Lemma range_negative_step (len n : Z) :
  0 <= len -> n < 0 -> Py.range 0 len n = Ok [].
Proof.
  intros Hlen Hn. unfold Py.range, Py.range_len.
  destruct (Z.eqb_spec n 0) as [->|_]; [lia|].
  destruct (Z.ltb_spec 0 n) as [|_]; [lia|].
  assert (Hq : (0 - len - n - 1) / - n <= 0).
  { assert ((0 - len - n - 1) / - n < 1); [|lia].
    apply Z.div_lt_upper_bound; lia. }
  replace (Z.to_nat ((0 - len - n - 1) / - n)) with 0%nat by lia.
  reflexivity.
Qed.

(** A slice that starts at a multiple of the chunk size is the chunk
    taken after dropping the earlier ones. *)
Lemma slice_chunk lst (k m : nat) :
  Py.slice lst (Z.of_nat k * Z.of_nat m) (Z.of_nat k * Z.of_nat m + Z.of_nat m)
  = firstn m (skipn (k * m) lst).
Proof.
  unfold Py.slice, Py.clip.
  destruct (Z.ltb_spec (Z.of_nat k * Z.of_nat m) 0) as [|_]; [lia|].
  destruct (Z.ltb_spec (Z.of_nat k * Z.of_nat m + Z.of_nat m) 0) as [|_]; [lia|].
  destruct (Nat.le_gt_cases (length lst) (k * m)) as [Hge|Hlt].
  - rewrite (skipn_all2 lst (n := k * m)) by lia.
    rewrite skipn_all2 by lia. by rewrite !firstn_nil.
  - replace (Z.to_nat (Z.min (Z.of_nat k * Z.of_nat m) (Z.of_nat (length lst))))
      with (k * m)%nat by lia.
    destruct (Nat.le_gt_cases (length lst) (k * m + m)) as [Hge'|Hlt'].
    + rewrite !firstn_all2; [done| |]; rewrite length_skipn; lia.
    + f_equal. lia.
Qed.

Lemma chunks_permutation (m : nat) (f : list A -> list A) :
  (forall l, Permutation (f l) l) ->
  forall (c : nat) lst,
    (length lst <= c * m)%nat ->
    Permutation (flat_map (fun k => f (firstn m (skipn (k * m) lst))) (seq 0 c)) lst.
Proof.
  intros Hf c. induction c as [|c IH]; intros lst Hlen.
  - destruct lst; [constructor | simpl in Hlen; lia].
  - cbn [seq flat_map]. rewrite <- seq_shift, flat_map_concat_map, map_map.
    rewrite <- flat_map_concat_map. simpl skipn.
    transitivity (firstn m lst ++ skipn m lst); [|by rewrite firstn_skipn].
    apply Permutation_app; [apply Hf|].
    erewrite flat_map_ext.
    + apply IH. rewrite length_skipn. lia.
    + intros k. simpl. by rewrite Nat.add_comm, <- skipn_skipn.
Qed.

(** C9. For a chunk size [n >= 1] the call returns a list of the same
    length as [lst] that is a permutation of [lst]. *)
Theorem reverse_by_n_elements_permutation lst n :
  1 <= n ->
  exists out,
    reverse_by_n_elements lst n = Ok out
    /\ length out = length lst
    /\ Permutation out lst.
Proof.
  intros Hn. unfold reverse_by_n_elements.
  rewrite range_positive_step by lia. cbn [mbind result_bind rbind].
  eexists. split; [reflexivity|].
  set (m := Z.to_nat n).
  set (c := Z.to_nat ((Z.of_nat (length lst) + n - 1) / n)).
  assert (Hperm : Permutation
            (flat_map (fun i => rev (Py.slice lst i (i + n)))
                      (map (fun k => Z.of_nat k * n) (seq 0 c))) lst).
  { rewrite flat_map_concat_map, map_map, <- flat_map_concat_map.
    erewrite flat_map_ext.
    - apply (chunks_permutation m (@rev A)).
      + intros l. symmetry. apply Permutation_rev.
      + assert (Z.of_nat (length lst) <= Z.of_nat c * n); [|subst m; nia].
        subst c. rewrite Z2Nat.id by (apply Z.div_pos; lia).
        pose proof (Z.mul_div_le (Z.of_nat (length lst) + n - 1) n ltac:(lia)).
        pose proof (Z.mod_pos_bound (Z.of_nat (length lst) + n - 1) n ltac:(lia)).
        pose proof (Z.div_mod (Z.of_nat (length lst) + n - 1) n ltac:(lia)).
        lia.
    - intros k. simpl. rewrite <- slice_chunk.
      subst m. by rewrite Z2Nat.id by lia. }
  split; [by apply Permutation_length | exact Hperm].
Qed.

(** C5 (as the code has it). For [n <= 0] the outcome does not depend
    on the list: a zero chunk size raises [ValueError], a negative
    chunk size returns the empty list. *)
Theorem reverse_by_n_elements_nonpositive lst n :
  n <= 0 ->
  reverse_by_n_elements lst n = if n =? 0 then Raise ValueError else Ok [].
Proof.
  intros Hn. unfold reverse_by_n_elements.
  destruct (Z.eqb_spec n 0) as [->|Hne].
  - reflexivity.
  - rewrite range_negative_step by lia. reflexivity.
Qed.

End ListReverser.

Lemma reverse_by_n_elements_permutation_witness :
  1 <= 3 /\
  exists out,
    reverse_by_n_elements [1; 2; 3; 4; 5; 6; 7; 8] 3 = Ok out
    /\ length out = length [1; 2; 3; 4; 5; 6; 7; 8]
    /\ Permutation out [1; 2; 3; 4; 5; 6; 7; 8].
Proof.
  split; [lia|]. apply (reverse_by_n_elements_permutation [1; 2; 3; 4; 5; 6; 7; 8] 3). lia.
Defined.

Lemma reverse_by_n_elements_nonpositive_witness :
  -2 <= 0 /\ reverse_by_n_elements [1; 2; 3] (-2) = Ok [].
Proof.
  split; [lia|]. apply (reverse_by_n_elements_nonpositive [1; 2; 3] (-2)). lia.
Defined.

(** C5 as stated fails: a negative chunk size raises nothing. *)
Lemma reverse_by_n_elements_negative_returns :
  reverse_by_n_elements [1; 2; 3] (-1) = Ok []
  /\ forall e, reverse_by_n_elements [1; 2; 3] (-1) <> Raise e.
Proof. split; [reflexivity | intros e; discriminate]. Qed.

Example reverse_by_n_elements_ex1 :
  reverse_by_n_elements [1; 2; 3; 4; 5; 6; 7; 8] 3 = Ok [3; 2; 1; 6; 5; 4; 8; 7].
Proof. reflexivity. Qed.

Example reverse_by_n_elements_zero :
  reverse_by_n_elements [1; 2; 3] 0 = Raise ValueError.
Proof. reflexivity. Qed.

(** ** LengthGrouper *)

Section DictFacts.
Context {K V : Type} `{EqDecision K}.
Implicit Types (d : list (K * V)) (k : K) (v : V).

Lemma dict_get_set_eq d k v : PyDict.get k (PyDict.set k v d) = Some v.
Proof.
  induction d as [|[k' v'] d IH]; simpl.
  - by rewrite decide_True.
  - destruct (decide (k = k')) as [->|Hne]; simpl.
    + by rewrite decide_True.
    + by rewrite decide_False.
Qed.

Lemma dict_get_set_ne d k k' v :
  k <> k' -> PyDict.get k' (PyDict.set k v d) = PyDict.get k' d.
Proof.
  intros Hne. induction d as [|[k0 v0] d IH]; simpl.
  - by rewrite decide_False.
  - destruct (decide (k = k0)) as [->|Hne0]; simpl.
    + by rewrite !decide_False.
    + destruct (decide (k' = k0)); [done | exact IH].
Qed.

Lemma dict_keys_set_present d k v :
  is_Some (PyDict.get k d) -> PyDict.keys (PyDict.set k v d) = PyDict.keys d.
Proof.
  induction d as [|[k' v'] d IH]; simpl; intros Hin.
  - by destruct Hin.
  - destruct (decide (k = k')) as [->|Hne]; simpl; [done|].
    f_equal. by apply IH.
Qed.

Lemma dict_keys_set_absent d k v :
  PyDict.get k d = None -> PyDict.keys (PyDict.set k v d) = PyDict.keys d ++ [k].
Proof.
  induction d as [|[k' v'] d IH]; simpl; intros Hin; [done|].
  destruct (decide (k = k')) as [->|Hne]; simpl; [done|].
  f_equal. by apply IH.
Qed.

Lemma dict_get_In d k v : PyDict.get k d = Some v -> In (k, v) d.
Proof.
  induction d as [|[k' v'] d IH]; simpl; [done|].
  destruct (decide (k = k')) as [->|Hne]; [intros [= ->]; by left | right; auto].
Qed.

Lemma dict_In_get d k v :
  NoDup (PyDict.keys d) -> In (k, v) d -> PyDict.get k d = Some v.
Proof.
  induction d as [|[k' v'] d IH]; simpl; [done|].
  intros Hnd [[= -> ->]|Hin].
  - by rewrite decide_True.
  - apply NoDup_cons in Hnd as [Hk' Hnd].
    destruct (decide (k = k')) as [->|Hne]; [|auto].
    exfalso. apply Hk'. apply list_elem_of_In.
    change k' with (fst (k', v)). by apply in_map.
Qed.

Lemma dict_get_None_keys d k : PyDict.get k d = None -> ~ In k (PyDict.keys d).
Proof.
  induction d as [|[k' v'] d IH]; simpl; [tauto|].
  destruct (decide (k = k')) as [->|Hne]; [done|].
  intros Hget [Heq|Hin]; [congruence | by apply IH].
Qed.

End DictFacts.

Section LengthGrouper.
Implicit Types (grouped : list (nat * list string)) (s : string).

Lemma total_set grouped (k : nat) (v : list string) :
  (total (PyDict.set k v grouped) + length (default [] (PyDict.get k grouped))
   = total grouped + length v)%nat.
Proof.
  unfold total. induction grouped as [|[k' v'] d IH]; simpl.
  - lia.
  - destruct (decide (k = k')) as [->|Hne]; simpl; lia.
Qed.

Lemma of_length_snoc k pre s :
  of_length k (pre ++ [s])
  = of_length k pre ++ (if (String.length s =? k)%nat then [s] else []).
Proof. unfold of_length. by rewrite List.filter_app. Qed.

Lemma app_singleton_match {B} (l : list string) s (x y : B) :
  match l ++ [s] with [] => x | _ :: _ => y end = y.
Proof. by destruct l. Qed.

Lemma group_by_length_body_inv pre grouped s :
  grouped_inv pre grouped ->
  exists grouped',
    group_by_length_body grouped s = Ok grouped'
    /\ grouped_inv (pre ++ [s]) grouped'.
Proof.
  intros (Hnd & Hget & Htot). unfold group_by_length_body, PyDict.contains.
  set (len := String.length s).
  destruct (PyDict.get len grouped) as [bucket|] eqn:Hlen; cbn [negb].
  - unfold PyDict.getitem. rewrite Hlen. cbn.
    eexists. split; [reflexivity|]. split; [|split].
    + rewrite dict_keys_set_present; [done | by rewrite Hlen].
    + intros k. rewrite of_length_snoc.
      destruct (decide (len = k)) as [<-|Hne].
      * rewrite dict_get_set_eq. fold len. rewrite Nat.eqb_refl.
        specialize (Hget len). rewrite Hlen in Hget.
        destruct (of_length len pre) eqn:E; [done|]. by simplify_eq.
      * rewrite dict_get_set_ne by done. rewrite Hget.
        fold len. destruct (Nat.eqb_spec len k); [done|].
        by rewrite app_nil_r.
    + pose proof (total_set grouped len (bucket ++ [s])) as Ht.
      rewrite Hlen in Ht. simpl in Ht. rewrite !length_app in *. simpl in *. lia.
  - unfold PyDict.getitem. rewrite dict_get_set_eq. cbn.
    eexists. split; [reflexivity|]. split; [|split].
    + rewrite dict_keys_set_present by (rewrite dict_get_set_eq; eauto).
      rewrite dict_keys_set_absent by done.
      apply NoDup_app. split; [done|]. split; [|repeat constructor; by intros ?%elem_of_nil].
      intros x Hx ->%list_elem_of_singleton.
      apply (dict_get_None_keys _ _ Hlen). by apply list_elem_of_In.
    + intros k. rewrite of_length_snoc.
      destruct (decide (len = k)) as [<-|Hne].
      * rewrite dict_get_set_eq. fold len. rewrite Nat.eqb_refl.
        specialize (Hget len). rewrite Hlen in Hget.
        destruct (of_length len pre) eqn:E; [done|done].
      * rewrite !dict_get_set_ne by done. rewrite Hget.
        fold len. destruct (Nat.eqb_spec len k); [done|].
        by rewrite app_nil_r.
    + pose proof (total_set (PyDict.set len [] grouped) len [s]) as Ht.
      rewrite dict_get_set_eq in Ht.
      pose proof (total_set grouped len []) as Ht'.
      rewrite Hlen in Ht'. rewrite length_app. simpl in *. lia.
Qed.

Lemma group_by_length_loop lst : forall pre grouped,
  grouped_inv pre grouped ->
  exists grouped',
    rfold group_by_length_body grouped lst = Ok grouped'
    /\ grouped_inv (pre ++ lst) grouped'.
Proof.
  induction lst as [|s lst IH]; intros pre grouped Hinv; simpl.
  - exists grouped. by rewrite app_nil_r.
  - destruct (group_by_length_body_inv pre grouped s Hinv) as (g1 & -> & Hinv1).
    cbn. destruct (IH _ _ Hinv1) as (g2 & Hg2 & Hinv2).
    exists g2. split; [done|]. by rewrite <- app_assoc in Hinv2.
Qed.

(** C10. The groups partition the input: the call returns a
    dictionary with distinct keys in which the group under [k] is
    exactly the input strings of length [k] in input order (and is not
    empty), every input string is in the group keyed by its length and
    in no group under another key, and the groups hold as many strings
    as the input. *)
Theorem group_by_length_partition (lst : list string) :
  exists grouped,
    group_by_length lst = Ok grouped
    /\ NoDup (PyDict.keys grouped)
    /\ (forall k g, In (k, g) grouped -> g <> [] /\ g = of_length k lst)
    /\ (forall s, In s lst ->
          exists g, In (String.length s, g) grouped /\ In s g)
    /\ (forall s k g, In (k, g) grouped -> In s g -> k = String.length s)
    /\ total grouped = length lst.
Proof.
  destruct (group_by_length_loop lst [] []) as (grouped & Hrun & Hnd & Hget & Htot).
  { split; [constructor|]. split; [intros k; reflexivity | reflexivity]. }
  simpl in *. exists grouped. split; [exact Hrun|]. split; [exact Hnd|].
  assert (Hentry : forall k g, In (k, g) grouped -> g <> [] /\ g = of_length k lst).
  { intros k g Hin. apply (dict_In_get _ _ _ Hnd) in Hin.
    rewrite Hget in Hin. destruct (of_length k lst); by simplify_eq. }
  split; [exact Hentry|]. split; [|split; [|exact Htot]].
  - intros s Hs.
    assert (Hin : In s (of_length (String.length s) lst)).
    { apply filter_In. split; [done | apply Nat.eqb_refl]. }
    specialize (Hget (String.length s)).
    destruct (of_length (String.length s) lst) as [|x g] eqn:E; [done|].
    exists (x :: g). split; [by apply dict_get_In | done].
  - intros s k g Hin Hs. destruct (Hentry k g Hin) as [_ ->].
    apply filter_In in Hs as [_ Hlen]. symmetry. by apply Nat.eqb_eq.
Qed.

End LengthGrouper.

Example group_by_length_ex :
  group_by_length ["apple"; "bat"; "car"; "elephant"; "dog"; "bear"]%string
  = Ok [ (5, ["apple"]); (3, ["bat"; "car"; "dog"]);
         (8, ["elephant"]); (4, ["bear"]) ]%nat%string.
Proof. reflexivity. Qed.

(** ** MatrixRotator *)

Lemma bind_Ok {A B} (a : A) (k : A -> result B) : Ok a ≫= k = k a.
Proof. reflexivity. Qed.

Lemma lookup_map {A B} (f : A -> B) (l : list A) (i : nat) :
  map f l !! i = f <$> l !! i.
Proof. revert i. induction l as [|a l IH]; intros [|i]; simpl; auto. Qed.

Lemma rmapM_ok {A B} (f : A -> result B) (g : A -> B) (l : list A) :
  (forall x, In x l -> f x = Ok (g x)) -> rmapM f l = Ok (map g l).
Proof.
  induction l as [|a l IH]; intros Hf; simpl; [done|].
  rewrite Hf by (by left). cbn. rewrite IH by (intros; apply Hf; by right). done.
Qed.

Section MatrixRotator.
Context {A : Type}.
Implicit Types (rows : list (list A)) (n : nat).

(** On rows of one length [n], [zip_star] is the transpose: it has [n]
    columns, and column [i] holds the [i]-th element of every row. *)
Lemma zip_star_transpose rows n :
  rows <> [] ->
  Forall (fun r => length r = n) rows ->
  length (Py.zip_star rows) = n
  /\ forall i, (i < n)%nat ->
       exists col, Py.zip_star rows !! i = Some col
                   /\ length col = length rows
                   /\ forall j r, rows !! j = Some r -> col !! j = r !! i.
Proof.
  induction rows as [|r rows IH]; [done|]. intros _ Hall.
  apply Forall_cons in Hall as [Hr Hall].
  destruct rows as [|r2 rows].
  - cbn [Py.zip_star]. split; [by rewrite length_map|].
    intros i Hi. destruct (lookup_lt_is_Some_2 r i) as [x Hx]; [lia|].
    exists [x]. rewrite list_lookup_fmap, Hx. split; [done|]. split; [done|].
    intros [|j] r' Hj; simplify_eq/=; done.
  - destruct IH as [Hlen Hcols]; [done | done |].
    change (Py.zip_star (r :: r2 :: rows))
      with (zip_with cons r (Py.zip_star (r2 :: rows))).
    split; [rewrite length_zip_with; lia|].
    intros i Hi. destruct (Hcols i Hi) as (col & Hcol & Hclen & Hcell).
    destruct (lookup_lt_is_Some_2 r i) as [x Hx]; [lia|].
    exists (x :: col). rewrite lookup_zip_with, Hx. cbn -[Py.zip_star]. rewrite Hcol. cbn -[Py.zip_star].
    split; [done|]. split; [simpl; by rewrite Hclen|].
    intros [|j] r' Hj; simplify_eq/=; [done | by apply Hcell].
Qed.

End MatrixRotator.

Lemma rev_reverse {A} (l : list A) : rev l = reverse l.
Proof. apply rev_alt. Qed.

Lemma index_lookup {A} (l : list A) (i : nat) (x : A) :
  l !! i = Some x -> Py.index l i = Ok x.
Proof. unfold Py.index. by intros ->. Qed.

Lemma rotated_columns (matrix : list (list Z)) (n : nat) :
  (0 < n)%nat ->
  length matrix = n ->
  Forall (fun r => length r = n) matrix ->
  length (Py.zip_star (rev matrix)) = n
  /\ forall i, (i < n)%nat ->
       exists col, Py.zip_star (rev matrix) !! i = Some col
                   /\ length col = n
                   /\ forall j, (j < n)%nat ->
                        exists x, col !! j = Some x
                                  /\ matrix !! (n - 1 - j)%nat ≫= (.!! i) = Some x.
Proof.
  intros Hn Hlen Hall.
  destruct (zip_star_transpose (rev matrix) n) as [Hrot Hcols].
  - intros Hnil. apply (f_equal length) in Hnil. rewrite length_rev in Hnil.
    simpl in Hnil. lia.
  - rewrite rev_reverse. by apply Forall_reverse.
  - split; [exact Hrot|]. intros i Hi.
    destruct (Hcols i Hi) as (col & Hcol & Hclen & Hcell).
    rewrite length_rev in Hclen.
    exists col. split; [done|]. split; [lia|]. intros j Hj.
    destruct (lookup_lt_is_Some_2 matrix (n - 1 - j)) as [r Hr]; [lia|].
    assert (Hrev : rev matrix !! j = Some r).
    { rewrite rev_reverse, reverse_lookup by lia.
      rewrite <- Hr. f_equal. lia. }
    assert (Hrl : length r = n).
    { exact (Forall_lookup_1 _ _ _ _ Hall Hr). }
    destruct (lookup_lt_is_Some_2 r i) as [x Hx]; [lia|].
    exists x. rewrite (Hcell j r Hrev), Hr. done.
Qed.

(** C4. On a square matrix of side [n] the call returns a square matrix
    of side [n] whose cell (i, j) is the cell (n-1-j, i) of the input,
    that is the cell (i, j) of the clockwise rotation, times [i + j]. *)
Theorem rotate_and_multiply_matrix_cells (matrix : list (list Z)) (n : nat) :
  length matrix = n ->
  Forall (fun r => length r = n) matrix ->
  exists out,
    rotate_and_multiply_matrix matrix = Ok out
    /\ length out = n
    /\ Forall (fun r => length r = n) out
    /\ forall i j, (i < n)%nat -> (j < n)%nat ->
         exists x,
           matrix !! (n - 1 - j)%nat ≫= (.!! i) = Some x
           /\ out !! i ≫= (.!! j) = Some (x * (Z.of_nat i + Z.of_nat j)).
Proof.
  intros Hlen Hall. destruct (decide (n = 0%nat)) as [->|Hpos].
  - destruct matrix; [|done]. exists []. repeat split; [constructor | lia].
  - destruct (rotated_columns matrix n) as [Hrot Hcols]; [lia | done | done |].
    unfold rotate_and_multiply_matrix.
    set (rotated := Py.zip_star (rev matrix)) in *.
    set (cell := fun i j : nat => nth j (nth i rotated []) 0 * (Z.of_nat i + Z.of_nat j)).
    exists (map (fun i => map (cell i) (seq 0 n)) (seq 0 n)).
    split; [|split; [|split]].
    + rewrite Hrot. apply rmapM_ok. intros i Hi%in_seq.
      destruct (Hcols 0%nat) as (row0 & Hrow0 & Hlen0 & _); [lia|].
      cbv beta. rewrite (index_lookup _ _ _ Hrow0), bind_Ok. cbv beta. rewrite Hlen0.
      erewrite rmapM_ok; [reflexivity|]. intros j Hj%in_seq.
      destruct (Hcols i) as (col & Hcol & _ & Hcell); [lia|].
      destruct (Hcell j) as (x & Hx & _); [lia|].
      cbv beta. rewrite (index_lookup _ _ _ Hcol), bind_Ok. cbv beta.
      rewrite (index_lookup _ _ _ Hx), bind_Ok.
      unfold cell.
      by rewrite (nth_lookup_Some _ _ [] _ Hcol), (nth_lookup_Some _ _ 0 _ Hx).
    + by rewrite length_map, length_seq.
    + apply List.Forall_forall. intros r (i & <- & _)%in_map_iff.
      by rewrite length_map, length_seq.
    + intros i j Hi Hj.
      destruct (Hcols i Hi) as (col & Hcol & _ & Hcell).
      destruct (Hcell j Hj) as (x & Hx & Hm).
      exists x. split; [exact Hm|].
      rewrite lookup_map, lookup_seq_lt by done. cbn [fmap option_fmap option_map mbind option_bind].
      rewrite lookup_map, lookup_seq_lt by done. cbn [fmap option_fmap option_map].
      rewrite !Nat.add_0_l.
      unfold cell.
      by rewrite (nth_lookup_Some _ _ [] _ Hcol), (nth_lookup_Some _ _ 0 _ Hx).
Qed.

Lemma rotate_and_multiply_matrix_cells_witness :
  exists out,
    rotate_and_multiply_matrix [[1; 2]; [3; 4]] = Ok out
    /\ length out = 2%nat
    /\ Forall (fun r => length r = 2%nat) out
    /\ forall i j, (i < 2)%nat -> (j < 2)%nat ->
         exists x,
           [[1; 2]; [3; 4]] !! (2 - 1 - j)%nat ≫= (.!! i) = Some x
           /\ out !! i ≫= (.!! j) = Some (x * (Z.of_nat i + Z.of_nat j)).
Proof.
  apply (rotate_and_multiply_matrix_cells [[1; 2]; [3; 4]] 2).
  - reflexivity.
  - repeat constructor.
Defined.

Example rotate_and_multiply_matrix_ex :
  rotate_and_multiply_matrix [[1; 2]; [3; 4]] = Ok [[0; 1]; [4; 4]].
Proof. reflexivity. Qed.

(** ** DateExtractor *)

Local Close Scope Z_scope.

(** *** Characters *)

Lemma existsb_In (c : ascii) (l : list ascii) : existsb (Ascii.eqb c) l = true <-> In c l.
Proof.
  rewrite existsb_exists. split.
  - by intros (x & Hx & ->%Ascii.eqb_eq).
  - intros Hin. exists c. split; [done | apply Ascii.eqb_refl].
Qed.

Lemma is_digit_decimal c : is_digit c = true <-> decimal_digit c.
Proof.
  unfold decimal_digit. rewrite <- existsb_In.
  assert (H : is_digit c = existsb (Ascii.eqb c) (list_ascii_of_string "0123456789")).
  { destruct c as [b0 b1 b2 b3 b4 b5 b6 b7].
    destruct b0, b1, b2, b3, b4, b5, b6, b7; reflexivity. }
  by rewrite H.
Qed.

Lemma is_word_char c : is_word c = true <-> word_char c.
Proof.
  unfold word_char. rewrite <- existsb_In.
  assert (H : is_word c
              = existsb (Ascii.eqb c)
                  (list_ascii_of_string
                     "abcdefghijklmnopqrstuvwxyzABCDEFGHIJKLMNOPQRSTUVWXYZ0123456789_")).
  { destruct c as [b0 b1 b2 b3 b4 b5 b6 b7].
    destruct b0, b1, b2, b3, b4, b5, b6, b7; reflexivity. }
  by rewrite H.
Qed.

Lemma is_digit_word c : is_digit c = true -> is_word c = true.
Proof. unfold is_word. by intros ->. Qed.

Lemma word_opt_false (o : option ascii) :
  word_opt o = false <-> forall x, o = Some x -> ~ word_char x.
Proof.
  destruct o as [c|]; simpl.
  - rewrite <- not_true_iff_false, is_word_char. split.
    + by intros H x [= <-].
    + intros H. by apply H.
  - split; [by intros _ x | done].
Qed.

(** *** The matcher *)

Section Regex.

Lemma take_digits_run k prev s prev' rest :
  take_digits k prev s = Some (prev', rest) ->
  exists ds,
    s = ds ++ rest /\ length ds = k
    /\ (forall c, In c ds -> is_digit c = true)
    /\ prev' = after_run prev ds.
Proof.
  revert prev s. induction k as [|k IH]; intros prev s; simpl.
  - intros [= <- <-]. by exists [].
  - destruct s as [|c s]; [done|].
    destruct (is_digit c) eqn:Hc; [|done].
    intros (ds & -> & <- & Hds & ->)%IH. exists (c :: ds).
    split; [done|]. split; [done|]. split.
    + intros x [<-|Hx]; [done | by apply Hds].
    + unfold after_run. rewrite last_cons. by destruct (last ds).
Qed.

Lemma take_digits_app ds prev rest :
  (forall c, In c ds -> is_digit c = true) ->
  take_digits (length ds) prev (ds ++ rest) = Some (after_run prev ds, rest).
Proof.
  revert prev. induction ds as [|c ds IH]; intros prev Hds; [done|]. simpl.
  rewrite (Hds c) by (by left). rewrite IH by (intros; apply Hds; by right).
  unfold after_run. rewrite last_cons. by destruct (last ds).
Qed.

Lemma attempt_inv lo extra cont prev s r :
  attempt lo extra cont prev s = Some r ->
  exists n prev' rest r',
    lo <= n <= lo + extra
    /\ take_digits n prev s = Some (prev', rest)
    /\ cont prev' rest = Some r' /\ r = n + r'.
Proof.
  induction extra as [|e IH]; simpl.
  - destruct (take_digits lo prev s) as [[prev' rest]|] eqn:Ht; [|done].
    destruct (cont prev' rest) as [r'|] eqn:Hc; [|done].
    intros [= <-]. exists lo, prev', rest, r'. repeat split; try done; lia.
  - destruct (take_digits (lo + S e) prev s) as [[prev' rest]|] eqn:Ht.
    + destruct (cont prev' rest) as [r'|] eqn:Hc; simpl.
      * intros [= <-]. exists (lo + S e), prev', rest, r'. repeat split; try done; lia.
      * intros (n & p' & rest' & r' & Hn & H)%IH. exists n, p', rest', r'.
        split; [lia | done].
    + intros (n & p' & rest' & r' & Hn & H)%IH. exists n, p', rest', r'.
      split; [lia | done].
Qed.

Lemma attempt_none lo extra cont prev s :
  attempt lo extra cont prev s = None ->
  forall n prev' rest,
    lo <= n <= lo + extra ->
    take_digits n prev s = Some (prev', rest) -> cont prev' rest = None.
Proof.
  induction extra as [|e IH]; simpl.
  - intros H n prev' rest Hn Ht. replace n with lo in Ht by lia.
    rewrite Ht in H. by destruct (cont prev' rest).
  - intros H n prev' rest Hn Ht.
    destruct (decide (n = lo + S e)) as [->|Hne].
    + rewrite Ht in H. by destruct (cont prev' rest).
    + apply (IH ltac:(by destruct (take_digits (lo + S e) prev s) as [[? ?]|];
                         [destruct (option_map _ _)|]) n prev' rest); [lia | done].
Qed.

Lemma attempt_some lo extra cont prev s n prev' rest r' :
  lo <= n <= lo + extra ->
  take_digits n prev s = Some (prev', rest) ->
  cont prev' rest = Some r' ->
  exists r, attempt lo extra cont prev s = Some r.
Proof.
  intros Hn Ht Hc. destruct (attempt lo extra cont prev s) as [r|] eqn:Ha; [by exists r|].
  rewrite (attempt_none _ _ _ _ _ Ha n prev' rest Hn Ht) in Hc. done.
Qed.

End Regex.

(** *** The three patterns *)

Section DatePattern.
Variables (l1 e1 l2 e2 l3 e3 : nat) (sep : ascii).
Hypothesis Hl1 : 1 <= l1.
Hypothesis Hl3 : 1 <= l3.

Local Abbreviation pattern :=
  [Boundary; Digits l1 e1; Char sep; Digits l2 e2; Char sep; Digits l3 e3; Boundary].

Local Abbreviation run_of lo extra ds :=
  (lo <= length ds <= lo + extra /\ forall x, In x ds -> is_digit x = true).

Lemma after_run_word prev ds :
  ds <> [] -> (forall x, In x ds -> is_digit x = true) ->
  word_opt (after_run prev ds) = true.
Proof.
  intros Hne Hds. unfold after_run.
  destruct (last ds) as [c|] eqn:Hlast; [|by apply last_None in Hlast].
  simpl. apply is_digit_word, Hds.
  apply last_Some in Hlast as [l' ->]. apply in_or_app. right. by left.
Qed.

Lemma head_run_word ds rest :
  ds <> [] -> (forall x, In x ds -> is_digit x = true) ->
  word_opt (head (ds ++ rest)) = true.
Proof.
  intros Hne Hds. destruct ds as [|c ds]; [done|]. simpl.
  apply is_digit_word, Hds. by left.
Qed.

(** A match of the pattern is three runs of digits around two
    separators, between two boundaries. *)
Lemma match_here_date_sound prev s k :
  match_here pattern prev s = Some k ->
  exists a b c post,
    s = (a ++ sep :: b ++ sep :: c) ++ post
    /\ k = length (a ++ sep :: b ++ sep :: c)
    /\ run_of l1 e1 a /\ run_of l2 e2 b /\ run_of l3 e3 c
    /\ word_opt prev = false /\ word_opt (head post) = false.
Proof.
  cbn [match_here].
  destruct (at_boundary prev s) eqn:Hb1; [|done].
  intros (n1 & p1 & r1 & k1 & Hn1 & Ht1 & Hc1 & ->)%attempt_inv.
  apply take_digits_run in Ht1 as (a & -> & <- & Ha & ->).
  destruct r1 as [|c1 r1]; [done|].
  destruct (Ascii.eqb_spec sep c1) as [<-|?]; [|done].
  destruct (attempt l2 e2 _ (Some sep) r1) as [k2|] eqn:Hk2; [|done].
  injection Hc1 as <-.
  apply attempt_inv in Hk2 as (n2 & p2 & r2 & k2' & Hn2 & Ht2 & Hc2 & ->).
  apply take_digits_run in Ht2 as (b & -> & <- & Hb & ->).
  destruct r2 as [|c2 r2]; [done|].
  destruct (Ascii.eqb_spec sep c2) as [<-|?]; [|done].
  destruct (attempt l3 e3 _ (Some sep) r2) as [k3|] eqn:Hk3; [|done].
  injection Hc2 as <-.
  apply attempt_inv in Hk3 as (n3 & p3 & r3 & k3' & Hn3 & Ht3 & Hc3 & ->).
  apply take_digits_run in Ht3 as (c & -> & <- & Hc & ->).
  destruct (at_boundary (after_run (Some sep) c) r3) eqn:Hb3; [|done].
  injection Hc3 as <-.
  assert (Hane : a <> []) by (intros ->; simpl in Hn1; lia).
  assert (Hcne : c <> []) by (intros ->; simpl in Hn3; lia).
  exists a, b, c, r3. split; [by rewrite <- !app_assoc; simpl; rewrite <- !app_assoc|].
  split; [rewrite !length_app; simpl; rewrite !length_app; simpl; lia|].
  split; [done|]. split; [done|]. split; [done|]. split.
  - unfold at_boundary in Hb1. rewrite (head_run_word a _ Hane Ha) in Hb1.
    by destruct (word_opt prev).
  - unfold at_boundary in Hb3. rewrite (after_run_word _ c Hcne Hc) in Hb3.
    by destruct (word_opt (head r3)).
Qed.

(** Where such a text stands between two boundaries, the matcher finds
    a match. *)
Lemma match_here_date_complete prev a b c post :
  run_of l1 e1 a -> run_of l2 e2 b -> run_of l3 e3 c ->
  word_opt prev = false -> word_opt (head post) = false ->
  exists k, match_here pattern prev ((a ++ sep :: b ++ sep :: c) ++ post) = Some k.
Proof.
  intros [Hn1 Ha] [Hn2 Hb] [Hn3 Hc] Hprev Hpost.
  assert (Hane : a <> []) by (intros ->; simpl in Hn1; lia).
  assert (Hcne : c <> []) by (intros ->; simpl in Hn3; lia).
  rewrite <- !app_assoc. cbn [app]. rewrite <- !app_assoc. cbn [app].
  cbn [match_here].
  unfold at_boundary at 1. rewrite (head_run_word a _ Hane Ha), Hprev. cbn [xorb].
  assert (H3 : exists k,
    attempt l3 e3 (match_here [Boundary]) (Some sep) (c ++ post) = Some k).
  { eapply (attempt_some _ _ _ _ _ (length c)); [done | by apply take_digits_app |].
    cbn [match_here]. unfold at_boundary.
    by rewrite (after_run_word _ c Hcne Hc), Hpost. }
  destruct H3 as [k3 H3].
  assert (H2 : exists k,
    attempt l2 e2 (match_here [Char sep; Digits l3 e3; Boundary]) (Some sep)
            (b ++ sep :: c ++ post) = Some k).
  { eapply (attempt_some _ _ _ _ _ (length b)); [done | by apply take_digits_app |].
    cbn [match_here]. rewrite Ascii.eqb_refl.
    change (attempt l3 e3 _ (Some sep) (c ++ post))
      with (attempt l3 e3 (match_here [Boundary]) (Some sep) (c ++ post)).
    rewrite H3. reflexivity. }
  destruct H2 as [k2 H2].
  eapply (attempt_some _ _ _ _ _ (length a)); [done | by apply take_digits_app |].
  cbn [match_here]. rewrite Ascii.eqb_refl.
  change (attempt l2 e2 _ (Some sep) (b ++ sep :: c ++ post))
    with (attempt l2 e2 (match_here [Char sep; Digits l3 e3; Boundary]) (Some sep)
            (b ++ sep :: c ++ post)).
  rewrite H2. reflexivity.
Qed.

End DatePattern.

(** *** The occurrences of a notation *)

Lemma run_digits_between lo extra (s : list ascii) :
  (lo <= length s <= lo + extra /\ forall x, In x s -> is_digit x = true)
  <-> digits_between (lo, lo + extra) s.
Proof.
  unfold digits_between. cbn [fst snd]. split; intros [Hlen Hd]; (split; [done|]);
    intros x Hx; apply is_digit_decimal; by apply Hd.
Qed.

Lemma date_text_nonempty f a b c m : date_text f a b c m -> m <> [].
Proof. intros (-> & _). by destruct a. Qed.

(** A match at a position is an occurrence there. *)
Lemma match_here_occurs f prev s k :
  match_here (pattern_of f) prev s = Some k ->
  exists m post,
    s = m ++ post /\ k = length m
    /\ (exists a b c, date_text f a b c m)
    /\ (forall x, prev = Some x -> ~ word_char x)
    /\ (forall x, head post = Some x -> ~ word_char x).
Proof.
  intros Hm.
  assert (H : exists a b c post,
    s = (a ++ separator f :: b ++ separator f :: c) ++ post
    /\ k = length (a ++ separator f :: b ++ separator f :: c)
    /\ digits_between (field_widths f).1.1 a
    /\ digits_between (field_widths f).1.2 b
    /\ digits_between (field_widths f).2 c
    /\ word_opt prev = false /\ word_opt (head post) = false).
  { destruct f; cbn [pattern_of separator field_widths fst snd] in *;
      [apply (match_here_date_sound 2 0 2 0 4 0) in Hm
      |apply (match_here_date_sound 1 1 1 1 4 0) in Hm
      |apply (match_here_date_sound 4 0 1 1 1 1) in Hm]; try lia;
      destruct Hm as (a & b & c & post & Hs & Hk & Ha & Hb & Hc & Hp & Hq);
      exists a, b, c, post; rewrite run_digits_between in Ha, Hb, Hc; done. }
  destruct H as (a & b & c & post & -> & -> & Ha & Hb & Hc & Hp & Hq).
  exists (a ++ separator f :: b ++ separator f :: c), post.
  split; [done|]. split; [done|]. split; [by exists a, b, c|].
  split; by apply word_opt_false.
Qed.

(** At an occurrence the matcher finds a match. *)
Lemma occurs_match_here f prev m post :
  (exists a b c, date_text f a b c m) ->
  (forall x, prev = Some x -> ~ word_char x) ->
  (forall x, head post = Some x -> ~ word_char x) ->
  exists k, match_here (pattern_of f) prev (m ++ post) = Some k.
Proof.
  intros (a & b & c & -> & Ha & Hb & Hc) Hp%word_opt_false Hq%word_opt_false.
  destruct f; cbn [pattern_of separator field_widths fst snd] in *;
    [apply (match_here_date_complete 2 0 2 0 4 0)
    |apply (match_here_date_complete 1 1 1 1 4 0)
    |apply (match_here_date_complete 4 0 1 1 1 1)];
    try lia; try done; by apply run_digits_between.
Qed.

Lemma occurs_here f pre s m :
  occurs f (pre ++ s) (length pre) m
  <-> exists post,
        s = m ++ post
        /\ (forall x, last pre = Some x -> ~ word_char x)
        /\ (forall x, head post = Some x -> ~ word_char x)
        /\ exists a b c, date_text f a b c m.
Proof.
  unfold occurs. split.
  - intros [(pre' & post & Heq & Hlen & Hp & Hq) Hd].
    apply app_inj_1 in Heq as [<- ->]; [|done]. by exists post.
  - intros (post & -> & Hp & Hq & Hd). split; [|done]. by exists pre, post.
Qed.

Lemma occurs_within f t q m : occurs f t q m -> q + length m <= length t /\ m <> [].
Proof.
  intros [(pre & post & -> & <- & _) (a & b & c & Hd)].
  split; [rewrite !length_app; lia | by eapply date_text_nonempty].
Qed.

Lemma date_matches_skip f t p ms :
  (forall m, ~ occurs f t p m) ->
  date_matches f t (S p) ms -> date_matches f t p ms.
Proof.
  intros Hno Hms. inversion Hms as [p' Hnone|p' q m ms' Hq Hocc Hbefore Hrest]; subst.
  - apply matches_none. intros q m Hq.
    destruct (decide (q = p)) as [->|Hne]; [apply Hno | apply Hnone; lia].
  - apply (matches_next f t p q m ms'); [lia | done | | done].
    intros q' m' Hq'.
    destruct (decide (q' = p)) as [->|Hne]; [apply Hno | apply Hbefore; lia].
Qed.

(** The scan finds the occurrences from left to right, resuming after
    each of them. *)
Lemma scan_date_matches f : forall s pre skip,
  date_matches f (pre ++ s) (length pre + skip)
    (scan (pattern_of f) (last pre) skip s).
Proof.
  induction s as [|c s IH]; intros pre skip.
  - cbn [scan]. apply matches_none. intros q m Hq [Hlen Hne]%occurs_within.
    rewrite length_app in Hlen. simpl in Hlen.
    destruct m; [done | simpl in Hlen; lia].
  - assert (Hstep : forall k,
      date_matches f (pre ++ c :: s) (length pre + S k) (scan (pattern_of f) (Some c) k s)).
    { intros k. specialize (IH (pre ++ [c]) k).
      rewrite <- app_assoc, last_snoc, length_app in IH. simpl in IH.
      by replace (length pre + S k) with (length pre + 1 + k) by lia. }
    cbn [scan]. destruct skip as [|skip]; [|apply Hstep].
    destruct (match_here (pattern_of f) (last pre) (c :: s)) as [[|k]|] eqn:Hm.
    + apply match_here_occurs in Hm as (m & post & _ & Hk & (a & b & c' & Hd) & _).
      apply date_text_nonempty in Hd. by destruct m.
    + apply match_here_occurs in Hm as (m & post & Hs & Hk & Hd & Hp & Hq).
      rewrite Hs, Hk, take_app_length. rewrite <- Hs.
      apply (matches_next f _ (length pre + 0) (length pre) m); [lia | | lia |].
      * apply occurs_here. exists post. rewrite <- Hs. done.
      * rewrite <- Hk. apply Hstep.
    + apply date_matches_skip.
      * intros m Hocc. replace (length pre + 0) with (length pre) in Hocc by lia.
        apply occurs_here in Hocc as (post & Hs & Hp & Hq & Hd).
        destruct (occurs_match_here f (last pre) m post Hd Hp Hq) as [k Hk].
        rewrite <- Hs in Hk. congruence.
      * replace (S (length pre + 0)) with (length pre + 1) by lia. apply Hstep.
Qed.

Lemma findall_date_matches f (t : list ascii) :
  date_matches f t 0 (findall (pattern_of f) t).
Proof. apply (scan_date_matches f t [] 0). Qed.

(** *** Reading a date *)

Section DateExtractor.
Implicit Types (m s : list ascii) (st : date_loop).

Lemma decimal_digit_cases c :
  decimal_digit c ->
  c = "0"%char \/ c = "1"%char \/ c = "2"%char \/ c = "3"%char \/ c = "4"%char
  \/ c = "5"%char \/ c = "6"%char \/ c = "7"%char \/ c = "8"%char \/ c = "9"%char.
Proof. unfold decimal_digit. simpl. intuition. Qed.

Lemma decimal_digit_value c : decimal_digit c -> nat_of_ascii c - 48 <= 9.
Proof.
  intros H%decimal_digit_cases.
  repeat (destruct H as [->|H]); subst; simpl; lia.
Qed.

Lemma decimal_digit_not_separator f c : decimal_digit c -> c <> separator f.
Proof.
  intros H%decimal_digit_cases.
  repeat (destruct H as [->|H]); subst; by destruct f.
Qed.

Lemma runs_last sep ds : (forall c, In c ds -> c <> sep) -> runs sep ds = [ds].
Proof.
  induction ds as [|c ds IH]; intros Hds; [done|]. cbn [runs].
  destruct (Ascii.eqb_spec c sep) as [->|_]; [by destruct (Hds sep); [left|]|].
  by rewrite IH by (intros; apply Hds; by right).
Qed.

Lemma runs_app sep ds rest :
  (forall c, In c ds -> c <> sep) -> runs sep (ds ++ sep :: rest) = ds :: runs sep rest.
Proof.
  induction ds as [|c ds IH]; intros Hds.
  - cbn [app runs]. by rewrite Ascii.eqb_refl.
  - cbn [app runs].
    destruct (Ascii.eqb_spec c sep) as [->|_]; [by destruct (Hds sep); [left|]|].
    by rewrite IH by (intros; apply Hds; by right).
Qed.

Lemma date_text_runs f a b c m :
  date_text f a b c m -> runs (separator f) m = [a; b; c].
Proof.
  intros (-> & [_ Ha] & [_ Hb] & [_ Hc]).
  rewrite runs_app by (intros; by apply decimal_digit_not_separator, Ha).
  rewrite runs_app by (intros; by apply decimal_digit_not_separator, Hb).
  by rewrite runs_last by (intros; by apply decimal_digit_not_separator, Hc).
Qed.

Lemma int_of_decimal s :
  (forall c, In c s -> decimal_digit c) -> int_of s = decimal s.
Proof.
  unfold int_of, decimal, digit_val.
  assert (H : forall n,
    (forall c, In c s -> decimal_digit c) ->
    fold_left (fun acc c => if is_digit c then 10 * acc + (nat_of_ascii c - 48) else acc) s n
    = fold_left (fun n c => 10 * n + (nat_of_ascii c - 48)) s n).
  { induction s as [|c s IH]; intros n Hs; [done|].
    cbn [fold_left]. rewrite (proj2 (is_digit_decimal c)) by (apply Hs; by left).
    apply IH. intros; apply Hs; by right. }
  apply H.
Qed.

Lemma in_class_digit c : in_class ("0", "9")%char c = is_digit c.
Proof. reflexivity. Qed.

Ltac digit_cases H :=
  apply decimal_digit_cases in H; repeat (destruct H as [->|H]); subst.

Ltac by_evaluation k :=
  vm_compute;
  first [ reflexivity
        | match goal with |- context [k ?g ?rest] => destruct (k g rest) end; reflexivity ].

Lemma match_format_year f0 fmt y1 y2 y3 y4 s :
  (forall c, In c [y1; y2; y3; y4] -> decimal_digit c) ->
  match_format (PY :: fmt) f0 (y1 :: y2 :: y3 :: y4 :: s)
  = match_format fmt (mkdate (decimal [y1; y2; y3; y4]) (month f0) (day f0)) s.
Proof.
  intros Hy. rewrite <- (int_of_decimal _ Hy).
  cbn [match_format alternatives fold_right match_classes].
  rewrite !in_class_digit.
  rewrite !(proj2 (is_digit_decimal _)) by (apply Hy; simpl; tauto).
  cbn [store]. by destruct (match_format fmt _ s).
Qed.

Lemma match_format_literal f0 fmt c s :
  match_format (Lit c :: fmt) f0 (c :: s) = match_format fmt f0 s.
Proof.
  cbn [match_format alternatives fold_right match_classes].
  unfold in_class. cbn [fst snd]. rewrite Nat.leb_refl. cbn [andb store].
  by destruct (match_format fmt f0 s).
Qed.

Lemma match_format_day2 f0 sep fmt d1 d2 s :
  decimal_digit d1 -> decimal_digit d2 -> In sep ["-"; "/"; "."]%char ->
  match_format (Pd :: Lit sep :: fmt) f0 (d1 :: d2 :: sep :: s)
  = if (1 <=? decimal [d1; d2]) && (decimal [d1; d2] <=? 31)
    then match_format fmt (mkdate (year f0) (month f0) (decimal [d1; d2])) s
    else None.
Proof.
  intros H1 H2 Hsep. simpl in Hsep. destruct Hsep as [<-|[<-|[<-|[]]]];
    digit_cases H1; digit_cases H2;
    cbn [match_format]; generalize (match_format fmt); intros k; by_evaluation k.
Qed.

Lemma match_format_day1 f0 sep fmt d1 s :
  decimal_digit d1 -> In sep ["-"; "/"; "."]%char ->
  match_format (Pd :: Lit sep :: fmt) f0 (d1 :: sep :: s)
  = if 1 <=? decimal [d1]
    then match_format fmt (mkdate (year f0) (month f0) (decimal [d1])) s
    else None.
Proof.
  intros H1 Hsep. simpl in Hsep. destruct Hsep as [<-|[<-|[<-|[]]]];
    digit_cases H1;
    cbn [match_format]; generalize (match_format fmt); intros k; by_evaluation k.
Qed.

Lemma match_format_month2 f0 sep fmt d1 d2 s :
  decimal_digit d1 -> decimal_digit d2 -> In sep ["-"; "/"; "."]%char ->
  match_format (Pm :: Lit sep :: fmt) f0 (d1 :: d2 :: sep :: s)
  = if (1 <=? decimal [d1; d2]) && (decimal [d1; d2] <=? 12)
    then match_format fmt (mkdate (year f0) (decimal [d1; d2]) (day f0)) s
    else None.
Proof.
  intros H1 H2 Hsep. simpl in Hsep. destruct Hsep as [<-|[<-|[<-|[]]]];
    digit_cases H1; digit_cases H2;
    cbn [match_format]; generalize (match_format fmt); intros k; by_evaluation k.
Qed.

Lemma match_format_month1 f0 sep fmt d1 s :
  decimal_digit d1 -> In sep ["-"; "/"; "."]%char ->
  match_format (Pm :: Lit sep :: fmt) f0 (d1 :: sep :: s)
  = if 1 <=? decimal [d1]
    then match_format fmt (mkdate (year f0) (decimal [d1]) (day f0)) s
    else None.
Proof.
  intros H1 Hsep. simpl in Hsep. destruct Hsep as [<-|[<-|[<-|[]]]];
    digit_cases H1;
    cbn [match_format]; generalize (match_format fmt); intros k; by_evaluation k.
Qed.

(** A day at the end of the text: the whole text has to be read. *)
Lemma match_format_day_end2 f0 d1 d2 :
  decimal_digit d1 -> decimal_digit d2 ->
  match match_format [Pd] f0 [d1; d2] with Some (f, []) => Some f | _ => None end
  = if (1 <=? decimal [d1; d2]) && (decimal [d1; d2] <=? 31)
    then Some (mkdate (year f0) (month f0) (decimal [d1; d2]))
    else None.
Proof. intros H1 H2. digit_cases H1; digit_cases H2; vm_compute; reflexivity. Qed.

Lemma match_format_day_end1 f0 d1 :
  decimal_digit d1 ->
  match match_format [Pd] f0 [d1] with Some (f, []) => Some f | _ => None end
  = if 1 <=? decimal [d1]
    then Some (mkdate (year f0) (month f0) (decimal [d1]))
    else None.
Proof. intros H1. digit_cases H1; vm_compute; reflexivity. Qed.

Lemma strptime_whole s fmt :
  strptime s fmt
  = match match match_format fmt (mkdate 1900 1 1) s with
          | Some (f, []) => Some f
          | _ => None
          end with
    | Some f => make (year f) (month f) (day f)
    | None => Raise ValueError
    end.
Proof. unfold strptime. by destruct (match_format fmt _ s) as [[f [|? ?]]|]. Qed.

(** The calendar *)

Lemma is_leap_year y : is_leap y = leap_year y.
Proof.
  unfold is_leap, leap_year.
  destruct (Nat.eqb_spec (y mod 400) 0) as [H400|_].
  - apply Nat.Div0.mod_divides in H400 as [q ->].
    replace (400 * q) with (4 * (100 * q)) at 1 by lia.
    replace (400 * q) with (100 * (4 * q)) at 1 by lia.
    rewrite (Nat.mul_comm 4 (100 * q)), (Nat.mul_comm 100 (4 * q)).
    by rewrite !Nat.Div0.mod_mul.
  - cbn [orb]. destruct (y mod 4 =? 0), (y mod 100 =? 0); reflexivity.
Qed.

Lemma days_in_month_lengths y mo :
  1 <= mo <= 12 -> days_in_month y mo = nth (mo - 1) (month_lengths y) 0.
Proof.
  intros Hmo. unfold days_in_month, month_lengths. rewrite is_leap_year.
  do 13 (destruct mo as [|mo]; [try lia; reflexivity|]). lia.
Qed.

Lemma make_calendar y mo d :
  make y mo d = if calendar_date y mo d then Ok (mkdate y mo d) else Raise ValueError.
Proof.
  unfold make, calendar_date.
  destruct (1 <=? y); [|done]. destruct (y <? 10 * 1000); [|done].
  destruct (Nat.leb_spec 1 mo); [|done]. destruct (Nat.leb_spec mo 12); [|done].
  cbn [andb]. by rewrite days_in_month_lengths by lia.
Qed.

Lemma calendar_date_bounds y mo d :
  calendar_date y mo d = true -> 1 <= y < 10 * 1000 /\ 1 <= mo <= 12 /\ 1 <= d <= 31.
Proof.
  unfold calendar_date. intros H.
  repeat (apply andb_prop in H as [H ?]).
  repeat match goal with
         | H : (_ <=? _) = true |- _ => apply Nat.leb_le in H
         | H : (_ <? _) = true |- _ => apply Nat.ltb_lt in H
         end.
  assert (nth (mo - 1) (month_lengths y) 0 <= 31); [|lia].
  unfold month_lengths.
  do 13 (destruct mo as [|mo]; [simpl; try destruct (leap_year y); lia|]). lia.
Qed.

(** Parsing where day and month have been accepted or refused by
    their patterns. *)
Lemma parsed_calendar (accepted : bool) y mo d :
  (calendar_date y mo d = true -> accepted = true) ->
  match (if accepted then Some (mkdate y mo d) else None) with
  | Some f => make (year f) (month f) (day f)
  | None => Raise ValueError
  end
  = if calendar_date y mo d then Ok (mkdate y mo d) else Raise ValueError.
Proof.
  intros Hacc. destruct accepted.
  - cbn [year month day]. apply make_calendar.
  - destruct (calendar_date y mo d); [by discriminate Hacc | done].
Qed.

Ltac refused H Hcal :=
  exfalso; apply calendar_date_bounds in Hcal;
  first [ apply andb_false_iff in H as [H|H]; apply Nat.leb_gt in H; lia
        | apply Nat.leb_gt in H; lia ].

Ltac explicit_field a :=
  match goal with
  | H : _ <= length a <= _ |- _ =>
      let x := fresh "x" in let y := fresh "y" in
      destruct a as [|x [|y [|? [|? [|? ?]]]]]; simpl in H; try lia; clear H
  end.

Ltac calendar_cases :=
  cbn [year month day];
  repeat match goal with
         | |- context [if (?a <=? ?b) && ?c then _ else _] =>
             let H := fresh "Hacc" in
             destruct ((a <=? b) && c) eqn:H
         | |- context [if (1 <=? decimal ?l) then _ else _] =>
             let H := fresh "Hacc" in
             destruct (1 <=? decimal l) eqn:H
         end;
  cbn [year month day];
  first [ apply make_calendar
        | match goal with
          | |- _ = (if calendar_date ?y ?mo ?d then _ else _) =>
              let Hcal := fresh "Hcal" in
              destruct (calendar_date y mo d) eqn:Hcal; [|reflexivity];
              match goal with H : _ = false |- _ => refused H Hcal end
          end ].

Lemma match_format_end f0 s : match_format [] f0 s = Some (f0, s).
Proof. reflexivity. Qed.

Ltac is_digit_field Ha Hb Hc :=
  first [ apply Ha; simpl; tauto | apply Hb; simpl; tauto | apply Hc; simpl; tauto
        | simpl; tauto ].

(** On a date in one of the notations, [strptime] under the format of
    the notation gives the date of the fields when it is a date of the
    calendar, and raises [ValueError] otherwise. *)
Lemma strptime_date f a b c m :
  date_text f a b c m ->
  strptime m (format_of f)
  = let '(y, mo, d) := year_month_day f a b c in
    if calendar_date y mo d then Ok (mkdate y mo d) else Raise ValueError.
Proof.
  intros (-> & [Hla Ha] & [Hlb Hb] & [Hlc Hc]).
  rewrite strptime_whole.
  destruct f; cbn [field_widths fst snd separator format_of year_month_day] in *;
    explicit_field a; explicit_field b; explicit_field c; cbn [app];
    unfold fmt_dmy, fmt_mdy, fmt_ymd;
    repeat first
      [ rewrite match_format_year by (first [exact Ha | exact Hc])
      | rewrite match_format_literal
      | rewrite match_format_day2 by is_digit_field Ha Hb Hc
      | rewrite match_format_day1 by is_digit_field Ha Hb Hc
      | rewrite match_format_month2 by is_digit_field Ha Hb Hc
      | rewrite match_format_month1 by is_digit_field Ha Hb Hc
      | rewrite match_format_end ];
    cbn [year month day].
  all: try match goal with
           | |- context [if ?accepted then match_format [Pd] _ _ else None] =>
               let H := fresh "Hacc" in
               destruct accepted eqn:H;
               [ first [ rewrite match_format_day_end2 by is_digit_field Ha Hb Hc
                       | rewrite match_format_day_end1 by is_digit_field Ha Hb Hc ]
               | ]
           end.
  all: calendar_cases.
Qed.

(** Writing a date *)

Lemma numeral_in_decimal y : y < 10 * 1000 -> numeral y = in_decimal y.
Proof.
  intros Hy.
  assert (H : forallb (fun y => bool_decide (numeral y = in_decimal y)) (seq 0 (10 * 1000))
              = true) by (vm_compute; reflexivity).
  rewrite forallb_forall in H. eapply bool_decide_eq_true_1, H, in_seq. lia.
Qed.

Lemma pad2_two_digits n : n < 100 -> pad2 n = two_digits n.
Proof.
  intros Hn.
  assert (H : forallb (fun n => bool_decide (pad2 n = two_digits n)) (seq 0 100) = true)
    by (vm_compute; reflexivity).
  rewrite forallb_forall in H. eapply bool_decide_eq_true_1, H, in_seq. lia.
Qed.

Lemma strftime_year_mm_dd y mo d :
  calendar_date y mo d = true -> strftime_ymd (mkdate y mo d) = year_mm_dd y mo d.
Proof.
  intros (Hy & Hmo & Hd)%calendar_date_bounds.
  unfold strftime_ymd, year_mm_dd. cbn [year month day].
  by rewrite numeral_in_decimal, !pad2_two_digits by lia.
Qed.

(** From the year 1000 on the text has the shape [yyyy-mm-dd]. *)
Lemma year_mm_dd_shape y mo d :
  calendar_date y mo d = true -> 1000 <= y -> iso_shape (year_mm_dd y mo d).
Proof.
  intros (Hy & Hmo & Hd)%calendar_date_bounds Hy4.
  assert (Hyear : exists y1 y2 y3 y4,
            in_decimal y = [y1; y2; y3; y4]
            /\ forall c, In c [y1; y2; y3; y4] -> decimal_digit c).
  { assert (H : forallb (fun y =>
                  match in_decimal y with
                  | [y1; y2; y3; y4] => forallb is_digit [y1; y2; y3; y4]
                  | _ => false
                  end) (seq 1000 (9 * 1000)) = true) by (vm_compute; reflexivity).
    rewrite forallb_forall in H. specialize (H y ltac:(apply in_seq; lia)).
    destruct (in_decimal y) as [|y1 [|y2 [|y3 [|y4 [|? ?]]]]]; try done.
    exists y1, y2, y3, y4. split; [done|].
    rewrite forallb_forall in H. intros c Hc. by apply is_digit_decimal, H. }
  assert (Htwo : forall n, n < 100 ->
            exists n1 n2, two_digits n = [n1; n2]
                          /\ forall c, In c [n1; n2] -> decimal_digit c).
  { intros n Hn.
    assert (H : forallb (fun n =>
                  match two_digits n with
                  | [n1; n2] => forallb is_digit [n1; n2]
                  | _ => false
                  end) (seq 0 100) = true) by (vm_compute; reflexivity).
    rewrite forallb_forall in H. specialize (H n ltac:(apply in_seq; lia)).
    destruct (two_digits n) as [|n1 [|n2 [|? ?]]]; try done.
    exists n1, n2. split; [done|].
    rewrite forallb_forall in H. intros c Hc. by apply is_digit_decimal, H. }
  destruct Hyear as (y1 & y2 & y3 & y4 & Hyd & Hydig).
  destruct (Htwo mo ltac:(lia)) as (m1 & m2 & Hmd & Hmdig).
  destruct (Htwo d ltac:(lia)) as (d1 & d2 & Hdd & Hddig).
  exists y1, y2, y3, y4, m1, m2, d1, d2. unfold year_mm_dd. rewrite Hyd, Hmd, Hdd.
  split; [done|]. intros c Hc. simpl in Hc.
  destruct Hc as [<-|[<-|[<-|[<-|Hc]]]]; try (apply Hydig; simpl; tauto).
  destruct Hc as [<-|[<-|Hc]]; try (apply Hmdig; simpl; tauto).
  apply Hddig. simpl. tauto.
Qed.

(** The normalized text that the code gives to a date in a notation is
    the text year-mm-dd of its fields. *)
Lemma normalized_normal_date f a b c m :
  date_text f a b c m -> normalized (format_of f) m = normal_date f m.
Proof.
  intros Hd. unfold normalized, normal_date.
  rewrite (strptime_date f a b c m Hd), (date_text_runs f a b c m Hd).
  destruct (year_month_day f a b c) as [[y mo] d].
  destruct (calendar_date y mo d) eqn:Hcal; [|done].
  by rewrite strftime_year_mm_dd.
Qed.

(** *** The validation loop *)

Lemma contains_char_In c s : contains_char c s = true <-> In c s.
Proof. apply existsb_In. Qed.

Lemma contains_char_not_In c s : contains_char c s = false <-> ~ In c s.
Proof.
  rewrite <- contains_char_In. destruct (contains_char c s); intuition congruence.
Qed.

Lemma date_text_chars f a b c m x :
  date_text f a b c m -> In x m -> decimal_digit x \/ x = separator f.
Proof.
  intros (-> & [_ Ha] & [_ Hb] & [_ Hc]) Hin.
  apply in_app_or in Hin as [Hin|[<-|Hin]]; [left; by apply Ha | by right |].
  apply in_app_or in Hin as [Hin|[<-|Hin]]; [left; by apply Hb | by right |].
  left. by apply Hc.
Qed.

Lemma date_text_separator f a b c m : date_text f a b c m -> In (separator f) m.
Proof. intros (-> & _). apply in_or_app. right. by left. Qed.

(** The separator found in a date identifies its notation, so that the
    chain selects the format of that notation. *)
Lemma parse_by_separator_date f a b c m :
  date_text f a b c m ->
  parse_by_separator m = Some (strptime m (format_of f)).
Proof.
  intros Hd. unfold parse_by_separator.
  pose proof (date_text_separator f a b c m Hd) as Hsep.
  assert (Hother : forall x, x <> separator f -> ~ decimal_digit x ->
                             contains_char x m = false).
  { intros x Hx Hnd. apply contains_char_not_In. intros Hin.
    by destruct (date_text_chars f a b c m x Hd Hin). }
  apply contains_char_In in Hsep.
  destruct f; cbn [separator format_of] in *.
  - by rewrite Hsep.
  - rewrite (Hother "-"%char), Hsep; try done.
    intros H%decimal_digit_cases. intuition discriminate.
  - rewrite (Hother "-"%char), (Hother "/"%char), Hsep; try done;
      intros H%decimal_digit_cases; intuition discriminate.
Qed.

Lemma strptime_raises s fmt e : strptime s fmt = Raise e -> e = ValueError.
Proof.
  unfold strptime, make.
  destruct (match_format fmt _ s) as [[f [|? ?]]|]; try by intros [= <-].
  match goal with |- context [if ?b then _ else _] => destruct b end;
    [done | by intros [= <-]].
Qed.

Lemma find_all_dates_body_date st f a b c m :
  date_text f a b c m ->
  exists st',
    find_all_dates_body st m = Ok st'
    /\ valid_dates st'
       = valid_dates st ++ match normal_date f m with Some out => [out] | None => [] end.
Proof.
  intros Hd. unfold find_all_dates_body.
  rewrite (parse_by_separator_date f a b c m Hd).
  rewrite <- (normalized_normal_date f a b c m Hd). unfold normalized.
  destruct (strptime m (format_of f)) as [d|e] eqn:Hs.
  - eexists. split; [reflexivity | done].
  - apply strptime_raises in Hs as ->. exists st. by rewrite app_nil_r.
Qed.

Lemma find_all_dates_loop f : forall ms st,
  (forall m, In m ms -> exists a b c, date_text f a b c m) ->
  exists st',
    rfold find_all_dates_body st ms = Ok st'
    /\ valid_dates st' = valid_dates st ++ omap (normal_date f) ms.
Proof.
  induction ms as [|m ms IH]; intros st Hms; simpl.
  - exists st. by rewrite app_nil_r.
  - destruct (Hms m (or_introl eq_refl)) as (a & b & c & Hd).
    destruct (find_all_dates_body_date st f a b c m Hd) as (st1 & -> & Hv1).
    destruct (IH st1) as (st2 & Hrun & Hv2); [intros; apply Hms; by right|].
    exists st2. split; [exact Hrun|].
    rewrite Hv2, Hv1, <- app_assoc. f_equal.
    by destruct (normal_date f m).
Qed.

Lemma rfold_app {S A} (body : S -> A -> result S) (l1 l2 : list A) : forall acc,
  rfold body acc (l1 ++ l2) = rfold body acc l1 ≫= fun acc1 => rfold body acc1 l2.
Proof.
  induction l1 as [|a l1 IH]; intros acc; simpl; [done|].
  destruct (body acc a); [apply IH | done].
Qed.

Lemma date_matches_texts f t p ms :
  date_matches f t p ms -> forall m, In m ms -> exists a b c, date_text f a b c m.
Proof.
  induction 1 as [|p q m ms Hq [_ Hd] Hbefore Hrest IH]; [done|].
  intros m' [<-|Hin]; [done | by apply IH].
Qed.

(** *** The occurrences are determined by the text *)

Lemma run_unique (ds ds' : list ascii) x x' r r' :
  ds ++ x :: r = ds' ++ x' :: r' ->
  (forall c, In c ds -> decimal_digit c) -> (forall c, In c ds' -> decimal_digit c) ->
  ~ decimal_digit x -> ~ decimal_digit x' ->
  ds = ds' /\ r = r'.
Proof.
  revert ds'. induction ds as [|c ds IH]; intros [|c' ds'] Heq Hds Hds' Hx Hx'.
  - by injection Heq as _ ->.
  - injection Heq as -> _. destruct Hx. apply Hds'. by left.
  - injection Heq as -> _. destruct Hx'. apply Hds. by left.
  - injection Heq as -> Heq.
    destruct (IH ds' Heq) as [-> ->]; try done; intros; [apply Hds | apply Hds']; by right.
Qed.

Lemma run_end_unique (ds ds' post post' : list ascii) :
  ds ++ post = ds' ++ post' ->
  (forall c, In c ds -> decimal_digit c) -> (forall c, In c ds' -> decimal_digit c) ->
  (forall x, head post = Some x -> ~ decimal_digit x) ->
  (forall x, head post' = Some x -> ~ decimal_digit x) ->
  ds = ds'.
Proof.
  revert ds'. induction ds as [|c ds IH]; intros [|c' ds'] Heq Hds Hds' Hp Hp'.
  - done.
  - simpl in Heq. subst post. destruct (Hp c' eq_refl). apply Hds'. by left.
  - simpl in Heq. subst post'. destruct (Hp' c eq_refl). apply Hds. by left.
  - injection Heq as -> Heq. f_equal.
    apply (IH ds' Heq); try done; intros; [apply Hds | apply Hds']; by right.
Qed.

Lemma decimal_digit_word x : decimal_digit x -> word_char x.
Proof. intros H%is_digit_decimal. by apply is_word_char, is_digit_word. Qed.

Lemma occurs_unique f t q m m' : occurs f t q m -> occurs f t q m' -> m = m'.
Proof.
  intros [(pre & post & -> & <- & _ & Hq) (a & b & c & -> & [_ Ha] & [_ Hb] & [_ Hc])]
         [(pre' & post' & Heq & Hlen & _ & Hq') (a' & b' & c' & -> & [_ Ha'] & [_ Hb'] & [_ Hc'])].
  apply app_inj_1 in Heq as [_ Heq]; [|done].
  rewrite <- !app_assoc in Heq. cbn [app] in Heq. rewrite <- !app_assoc in Heq.
  cbn [app] in Heq.
  assert (Hsep : ~ decimal_digit (separator f)).
  { intros H. by apply (decimal_digit_not_separator f) in H. }
  apply run_unique in Heq as [-> Heq]; try done.
  apply run_unique in Heq as [-> Heq]; try done.
  apply run_end_unique in Heq as ->; try done.
  - intros x Hx Hd. by apply (Hq x Hx), decimal_digit_word.
  - intros x Hx Hd. by apply (Hq' x Hx), decimal_digit_word.
Qed.

Lemma date_matches_unique f t p ms :
  date_matches f t p ms -> forall ms', date_matches f t p ms' -> ms = ms'.
Proof.
  induction 1 as [p Hnone|p q m ms Hq Hocc Hbefore Hrest IH];
    intros ms' Hms'; inversion Hms' as [p' Hnone'|p' q' m' ms'' Hq' Hocc' Hbefore' Hrest'];
    subst.
  - done.
  - by destruct (Hnone q' m' Hq').
  - by destruct (Hnone' q m Hq).
  - assert (q = q') as <-.
    { destruct (Nat.lt_trichotomy q q') as [Hlt|[Heq|Hgt]]; [|done|].
      - by destruct (Hbefore' q m (conj Hq Hlt)).
      - by destruct (Hbefore q' m' (conj Hq' Hgt)). }
    rewrite (occurs_unique f t q m m' Hocc Hocc') in *.
    f_equal. by apply IH.
Qed.


End DateExtractor.



Example find_all_dates_mixed :
  find_all_dates "a 2023.1.5 b 1/2/2023 c 32-08-2023, 29-02-2024 29-02-2023 13/1/2020"
  = Ok ["2024-02-29"; "2023-01-02"; "2023-01-05"]%string.
Proof. vm_compute. reflexivity. Qed.

Local Open Scope Z_scope.

(** ** Frames: running a computation and what it may assign *)

Section FrameMonad.
Implicit Types (df : gmap string column) (name : string) (names : list string).

Lemma run_bind {A B} (m : M A) (k : A -> M B) df :
  run (m ≫= k) df
  = match run m df with
    | (Ok a, df') => run (k a) df'
    | (Raise e, df') => (Raise e, df')
    end.
Proof. reflexivity. Qed.

Lemma run_bind_ok {A B} (m : M A) (k : A -> M B) df a df' :
  run m df = (Ok a, df') -> run (m ≫= k) df = run (k a) df'.
Proof. intros H. by rewrite run_bind, H. Qed.

Lemma run_getitem df name c :
  df !! name = Some c -> run (getitem name) df = (Ok c, df).
Proof. unfold getitem. simpl. by intros ->. Qed.

Lemma run_setitem df name c :
  run (setitem name c) df = (Ok tt, <[name := c]> df).
Proof. reflexivity. Qed.

Lemma run_lift {A} (r : result A) df : run (lift r) df = (r, df).
Proof. reflexivity. Qed.

Lemma run_mret {A} (a : A) df : run (mret a) df = (Ok a, df).
Proof. reflexivity. Qed.

Lemma assigns_only_weaken {A} names names' (m : M A) :
  (forall c, In c names -> In c names') ->
  assigns_only names m -> assigns_only names' m.
Proof. intros Hsub Hm df c Hc. apply Hm. auto. Qed.

Lemma assigns_only_bind {A B} names (m : M A) (k : A -> M B) :
  assigns_only names m -> (forall a, assigns_only names (k a)) ->
  assigns_only names (m ≫= k).
Proof.
  intros Hm Hk df c Hc. rewrite run_bind.
  specialize (Hm df c Hc). destruct (run m df) as [[a|e] df1]; simpl in *.
  - by rewrite Hk.
  - done.
Qed.

Lemma assigns_only_getitem names name : assigns_only names (getitem name).
Proof. by intros df c _. Qed.

Lemma assigns_only_lift {A} names (r : result A) : assigns_only names (lift r).
Proof. by intros df c _. Qed.

Lemma assigns_only_mret {A} names (a : A) : assigns_only names (mret a).
Proof. by intros df c _. Qed.

Lemma assigns_only_select names l : assigns_only names (select l).
Proof. by intros df c _. Qed.

Lemma assigns_only_setitem names name c :
  In name names -> assigns_only names (setitem name c).
Proof.
  intros Hin df c' Hc'. simpl. apply lookup_insert_ne. by intros ->.
Qed.

(** Assigning no column is leaving the frame as it was. *)
Lemma assigns_nothing {A} (m : M A) df : assigns_only [] m -> (run m df).2 = df.
Proof. intros Hm. apply map_eq. intros c. apply Hm. simpl. tauto. Qed.

Lemma assigns_only_delete1 {A} (m : M A) n1 df :
  assigns_only [n1] m -> delete n1 (run m df).2 = delete n1 df.
Proof.
  intros Hm. apply map_eq. intros c.
  destruct (decide (n1 = c)) as [->|Hne].
  - by rewrite !lookup_delete_eq.
  - rewrite !lookup_delete_ne by done. apply Hm. simpl. tauto.
Qed.

Lemma assigns_only_delete2 {A} (m : M A) n1 n2 df :
  assigns_only [n1; n2] m ->
  delete n2 (delete n1 (run m df).2) = delete n2 (delete n1 df).
Proof.
  intros Hm. apply map_eq. intros c.
  destruct (decide (n2 = c)) as [->|Hne2]; [by rewrite !lookup_delete_eq|].
  rewrite !(lookup_delete_ne _ n2) by done.
  destruct (decide (n1 = c)) as [->|Hne1]; [by rewrite !lookup_delete_eq|].
  rewrite !lookup_delete_ne by done. apply Hm. simpl. tauto.
Qed.

End FrameMonad.

Ltac frame_rule :=
  repeat first
    [ apply assigns_only_bind; [|intros ?]
    | apply assigns_only_getitem
    | apply assigns_only_lift
    | apply assigns_only_mret
    | apply assigns_only_select
    | apply assigns_only_setitem; simpl; tauto ].

Lemma find_ids_assigns series_mean group_mean reference_id :
  assigns_only []
    (find_ids_within_ten_percentage_threshold series_mean group_mean reference_id).
Proof. unfold find_ids_within_ten_percentage_threshold. frame_rule. Qed.

Lemma calculate_toll_rate_assigns :
  assigns_only ["vehicle_type"; "toll_rate"]%string calculate_toll_rate.
Proof. unfold calculate_toll_rate. frame_rule. Qed.

Lemma calculate_time_based_toll_rates_assigns parse :
  assigns_only ["time"; "toll_rate"]%string (calculate_time_based_toll_rates parse).
Proof. unfold calculate_time_based_toll_rates. frame_rule. Qed.

Lemma time_check_assigns parse :
  assigns_only ["timestamp"]%string (time_check parse).
Proof. unfold time_check. frame_rule. Qed.

Ltac run_getitem_step :=
  rewrite run_bind; erewrite run_getitem by (simplify_map_eq; done); cbv beta iota.
Ltac run_setitem_step :=
  rewrite run_bind, run_setitem; cbv beta iota.
Ltac run_lift_step H :=
  rewrite run_bind, run_lift, H; cbv beta iota.

Lemma run_select3 (df : gmap string column) n1 n2 n3 c1 c2 c3 :
  df !! n1 = Some c1 -> df !! n2 = Some c2 -> df !! n3 = Some c3 ->
  run (select [n1; n2; n3]) df
  = (Ok (<[n1 := c1]> (<[n2 := c2]> (<[n3 := c3]> ∅))), df).
Proof. intros H1 H2 H3. unfold select. simpl. by rewrite H1, H2, H3. Qed.

(** ** TollRateCalculator *)

Lemma col_mul_floats dist (vt ds : list spec_float) :
  as_floats dist = Ok ds ->
  col_mul dist (ColFloat vt) = Ok (ColFloat (zip_with F.mul ds vt)).
Proof. unfold col_mul. by intros ->. Qed.

Lemma calculate_toll_rate_run (df : gmap string column) ids id_end dist ds :
  df !! "id_start"%string = Some ids ->
  df !! "id_end"%string = Some id_end ->
  df !! "distance"%string = Some dist ->
  as_floats dist = Ok ds ->
  let vt := map_dict_values toll_rates ids in
  let toll := ColFloat (zip_with F.mul ds vt) in
  run calculate_toll_rate df
  = (Ok (<["id_start"%string := ids]>
           (<["id_end"%string := id_end]> (<["toll_rate"%string := toll]> ∅))),
     <["toll_rate"%string := toll]> (<["vehicle_type"%string := ColFloat vt]> df)).
Proof.
  intros Hids Hend Hdist Hds vt toll. subst vt toll.
  unfold calculate_toll_rate, map_dict.
  run_getitem_step. run_setitem_step. run_getitem_step. run_getitem_step.
  run_lift_step (col_mul_floats dist (map_dict_values toll_rates ids) ds Hds).
  run_setitem_step.
  apply run_select3; by simplify_map_eq.
Qed.

Lemma toll_rates_multiplier s : PyDict.get s toll_rates = multiplier s.
Proof.
  unfold toll_rates, multiplier. cbn [PyDict.get].
  destruct (String.eqb_spec s "car") as [->|?]; [done|]. rewrite decide_False by done.
  destruct (String.eqb_spec s "truck") as [->|?]; [done|]. rewrite decide_False by done.
  destruct (String.eqb_spec s "bus") as [->|?]; [done|]. by rewrite decide_False by done.
Qed.

Lemma mul_nan_r d : F.mul d F.nan = F.nan.
Proof. by destruct d. Qed.

Lemma mul_nan_l d : F.mul F.nan d = F.nan.
Proof. done. Qed.

(** C6. On a frame with columns [id_start], [id_end] and a numeric
    [distance], the call returns, raising nothing, a frame whose
    [toll_rate] holds for every row the distance times the multiplier
    that the table has for the row's [id_start], and NaN when the
    [id_start] is none of the three keys. *)
Theorem calculate_toll_rate_rows (df : gmap string column) ids id_end dist ds :
  df !! "id_start"%string = Some ids ->
  df !! "id_end"%string = Some id_end ->
  df !! "distance"%string = Some dist ->
  as_floats dist = Ok ds ->
  exists out df' tolls,
    run calculate_toll_rate df = (Ok out, df')
    /\ out !! "id_start"%string = Some ids
    /\ out !! "id_end"%string = Some id_end
    /\ out !! "toll_rate"%string = Some (ColFloat tolls)
    /\ length tolls = (length ds `min` col_length ids)%nat
    /\ forall i d,
         ds !! i = Some d -> (i < col_length ids)%nat ->
         tolls !! i = Some match row_multiplier ids i with
                           | Some r => F.mul d r
                           | None => F.nan
                           end.
Proof.
  intros Hids Hend Hdist Hds.
  pose proof (calculate_toll_rate_run df ids id_end dist ds Hids Hend Hdist Hds) as Hrun.
  cbv zeta in Hrun. do 3 eexists. split; [exact Hrun|].
  split; [by simplify_map_eq|]. split; [by simplify_map_eq|].
  split; [by simplify_map_eq|]. split.
  - rewrite length_zip_with. f_equal.
    destruct ids; simpl; by rewrite ?length_map, ?length_replicate.
  - intros i d Hd Hi. rewrite lookup_zip_with, Hd. cbn [mbind option_bind].
    destruct ids as [l|l|l|l|l]; cbn [map_dict_values row_multiplier col_length] in *;
      try (rewrite (proj2 (lookup_replicate _ _ _ _) (conj eq_refl Hi));
           cbn [mbind option_bind]; by rewrite mul_nan_r).
    rewrite lookup_map.
    destruct (lookup_lt_is_Some_2 l i Hi) as [s Hs]. rewrite Hs.
    cbn [fmap option_fmap option_map mbind option_bind].
    rewrite toll_rates_multiplier.
    destruct (multiplier s); cbn [default]; [done | by rewrite mul_nan_r].
Qed.

Lemma calculate_toll_rate_rows_witness :
  exists out df' tolls,
    run calculate_toll_rate toll_frame = (Ok out, df')
    /\ out !! "id_start"%string = Some (ColStr ["car"; "truck"; "1001400"]%string)
    /\ out !! "id_end"%string = Some (ColInt [1001402; 1001404; 1001402])
    /\ out !! "toll_rate"%string = Some (ColFloat tolls)
    /\ length tolls = 3%nat
    /\ forall i d,
         [F.dec 97 10; F.dec 292 10; F.dec 455 10] !! i = Some d -> (i < 3)%nat ->
         tolls !! i
         = Some match row_multiplier (ColStr ["car"; "truck"; "1001400"]%string) i with
                | Some r => F.mul d r
                | None => F.nan
                end.
Proof.
  apply (calculate_toll_rate_rows toll_frame
           (ColStr ["car"; "truck"; "1001400"]%string)
           (ColInt [1001402; 1001404; 1001402])
           (ColFloat [F.dec 97 10; F.dec 292 10; F.dec 455 10])
           [F.dec 97 10; F.dec 292 10; F.dec 455 10]);
    reflexivity.
Defined.

Example calculate_toll_rate_ex :
  (run calculate_toll_rate toll_frame).1
  = Ok (<["id_start"%string := ColStr ["car"; "truck"; "1001400"]%string]>
          (<["id_end"%string := ColInt [1001402; 1001404; 1001402]]>
             (<["toll_rate"%string :=
                  ColFloat [F.dec 97 10; F.mul (F.dec 292 10) (F.dec 15 10); F.nan]]> ∅))).
Proof. vm_compute. reflexivity. Qed.

(** ** TimeBasedTollCalculator *)

Lemma first_rate_find x items (bs : list (time * spec_float)) :
  Forall2 (fun it b => clock_time it.1 = Ok b.1 /\ it.2 = b.2) items bs ->
  first_rate x items
  = Ok match List.find (fun b => time_ge x (fst b)) bs with
       | Some b => snd b
       | None => F.dec 10 10
       end.
Proof.
  induction 1 as [|[t rate] [bound rate'] items bs [Hclock Hrate] _ IH]; [done|].
  simpl in *. subst rate'. rewrite Hclock, bind_Ok.
  destruct (time_ge x bound); [done | exact IH].
Qed.

Lemma first_rate_boundaries x :
  first_rate x time_based_rates = Ok (first_boundary_rate x).
Proof.
  apply first_rate_find. unfold time_based_rates, boundaries.
  repeat constructor.
Qed.

Lemma time_of_valid t : valid_time (time_of t).
Proof.
  unfold valid_time, time_of, ns_per_day, ns_per_second. simpl.
  pose proof (Z.mod_pos_bound t (86400 * 1000000000) ltac:(lia)) as Hm.
  set (us := t mod (86400 * 1000000000) / 1000).
  assert (0 <= us) by (apply Z.div_pos; lia).
  repeat split.
  - apply Z.div_pos; lia.
  - apply Z.mod_pos_bound; lia.
  - apply Z.mod_pos_bound; lia.
  - apply Z.mod_pos_bound; lia.
Qed.

Lemma time_ge_midnight x : valid_time x -> time_ge x (mktime 0 0 0 0) = true.
Proof.
  intros (Hh & Hm & Hs & Hu). unfold time_ge. simpl.
  destruct (Z.compare_spec (hour x) 0); [|lia|done].
  destruct (Z.compare_spec (minute x) 0); [|lia|done].
  destruct (Z.compare_spec (second x) 0); [|lia|done].
  by apply Z.leb_le.
Qed.

Lemma first_boundary_rate_valid x : valid_time x -> first_boundary_rate x = F.dec 5 10.
Proof.
  intros Hx. unfold first_boundary_rate, boundaries. cbn [List.find fst snd].
  by rewrite time_ge_midnight.
Qed.

Lemma calculate_time_based_toll_rates_run parse (df : gmap string column)
    ts stamps id_start id_end :
  df !! "timestamp"%string = Some ts ->
  to_datetime parse ts = Ok stamps ->
  df !! "id_start"%string = Some id_start ->
  df !! "id_end"%string = Some id_end ->
  let times := map time_of stamps in
  let toll := ColFloat (map first_boundary_rate times) in
  run (calculate_time_based_toll_rates parse) df
  = (Ok (<["id_start"%string := id_start]>
           (<["id_end"%string := id_end]> (<["toll_rate"%string := toll]> ∅))),
     <["toll_rate"%string := toll]> (<["time"%string := ColTime times]> df)).
Proof.
  intros Hts Hstamps Hstart Hend times toll. subst times toll.
  unfold calculate_time_based_toll_rates.
  run_getitem_step. run_lift_step Hstamps. run_setitem_step. run_getitem_step.
  rewrite run_bind, run_lift. cbn [as_times]. cbv beta iota.
  rewrite run_bind, run_lift.
  rewrite (rmapM_ok _ first_boundary_rate) by (intros; apply first_rate_boundaries).
  cbv beta iota. run_setitem_step.
  apply run_select3; by simplify_map_eq.
Qed.

(** C1. The rate given to a time of day is the rate of the first
    boundary of the table, in declaration order, that is at most that
    time, and 1.0 when there is none; the first boundary, 00:00, is at
    most every time of day, so that the rate is 0.5; and on a frame with
    [id_start], [id_end] and a [timestamp] column that converts to
    timestamps, the call returns a frame whose [toll_rate] is 0.5 for
    every record. *)
Theorem calculate_time_based_toll_rates_first_boundary parse
    (df : gmap string column) ts stamps id_start id_end :
  df !! "timestamp"%string = Some ts ->
  to_datetime parse ts = Ok stamps ->
  df !! "id_start"%string = Some id_start ->
  df !! "id_end"%string = Some id_end ->
  (forall x, first_rate x time_based_rates = Ok (first_boundary_rate x))
  /\ (forall x, valid_time x -> first_boundary_rate x = F.dec 5 10)
  /\ exists out df',
       run (calculate_time_based_toll_rates parse) df = (Ok out, df')
       /\ out !! "id_start"%string = Some id_start
       /\ out !! "id_end"%string = Some id_end
       /\ out !! "toll_rate"%string
          = Some (ColFloat (map (fun t => first_boundary_rate (time_of t)) stamps))
       /\ out !! "toll_rate"%string
          = Some (ColFloat (replicate (length stamps) (F.dec 5 10))).
Proof.
  intros Hts Hstamps Hstart Hend.
  split; [apply first_rate_boundaries|]. split; [apply first_boundary_rate_valid|].
  pose proof (calculate_time_based_toll_rates_run parse df ts stamps id_start id_end
                Hts Hstamps Hstart Hend) as Hrun.
  cbv zeta in Hrun. do 2 eexists. split; [exact Hrun|].
  split; [by simplify_map_eq|]. split; [by simplify_map_eq|].
  rewrite map_map.
  split; [by simplify_map_eq|]. simplify_map_eq. do 2 f_equal.
  clear. induction stamps as [|t stamps IH]; [done|]. simpl.
  rewrite IH. f_equal. apply first_boundary_rate_valid, time_of_valid.
Qed.

Lemma calculate_time_based_toll_rates_first_boundary_witness :
  (forall x, first_rate x time_based_rates = Ok (first_boundary_rate x))
  /\ (forall x, valid_time x -> first_boundary_rate x = F.dec 5 10)
  /\ exists out df',
       run (calculate_time_based_toll_rates (fun _ => Raise ValueError)) timed_frame
       = (Ok out, df')
       /\ out !! "id_start"%string = Some (ColInt [1; 1; 2; 1; 2])
       /\ out !! "id_end"%string = Some (ColInt [7; 7; 8; 9; 8])
       /\ out !! "toll_rate"%string
          = Some (ColFloat (map (fun t => first_boundary_rate (time_of t))
                                [0; 86400000000000; 5; 7; 86400000000004]))
       /\ out !! "toll_rate"%string
          = Some (ColFloat (replicate 5 (F.dec 5 10))).
Proof.
  apply (calculate_time_based_toll_rates_first_boundary
           (fun _ => Raise ValueError) timed_frame
           (ColDatetime [0; 86400000000000; 5; 7; 86400000000004])
           [0; 86400000000000; 5; 7; 86400000000004]
           (ColInt [1; 1; 2; 1; 2]) (ColInt [7; 7; 8; 9; 8]));
    reflexivity.
Defined.

(** ** Grouping *)

Section GroupKeys.
Context {K : Type} (cmp : K -> K -> comparison).
Hypothesis cmp_eq : forall a b, cmp a b = Eq <-> a = b.
Hypothesis cmp_lt_trans : forall a b c, cmp a b = Lt -> cmp b c = Lt -> cmp a c = Lt.
Hypothesis cmp_gt_lt : forall a b, cmp a b = Gt -> cmp b a = Lt.

Local Abbreviation ascending := (StronglySorted (fun a b => cmp a b = Lt)).

Lemma insert_key_In k l x : In x (insert_key cmp k l) <-> x = k \/ In x l.
Proof.
  induction l as [|y l IH]; simpl; [intuition|].
  destruct (cmp k y) eqn:Hc; simpl.
  - apply cmp_eq in Hc as ->. intuition.
  - intuition.
  - rewrite IH. intuition.
Qed.

Lemma insert_key_ascending k l : ascending l -> ascending (insert_key cmp k l).
Proof.
  induction 1 as [|y l Hl IH Hy]; simpl; [repeat constructor|].
  destruct (cmp k y) eqn:Hc.
  - by constructor.
  - constructor; [by constructor|]. constructor; [done|].
    eapply List.Forall_impl; [|exact Hy]. intros z Hz. by eapply cmp_lt_trans.
  - constructor; [done|]. apply List.Forall_forall. intros z Hz.
    apply insert_key_In in Hz as [->|Hz]; [by apply cmp_gt_lt|].
    eapply List.Forall_forall in Hy; eauto.
Qed.

Lemma group_keys_In ks x : In x (group_keys cmp ks) <-> In x ks.
Proof.
  unfold group_keys. induction ks as [|k ks IH]; simpl; [done|].
  rewrite insert_key_In, IH. intuition.
Qed.

Lemma group_keys_ascending ks : ascending (group_keys cmp ks).
Proof.
  unfold group_keys. induction ks as [|k ks IH]; simpl; [constructor|].
  by apply insert_key_ascending.
Qed.

Lemma ascending_NoDup l : ascending l -> NoDup l.
Proof.
  induction 1 as [|y l Hl IH Hy]; constructor; [|done].
  intros Hin%list_elem_of_In. eapply List.Forall_forall in Hy; [|exact Hin].
  assert (cmp y y = Eq) as Hyy by by apply cmp_eq. congruence.
Qed.

Lemma group_values_nonempty {V} k (rows : list (K * V)) :
  In k (map fst rows) -> group_values cmp k rows <> [].
Proof.
  intros ([k' v] & <- & Hin)%in_map_iff. unfold group_values.
  assert (Hf : In (k', v) (List.filter (fun r => same_key cmp r.1 (k', v).1) rows)).
  { apply filter_In. split; [done|]. unfold same_key. simpl.
    by rewrite (proj2 (cmp_eq k' k') eq_refl). }
  intros Hnil. apply (in_map snd) in Hf. simpl in *. rewrite Hnil in Hf. done.
Qed.

Lemma groupby_apply_keys {V R} (f : list V -> R) (rows : list (K * V)) :
  map fst (groupby_apply cmp f rows) = group_keys cmp (map fst rows).
Proof. unfold groupby_apply. rewrite map_map. simpl. apply map_id. Qed.

Lemma groupby_apply_In {V R} (f : list V -> R) (rows : list (K * V)) k r :
  In (k, r) (groupby_apply cmp f rows)
  <-> In k (map fst rows) /\ r = f (group_values cmp k rows).
Proof.
  unfold groupby_apply. rewrite in_map_iff. split.
  - intros (k' & Heq & Hin). injection Heq as <- <-.
    rewrite group_keys_In in Hin. by split.
  - intros [Hin ->]. exists k. split; [done | by rewrite group_keys_In].
Qed.

End GroupKeys.

Lemma pair_compare_eq a b : pair_compare a b = Eq <-> a = b.
Proof.
  destruct a as [a1 a2], b as [b1 b2]. unfold pair_compare. simpl.
  destruct (Z.compare_spec a1 b1); [subst|split; [done|intros [=]; lia]..].
  rewrite Z.compare_eq_iff. split; [by intros -> | by intros [=]].
Qed.

Lemma pair_compare_lt a b :
  pair_compare a b = Lt <-> a.1 < b.1 \/ (a.1 = b.1 /\ a.2 < b.2).
Proof.
  unfold pair_compare.
  destruct (Z.compare_spec a.1 b.1); [rewrite Z.compare_lt_iff|..];
    split; try done; try lia.
Qed.

Lemma pair_compare_lt_trans a b c :
  pair_compare a b = Lt -> pair_compare b c = Lt -> pair_compare a c = Lt.
Proof. rewrite !pair_compare_lt. lia. Qed.

Lemma pair_compare_gt_lt a b : pair_compare a b = Gt -> pair_compare b a = Lt.
Proof.
  rewrite pair_compare_lt. unfold pair_compare.
  destruct (Z.compare_spec a.1 b.1); [rewrite Z.compare_gt_iff|..];
    try done; lia.
Qed.

Lemma Z_compare_lt_trans (a b c : Z) : (a ?= b) = Lt -> (b ?= c) = Lt -> (a ?= c) = Lt.
Proof. rewrite !Z.compare_lt_iff. lia. Qed.

Lemma Z_compare_gt_lt (a b : Z) : (a ?= b) = Gt -> (b ?= a) = Lt.
Proof. rewrite Z.compare_gt_iff, Z.compare_lt_iff. lia. Qed.

(** ** CoverageChecker *)

Lemma ts_min_spec g mn :
  ts_min g = Some mn -> In mn g /\ forall t, In t g -> mn <= t.
Proof.
  destruct g as [|x l]; [done|]. simpl. intros [= <-].
  revert x. induction l as [|y l IH]; intros x; simpl.
  - split; [by left | intros t [->|[]]; lia].
  - destruct (IH (Z.min x y)) as [Hin Hle]. split.
    + destruct Hin as [Hin|Hin]; [|by right; right].
      destruct (Z.min_spec x y) as [[_ Hm]|[_ Hm]]; rewrite Hm in *; simpl; tauto.
    + intros t [->|[->|Ht]].
      * specialize (Hle (Z.min t y) (or_introl eq_refl)). lia.
      * specialize (Hle (Z.min x t) (or_introl eq_refl)). lia.
      * apply Hle. by right.
Qed.

Lemma ts_max_spec g mx :
  ts_max g = Some mx -> In mx g /\ forall t, In t g -> t <= mx.
Proof.
  destruct g as [|x l]; [done|]. simpl. intros [= <-].
  revert x. induction l as [|y l IH]; intros x; simpl.
  - split; [by left | intros t [->|[]]; lia].
  - destruct (IH (Z.max x y)) as [Hin Hle]. split.
    + destruct Hin as [Hin|Hin]; [|by right; right].
      destruct (Z.max_spec x y) as [[_ Hm]|[_ Hm]]; rewrite Hm in *; simpl; tauto.
    + intros t [->|[->|Ht]].
      * specialize (Hle (Z.max t y) (or_introl eq_refl)). lia.
      * specialize (Hle (Z.max x t) (or_introl eq_refl)). lia.
      * apply Hle. by right.
Qed.

Lemma rmapM_map {A B C} (f : B -> result C) (h : A -> B) (l : list A) :
  rmapM f (map h l) = rmapM (fun a => f (h a)) l.
Proof. induction l as [|a l IH]; [done|]. cbn [map rmapM]. by rewrite IH. Qed.

Lemma rmapM_raise {A B} (f : A -> result B) (e : exn) (l : list A) :
  (forall x e', In x l -> f x = Raise e' -> e' = e) ->
  (exists x e', In x l /\ f x = Raise e') ->
  rmapM f l = Raise e.
Proof.
  induction l as [|a l IH]; intros Hall (x & e' & Hin & Hx); [done|]. cbn [rmapM].
  destruct (f a) as [b|e0] eqn:Ha.
  - rewrite bind_Ok. destruct Hin as [->|Hin]; [congruence|].
    rewrite IH; [done| |by exists x, e'].
    intros y e1 Hy. apply Hall. by right.
  - by rewrite (Hall a e0 (or_introl eq_refl) Ha).
Qed.

(** The timestamps of the group of [k] are those of the records whose
    key is [k]. *)
Lemma group_values_pair k t (rows : list ((Z * Z) * Z)) :
  In t (group_values pair_compare k rows) <-> In (k, t) rows.
Proof.
  unfold group_values. rewrite in_map_iff. split.
  - intros ([k' t'] & <- & [Hin Hk]%filter_In). simpl in *.
    unfold same_key in Hk. destruct (pair_compare k' k) eqn:Hc; try done.
    by apply pair_compare_eq in Hc as ->.
  - intros Hin. exists (k, t). split; [done|]. apply filter_In. split; [done|].
    unfold same_key. simpl. by rewrite (proj2 (pair_compare_eq k k) eq_refl).
Qed.

(** The predicate raises nothing but [OutOfBoundsDatetime]. *)
Lemma covers_raises g e : covers g = Raise e -> e = OutOfBoundsDatetime.
Proof.
  unfold covers, ts_add. destruct (ts_min g) as [mn|]; [|done].
  destruct ((ts_lowest <=? mn + timedelta_days 7) && (mn + timedelta_days 7 <=? ts_highest));
    [|by intros [= <-]].
  rewrite bind_Ok. destruct (ts_le (Some mn) (Some (mn + timedelta_days 7))); [|done].
  destruct ((ts_lowest <=? mn + timedelta_days 1) && (mn + timedelta_days 1 <=? ts_highest));
    [done|by intros [= <-]].
Qed.

(** On a group of timestamps with one that leaves room for seven days,
    so does the least, the first clause of the predicate holds, and the
    predicate is its second clause. *)
Lemma covers_in_range g :
  (forall t, In t g -> ts_lowest <= t) ->
  (exists t, In t g /\ t + timedelta_days 7 <= ts_highest) ->
  exists mn mx,
    ts_min g = Some mn /\ ts_max g = Some mx
    /\ covers g = Ok ((mn <=? mn + timedelta_days 7) && (mn + timedelta_days 1 <=? mx))
    /\ (mn <=? mn + timedelta_days 7) = true.
Proof.
  intros Hlow (t0 & Ht0 & Hroom).
  destruct (ts_min g) as [mn|] eqn:Hmn; [|by destruct g].
  destruct (ts_max g) as [mx|] eqn:Hmx; [|by destruct g].
  exists mn, mx. split; [done|]. split; [done|].
  destruct (ts_min_spec g mn Hmn) as [Hin Hle].
  specialize (Hlow mn Hin). specialize (Hle t0 Ht0).
  assert (H7 : (mn <=? mn + timedelta_days 7) = true).
  { apply Z.leb_le. unfold timedelta_days, ns_per_day, ns_per_second. lia. }
  split; [|done]. unfold covers, ts_add. rewrite Hmn, Hmx.
  assert (Hw : (ts_lowest <=? mn + timedelta_days 7) && (mn + timedelta_days 7 <=? ts_highest) = true).
  { apply andb_true_iff. unfold timedelta_days, ns_per_day, ns_per_second, ts_lowest, ts_highest in *. split; apply Z.leb_le; lia. }
  assert (Hd : (ts_lowest <=? mn + timedelta_days 1) && (mn + timedelta_days 1 <=? ts_highest) = true).
  { apply andb_true_iff. unfold timedelta_days, ns_per_day, ns_per_second, ts_lowest, ts_highest in *. split; apply Z.leb_le; lia. }
  rewrite Hw. rewrite bind_Ok. cbv beta. cbn [ts_le]. rewrite H7, Hd. rewrite bind_Ok.
  reflexivity.
Qed.

(** When the least timestamp of a group leaves no room for seven days,
    the first clause of the predicate raises. *)
Lemma covers_out_of_range g :
  g <> [] ->
  (forall t, In t g -> ts_highest < t + timedelta_days 7) ->
  covers g = Raise OutOfBoundsDatetime.
Proof.
  intros Hg Hrange.
  destruct (ts_min g) as [mn|] eqn:Hmn; [|by destruct g].
  destruct (ts_min_spec g mn Hmn) as [Hin _]. specialize (Hrange mn Hin).
  unfold covers, ts_add. rewrite Hmn.
  replace (mn + timedelta_days 7 <=? ts_highest) with false; [by rewrite andb_false_r|].
  symmetry. apply Z.leb_gt. lia.
Qed.

Lemma time_check_run parse (df : gmap string column) ts stamps ids ids2 :
  df !! "timestamp"%string = Some ts ->
  to_datetime parse ts = Ok stamps ->
  df !! "id"%string = Some (ColInt ids) ->
  df !! "id_2"%string = Some (ColInt ids2) ->
  run (time_check parse) df
  = (rmapM (fun entry => b ← entry.2; Ok (entry.1, b))
           (groupby_apply pair_compare covers (zip (zip ids ids2) stamps)),
     <["timestamp"%string := ColDatetime stamps]> df).
Proof.
  intros Hts Hstamps Hid Hid2. unfold time_check.
  run_getitem_step. run_lift_step Hstamps. run_setitem_step.
  run_getitem_step. rewrite run_bind, run_lift. cbn [as_ints]. cbv beta iota.
  run_getitem_step. rewrite run_bind, run_lift. cbn [as_ints]. cbv beta iota.
  run_getitem_step. rewrite run_bind, run_lift. cbn [as_datetimes]. cbv beta iota.
  apply run_lift.
Qed.

(** C3 (as the code has it). On a frame with integer [id] and [id_2]
    and a [timestamp] column that converts to timestamps: when every
    (id, id_2) pair has a record whose timestamp leaves room for seven
    days before the greatest timestamp, the call returns one boolean
    per pair of the records, in ascending order of the pairs; the
    boolean of a pair is the literal predicate on the least and the
    greatest timestamp of the records of that pair, whose first clause
    is then true, so that it is the second clause, greatest >= least +
    1 day. When some pair has no such record, the first clause raises
    [OutOfBoundsDatetime] and so does the call. In both cases the
    [timestamp] column of the caller's frame has been converted. *)
Theorem time_check_literal_predicate parse (df : gmap string column)
    ts stamps ids ids2 :
  df !! "timestamp"%string = Some ts ->
  to_datetime parse ts = Ok stamps ->
  df !! "id"%string = Some (ColInt ids) ->
  df !! "id_2"%string = Some (ColInt ids2) ->
  (forall t, In t stamps -> ts_lowest <= t <= ts_highest) ->
  let rows := zip (zip ids ids2) stamps in
  let week := timedelta_days 7 in
  let day := timedelta_days 1 in
  ((forall k, In k (map fst rows) ->
               exists t, In (k, t) rows /\ t + week <= ts_highest) ->
   exists series,
     run (time_check parse) df
     = (Ok series, <["timestamp"%string := ColDatetime stamps]> df)
     /\ NoDup (map fst series)
     /\ StronglySorted pair_lt (map fst series)
     /\ (forall k, In k (map fst series) <-> In k (map fst rows))
     /\ forall k b, In (k, b) series ->
          exists mn mx,
            In (k, mn) rows /\ In (k, mx) rows
            /\ (forall t, In (k, t) rows -> mn <= t <= mx)
            /\ b = ((mn <=? mn + week) && (mn + day <=? mx))
            /\ (mn <=? mn + week) = true
            /\ b = (mn + day <=? mx))
  /\ ((exists k, In k (map fst rows)
                 /\ forall t, In (k, t) rows -> ts_highest < t + week) ->
      run (time_check parse) df
      = (Raise OutOfBoundsDatetime, <["timestamp"%string := ColDatetime stamps]> df)).
Proof.
  intros Hts Hstamps Hid Hid2 Hrange rows week day.
  rewrite (time_check_run parse df ts stamps ids ids2 Hts Hstamps Hid Hid2). fold rows.
  assert (Hstamp : forall k t, In (k, t) rows -> In t stamps).
  { intros k t Hin%list_elem_of_In. apply list_elem_of_In.
    by apply elem_of_zip_r in Hin. }
  pose proof (group_keys_ascending pair_compare pair_compare_eq
                pair_compare_lt_trans pair_compare_gt_lt (map fst rows)) as Hasc.
  split.
  - intros Hweek.
    set (lit := fun g : list Z =>
           match ts_min g, ts_max g with
           | Some mn, Some mx => (mn <=? mn + week) && (mn + day <=? mx)
           | _, _ => false
           end).
    assert (Hcov : forall k, In k (group_keys pair_compare (map fst rows)) ->
              exists mn mx,
                ts_min (group_values pair_compare k rows) = Some mn
                /\ ts_max (group_values pair_compare k rows) = Some mx
                /\ covers (group_values pair_compare k rows)
                   = Ok ((mn <=? mn + week) && (mn + day <=? mx))
                /\ (mn <=? mn + week) = true).
    { intros k Hk. apply (proj1 (group_keys_In _ pair_compare_eq _ _)) in Hk.
      apply covers_in_range.
      - intros t Ht%group_values_pair. by apply Hrange, (Hstamp k).
      - destruct (Hweek k Hk) as (t & Ht & Hroom).
        exists t. split; [by apply group_values_pair | done]. }
    exists (map (fun k => (k, lit (group_values pair_compare k rows)))
                (group_keys pair_compare (map fst rows))).
    split; [f_equal|].
    { unfold groupby_apply. rewrite rmapM_map. apply rmapM_ok.
      intros k Hk. cbn [fst snd].
      destruct (Hcov k Hk) as (mn & mx & Hmn & Hmx & -> & _).
      rewrite bind_Ok. unfold lit. by rewrite Hmn, Hmx. }
    rewrite map_map. cbn [fst]. rewrite map_id.
    split; [by eapply ascending_NoDup; [apply pair_compare_eq|]|].
    split.
    { clear -Hasc. induction Hasc as [|k ks Hks IH Hk]; constructor; [done|].
      eapply List.Forall_impl; [|exact Hk]. intros a. apply pair_compare_lt. }
    split; [intros k; by apply group_keys_In, pair_compare_eq|].
    intros k b ([k' ?] & [= -> <-] & Hk)%in_map_iff.
    destruct (Hcov k Hk) as (mn & mx & Hmn & Hmx & _ & H7).
    destruct (ts_min_spec _ _ Hmn) as [Hmin Hle].
    destruct (ts_max_spec _ _ Hmx) as [Hmax Hge].
    exists mn, mx. rewrite <- !group_values_pair.
    split; [done|]. split; [done|].
    split.
    { intros t Ht. apply (proj2 (group_values_pair k t rows)) in Ht.
      split; [by apply Hle | by apply Hge]. }
    unfold lit. rewrite Hmn, Hmx. split; [done|]. split; [done|]. by rewrite H7.
  - intros (k & Hk & Hlate). f_equal. apply rmapM_raise.
    + intros [k' r] e Hin. cbn [fst snd].
      apply (groupby_apply_In _ pair_compare_eq) in Hin as [_ ->].
      destruct (covers _) as [b|e'] eqn:Hc; [done|].
      intros [= <-]. by apply covers_raises in Hc.
    + exists (k, covers (group_values pair_compare k rows)), OutOfBoundsDatetime.
      split; [by apply (groupby_apply_In _ pair_compare_eq)|]. cbn [fst snd].
      rewrite covers_out_of_range; [done| |].
      * by apply group_values_nonempty; [apply pair_compare_eq|].
      * intros t Ht%group_values_pair. by apply Hlate.
Qed.

Lemma time_check_literal_predicate_witness :
  let rows := zip (zip [1; 1; 2; 1; 2] [-1; -1; 3; 5; 3])
                  [0; 86400000000000; 5; 7; 86400000000004] in
  let week := timedelta_days 7 in
  let day := timedelta_days 1 in
  exists series,
    run (time_check (fun _ => Raise ValueError)) timed_frame
    = (Ok series,
       <["timestamp"%string := ColDatetime [0; 86400000000000; 5; 7; 86400000000004]]>
         timed_frame)
    /\ NoDup (map fst series)
    /\ StronglySorted pair_lt (map fst series)
    /\ (forall k, In k (map fst series) <-> In k (map fst rows))
    /\ forall k b, In (k, b) series ->
         exists mn mx,
           In (k, mn) rows /\ In (k, mx) rows
           /\ (forall t, In (k, t) rows -> mn <= t <= mx)
           /\ b = ((mn <=? mn + week) && (mn + day <=? mx))
           /\ (mn <=? mn + week) = true
           /\ b = (mn + day <=? mx).
Proof.
  refine (proj1 (time_check_literal_predicate (fun _ => Raise ValueError) timed_frame
           (ColDatetime [0; 86400000000000; 5; 7; 86400000000004])
           [0; 86400000000000; 5; 7; 86400000000004]
           [1; 1; 2; 1; 2] [-1; -1; 3; 5; 3] eq_refl eq_refl eq_refl eq_refl _) _).
  - intros t Hin. cbn in Hin. unfold ts_lowest, ts_highest. lia.
  - intros k Hin. cbn in Hin.
    assert (Hk : k = (1, -1) \/ k = (2, 3) \/ k = (1, 5)) by intuition congruence.
    destruct Hk as [-> | [-> | ->]];
      [exists 0 | exists 5 | exists 7]; (split; [cbn; tauto | vm_compute; discriminate]).
Defined.

Example time_check_ex :
  (run (time_check (fun _ => Raise ValueError)) timed_frame).1
  = Ok [((1, -1), true); ((1, 5), false); ((2, 3), false)].
Proof. vm_compute. reflexivity. Qed.

(** C3 as stated fails: the first clause is not true of every group.
    For a group whose least timestamp is less than seven days before
    the greatest timestamp, it raises, and the call returns no
    boolean. *)
Lemma time_check_raises_near_highest :
  late_frame !! "timestamp"%string = Some (ColDatetime [0; 5; ts_highest - timedelta_days 1])
  /\ ts_lowest <= ts_highest - timedelta_days 1 <= ts_highest
  /\ (run (time_check (fun _ => Raise ValueError)) late_frame).1
     = Raise OutOfBoundsDatetime.
Proof. split; [reflexivity|]. split; [vm_compute; split; discriminate|]. vm_compute. reflexivity. Qed.

(** ** ThresholdFilter *)

Lemma same_key_Z (a b : Z) : same_key Z.compare a b = (a =? b).
Proof.
  unfold same_key. destruct (Z.compare_spec a b), (Z.eqb_spec a b); try done; lia.
Qed.

(** Masking the distances by [id_start == reference_id] selects the
    distances of the group of [reference_id]. *)
Lemma select_mask_group {V} (reference_id : Z) (ids : list Z) (l : list V) :
  select_mask (map (fun i => i =? reference_id) ids) l
  = group_values Z.compare reference_id (zip ids l).
Proof.
  unfold select_mask, group_values. revert l.
  induction ids as [|i ids IH]; intros [|x l]; simpl; try done.
  rewrite same_key_Z. destruct (i =? reference_id); simpl; by rewrite IH.
Qed.

Lemma find_ids_within_ten_percentage_threshold_run series_mean group_mean reference_id
    (df : gmap string column) ids dist ds :
  df !! "id_start"%string = Some (ColInt ids) ->
  df !! "distance"%string = Some dist ->
  as_floats dist = Ok ds ->
  let rows := zip ids ds in
  let reference_avg := series_mean (group_values Z.compare reference_id rows) in
  let lower_bound := F.mul reference_avg (F.dec 9 10) in
  let upper_bound := F.mul reference_avg (F.dec 11 10) in
  let within :=
    List.filter (fun r => F.geb r.2 lower_bound && F.leb r.2 upper_bound)
                (groupby_apply Z.compare group_mean rows) in
  run (find_ids_within_ten_percentage_threshold series_mean group_mean reference_id) df
  = (Ok (<["id_start"%string := ColInt (map fst within)]>
           (<["distance"%string := ColFloat (map snd within)]> ∅)),
     df).
Proof.
  intros Hids Hdist Hds rows reference_avg lower_bound upper_bound within.
  subst rows reference_avg lower_bound upper_bound within.
  unfold find_ids_within_ten_percentage_threshold.
  run_getitem_step. rewrite run_bind, run_lift. cbn [as_ints]. cbv beta iota.
  run_getitem_step. run_lift_step Hds.
  run_getitem_step. rewrite run_bind, run_lift. cbn [as_ints]. cbv beta iota.
  run_getitem_step. run_lift_step Hds.
  rewrite select_mask_group. apply run_mret.
Qed.

Lemma StronglySorted_filter {A} (R : A -> A -> Prop) (f : A -> bool) l :
  StronglySorted R l -> StronglySorted R (List.filter f l).
Proof.
  induction 1 as [|x l Hl IH Hx]; simpl; [constructor|].
  destruct (f x); [|done]. constructor; [done|].
  apply List.Forall_forall. intros y [Hy _]%filter_In.
  eapply List.Forall_forall in Hx; eauto.
Qed.

Lemma filter_groupby_fst {K V R} cmp (f : list V -> R) (p : R -> bool)
    (rows : list (K * V)) :
  map fst (List.filter (fun r => p r.2) (groupby_apply cmp f rows))
  = List.filter (fun k => p (f (group_values cmp k rows))) (group_keys cmp (map fst rows)).
Proof.
  unfold groupby_apply. induction (group_keys cmp (map fst rows)) as [|k ks IH];
    simpl; [done|].
  destruct (p (f (group_values cmp k rows))); simpl; by rewrite IH.
Qed.

Lemma filter_groupby_snd {K V R} cmp (f : list V -> R) (p : R -> bool)
    (rows : list (K * V)) :
  map snd (List.filter (fun r => p r.2) (groupby_apply cmp f rows))
  = map (fun k => f (group_values cmp k rows))
        (map fst (List.filter (fun r => p r.2) (groupby_apply cmp f rows))).
Proof.
  unfold groupby_apply. induction (group_keys cmp (map fst rows)) as [|k ks IH];
    simpl; [done|].
  destruct (p (f (group_values cmp k rows))); simpl; by rewrite IH.
Qed.

Lemma filter_none {A} (f : A -> bool) (l : list A) :
  (forall x, In x l -> f x = false) -> List.filter f l = [].
Proof.
  induction l as [|a l IH]; intros Hf; simpl; [done|].
  rewrite (Hf a) by (by left). apply IH. intros x Hx. apply Hf. by right.
Qed.

Lemma leb_nan_l x : F.leb F.nan x = false.
Proof. done. Qed.

Lemma leb_nan_r x : F.leb x F.nan = false.
Proof. by destruct x. Qed.

(** The group of an identifier holds the distances of its records, in
    row order. *)
Lemma group_values_distances k (rows : list (Z * spec_float)) :
  group_values Z.compare k rows = distances_of k rows.
Proof.
  unfold group_values. induction rows as [|[k' d] rows IH]; [done|]. cbn [List.filter fst].
  rewrite same_key_Z. cbn [distances_of].
  destruct (Z.eqb_spec k' k) as [->|Hne].
  - rewrite decide_True by done. simpl. by rewrite IH.
  - by rewrite decide_False by done.
Qed.

Lemma find_ids_within_ten_percentage_threshold_groups series_mean group_mean reference_id
    (df : gmap string column) ids dist ds :
  df !! "id_start"%string = Some (ColInt ids) ->
  df !! "distance"%string = Some dist ->
  as_floats dist = Ok ds ->
  let rows := zip ids ds in
  let ref_mean := series_mean (group_values Z.compare reference_id rows) in
  let mean_of k := group_mean (group_values Z.compare k rows) in
  let lower_bound := F.mul ref_mean (F.dec 9 10) in
  let upper_bound := F.mul ref_mean (F.dec 11 10) in
  exists out found means,
    run (find_ids_within_ten_percentage_threshold series_mean group_mean reference_id) df
    = (Ok out, df)
    /\ out = <["id_start"%string := ColInt found]>
               (<["distance"%string := ColFloat means]> ∅)
    /\ StronglySorted Z.lt found
    /\ (forall k, In k found
                  <-> In k (map fst rows)
                      /\ F.leb lower_bound (mean_of k) = true
                      /\ F.leb (mean_of k) upper_bound = true)
    /\ means = map mean_of found
    /\ (series_mean [] = F.nan -> ~ In reference_id (map fst rows) ->
        ref_mean = F.nan /\ found = [] /\ means = []).
Proof.
  intros Hids Hdist Hds rows ref_mean mean_of lower_bound upper_bound.
  pose proof (find_ids_within_ten_percentage_threshold_run series_mean group_mean
                reference_id df ids dist ds Hids Hdist Hds) as Hrun.
  cbv zeta in Hrun. fold rows in Hrun. fold ref_mean in Hrun.
  fold lower_bound in Hrun. fold upper_bound in Hrun.
  set (p := fun a => F.geb a lower_bound && F.leb a upper_bound).
  change (List.filter _ (groupby_apply Z.compare group_mean rows))
    with (List.filter (fun r => p r.2) (groupby_apply Z.compare group_mean rows)) in Hrun.
  do 3 eexists. split; [exact Hrun|]. split; [reflexivity|].
  rewrite filter_groupby_fst.
  assert (Hin : forall k,
    In k (List.filter (fun k => p (mean_of k)) (group_keys Z.compare (map fst rows)))
    <-> In k (map fst rows)
        /\ F.leb lower_bound (mean_of k) = true /\ F.leb (mean_of k) upper_bound = true).
  { intros k. rewrite filter_In, (group_keys_In _ Z.compare_eq_iff).
    unfold p, F.geb, F.leb. rewrite andb_true_iff. tauto. }
  split; [|split; [exact Hin|split]].
  - apply StronglySorted_filter.
    pose proof (group_keys_ascending Z.compare Z.compare_eq_iff Z_compare_lt_trans
                  Z_compare_gt_lt (map fst rows)) as Hasc.
    induction Hasc as [|k ks Hks IH Hk]; constructor; [done|].
    eapply List.Forall_impl; [|exact Hk]. intros a. apply Z.compare_lt_iff.
  - by rewrite filter_groupby_snd, filter_groupby_fst.
  - intros Hnil Href.
    assert (Hmean : ref_mean = F.nan).
    { unfold ref_mean, group_values.
      replace (List.filter _ rows) with (@nil (Z * spec_float)); [done|].
      symmetry. apply filter_none. intros [k v] Hk. simpl.
      rewrite same_key_Z. apply Z.eqb_neq. intros ->. apply Href.
      change reference_id with (reference_id, v).1. by apply in_map. }
    assert (Hfound : List.filter (fun k => p (mean_of k))
                                 (group_keys Z.compare (map fst rows)) = []).
    { apply filter_none. intros k _. unfold p, upper_bound.
      by rewrite Hmean, mul_nan_l, leb_nan_r, andb_false_r. }
    split; [exact Hmean|]. split; [exact Hfound|].
    rewrite filter_groupby_snd, filter_groupby_fst.
    change (List.filter _ (group_keys Z.compare (map fst rows)))
      with (List.filter (fun k => p (mean_of k)) (group_keys Z.compare (map fst rows))).
    by rewrite Hfound.
Qed.

(** C7. On a frame with an integer [id_start] and a numeric [distance]
    the call returns, raising nothing and leaving the frame as it was,
    a frame of two columns: the identifiers, in ascending order, whose
    group mean (the [GroupBy.mean] of the distances of their records)
    lies between 0.9 and 1.1 times the reference mean (the
    [Series.mean] of the distances of the records of the reference
    identifier), bounds included, each with its group mean; when no
    record has the reference identifier and the mean of no value is
    NaN, the reference mean is NaN and the result is empty. *)
Theorem find_ids_within_ten_percentage_threshold_interval series_mean group_mean
    reference_id (df : gmap string column) ids dist ds :
  df !! "id_start"%string = Some (ColInt ids) ->
  df !! "distance"%string = Some dist ->
  as_floats dist = Ok ds ->
  let rows := zip ids ds in
  let ref_mean := series_mean (distances_of reference_id rows) in
  let mean_of k := group_mean (distances_of k rows) in
  let lower_bound := F.mul ref_mean (F.dec 9 10) in
  let upper_bound := F.mul ref_mean (F.dec 11 10) in
  exists out found means,
    run (find_ids_within_ten_percentage_threshold series_mean group_mean reference_id) df
    = (Ok out, df)
    /\ out = <["id_start"%string := ColInt found]>
               (<["distance"%string := ColFloat means]> ∅)
    /\ out !! "id_start"%string = Some (ColInt found)
    /\ out !! "distance"%string = Some (ColFloat means)
    /\ StronglySorted Z.lt found
    /\ (forall k, In k found
                  <-> In k (map fst rows)
                      /\ F.leb lower_bound (mean_of k) = true
                      /\ F.leb (mean_of k) upper_bound = true)
    /\ means = map mean_of found
    /\ (series_mean [] = F.nan -> ~ In reference_id (map fst rows) ->
        ref_mean = F.nan /\ found = [] /\ means = []).
Proof.
  intros Hids Hdist Hds rows ref_mean mean_of lower_bound upper_bound.
  destruct (find_ids_within_ten_percentage_threshold_groups series_mean group_mean
              reference_id df ids dist ds Hids Hdist Hds)
    as (out & found & means & Hrun & Hout & Hsorted & Hin & Hmeans & Hnone).
  fold rows in Hin, Hmeans, Hnone.
  subst ref_mean mean_of lower_bound upper_bound.
  exists out, found, means.
  split; [exact Hrun|]. split; [exact Hout|].
  split; [by rewrite Hout; simplify_map_eq|]. split; [by rewrite Hout; simplify_map_eq|].
  split; [exact Hsorted|]. split; [|split].
  - intros k. rewrite Hin. by rewrite !group_values_distances.
  - rewrite Hmeans. apply map_ext. intros k. by rewrite group_values_distances.
  - rewrite <- group_values_distances. exact Hnone.
Qed.

Lemma find_ids_within_ten_percentage_threshold_interval_witness :
  let rows := zip [3; 1; 2; 1; 3]
                  [F.dec 100 1; F.dec 10 1; F.dec 15 1; F.dec 20 1; F.dec 5 1] in
  let ref_mean := mean_seq (distances_of 1 rows) in
  let mean_of k := mean_rev (distances_of k rows) in
  let lower_bound := F.mul ref_mean (F.dec 9 10) in
  let upper_bound := F.mul ref_mean (F.dec 11 10) in
  exists out found means,
    run (find_ids_within_ten_percentage_threshold mean_seq mean_rev 1) distance_frame
    = (Ok out, distance_frame)
    /\ out = <["id_start"%string := ColInt found]>
               (<["distance"%string := ColFloat means]> ∅)
    /\ out !! "id_start"%string = Some (ColInt found)
    /\ out !! "distance"%string = Some (ColFloat means)
    /\ StronglySorted Z.lt found
    /\ (forall k, In k found
                  <-> In k (map fst rows)
                      /\ F.leb lower_bound (mean_of k) = true
                      /\ F.leb (mean_of k) upper_bound = true)
    /\ means = map mean_of found
    /\ (mean_seq [] = F.nan -> ~ In 1 (map fst rows) ->
        ref_mean = F.nan /\ found = [] /\ means = []).
Proof.
  apply (find_ids_within_ten_percentage_threshold_interval mean_seq mean_rev 1
           distance_frame [3; 1; 2; 1; 3]
           (ColFloat [F.dec 100 1; F.dec 10 1; F.dec 15 1; F.dec 20 1; F.dec 5 1])
           [F.dec 100 1; F.dec 10 1; F.dec 15 1; F.dec 20 1; F.dec 5 1]);
    reflexivity.
Defined.

Example find_ids_within_ten_percentage_threshold_ex :
  (run (find_ids_within_ten_percentage_threshold mean_seq mean_rev 1) distance_frame).1
  = Ok (<["id_start"%string := ColInt [1; 2]]>
          (<["distance"%string := ColFloat [F.dec 15 1; F.dec 15 1]]> ∅)).
Proof. vm_compute. reflexivity. Qed.

Example find_ids_within_ten_percentage_threshold_absent :
  mean_seq [] = F.nan
  /\ (run (find_ids_within_ten_percentage_threshold mean_seq mean_rev 7) distance_frame).1
     = Ok (<["id_start"%string := ColInt []]> (<["distance"%string := ColFloat []]> ∅)).
Proof. split; vm_compute; reflexivity. Qed.

(** The two means are not one function of the values: with a series
    mean and a group mean that differ on the distances of the reference
    identifier, that identifier can be missing from the result. *)
Example find_ids_within_ten_percentage_threshold_reference_excluded :
  mean_seq [F.dec 1 1; F.dec 2 1] <> mean_first [F.dec 1 1; F.dec 2 1]
  /\ (run (find_ids_within_ten_percentage_threshold mean_seq mean_first 1)
          (<["id_start"%string := ColInt [1; 1]]>
             (<["distance"%string := ColFloat [F.dec 1 1; F.dec 2 1]]> ∅))).1
     = Ok (<["id_start"%string := ColInt []]> (<["distance"%string := ColFloat []]> ∅)).
Proof. split; [vm_compute; discriminate | vm_compute; reflexivity]. Qed.

(** ** Effects on the caller's frame *)

Lemma run_select3_missing2 (df : gmap string column) n1 n2 n3 c1 :
  df !! n1 = Some c1 -> df !! n2 = None ->
  run (select [n1; n2; n3]) df = (Raise KeyError, df).
Proof. intros H1 H2. unfold select. simpl. by rewrite H1, H2. Qed.

(** Every way the call can end, with the caller's frame at that point. *)
Lemma calculate_toll_rate_outcome (df : gmap string column) :
  run calculate_toll_rate df
  = match df !! "id_start"%string with
    | None => (Raise KeyError, df)
    | Some ids =>
        let vt := map_dict_values toll_rates ids in
        let df1 := <["vehicle_type"%string := ColFloat vt]> df in
        match df !! "distance"%string with
        | None => (Raise KeyError, df1)
        | Some dist =>
            match as_floats dist with
            | Raise e => (Raise e, df1)
            | Ok ds =>
                let toll := ColFloat (zip_with F.mul ds vt) in
                let df2 := <["toll_rate"%string := toll]> df1 in
                match df !! "id_end"%string with
                | None => (Raise KeyError, df2)
                | Some id_end =>
                    (Ok (<["id_start"%string := ids]>
                           (<["id_end"%string := id_end]>
                              (<["toll_rate"%string := toll]> ∅))), df2)
                end
            end
        end
    end.
Proof.
  destruct (df !! "id_start"%string) as [ids|] eqn:Hids.
  - destruct (df !! "distance"%string) as [dist|] eqn:Hdist.
    + destruct (as_floats dist) as [ds|e] eqn:Hds.
      * destruct (df !! "id_end"%string) as [id_end|] eqn:Hend.
        -- by apply (calculate_toll_rate_run df ids id_end dist ds).
        -- cbv zeta. unfold calculate_toll_rate, map_dict.
           run_getitem_step. run_setitem_step. run_getitem_step. run_getitem_step.
           run_lift_step (col_mul_floats dist (map_dict_values toll_rates ids) ds Hds).
           run_setitem_step.
           apply (run_select3_missing2 _ _ _ _ ids); by simplify_map_eq.
      * cbv zeta. unfold calculate_toll_rate, map_dict.
        run_getitem_step. run_setitem_step. run_getitem_step. run_getitem_step.
        rewrite run_bind, run_lift. unfold col_mul. by rewrite Hds.
    + cbv zeta. unfold calculate_toll_rate, map_dict.
      run_getitem_step. run_setitem_step.
      rewrite run_bind. unfold getitem at 1. simpl.
      by rewrite lookup_insert_ne, Hdist by done.
  - unfold calculate_toll_rate. rewrite run_bind. unfold getitem at 1. simpl.
    by rewrite Hids.
Qed.

(** What a call of [time_check] that returns has found in the frame. *)
Lemma time_check_returns parse (df df' : gmap string column) series :
  run (time_check parse) df = (Ok series, df') ->
  exists ts stamps ids ids2,
    df !! "timestamp"%string = Some ts /\ to_datetime parse ts = Ok stamps
    /\ df !! "id"%string = Some (ColInt ids) /\ df !! "id_2"%string = Some (ColInt ids2).
Proof.
  unfold time_check. rewrite run_bind. unfold getitem at 1. cbn [run].
  destruct (df !! "timestamp"%string) as [ts|] eqn:Hts; [|done]. cbn [of_option].
  rewrite run_bind, run_lift.
  destruct (to_datetime parse ts) as [stamps|e] eqn:Hstamps; [|done].
  run_setitem_step. rewrite run_bind. unfold getitem at 1. cbn [run].
  rewrite lookup_insert_ne by done.
  destruct (df !! "id"%string) as [id|] eqn:Hid; [|done]. cbn [of_option].
  rewrite run_bind, run_lift.
  destruct id as [ids| | | |]; try done. cbn [as_ints].
  rewrite run_bind. unfold getitem at 1. cbn [run].
  rewrite lookup_insert_ne by done.
  destruct (df !! "id_2"%string) as [id_2|] eqn:Hid2; [|done]. cbn [of_option].
  rewrite run_bind, run_lift.
  destruct id_2 as [ids2| | | |]; try done.
  intros _. by exists ts, stamps, ids, ids2.
Qed.

(** What a call of [calculate_time_based_toll_rates] that returns has
    found in the frame. *)
Lemma calculate_time_based_toll_rates_returns parse (df df' out : gmap string column) :
  run (calculate_time_based_toll_rates parse) df = (Ok out, df') ->
  exists ts stamps id_start id_end,
    df !! "timestamp"%string = Some ts /\ to_datetime parse ts = Ok stamps
    /\ df !! "id_start"%string = Some id_start /\ df !! "id_end"%string = Some id_end.
Proof.
  unfold calculate_time_based_toll_rates. rewrite run_bind. unfold getitem at 1. cbn [run].
  destruct (df !! "timestamp"%string) as [ts|] eqn:Hts; [|done]. cbn [of_option].
  rewrite run_bind, run_lift.
  destruct (to_datetime parse ts) as [stamps|e] eqn:Hstamps; [|done].
  run_setitem_step. run_getitem_step.
  rewrite run_bind, run_lift. cbn [as_times]. cbv beta iota.
  rewrite run_bind, run_lift.
  rewrite (rmapM_ok _ first_boundary_rate) by (intros; apply first_rate_boundaries).
  cbv beta iota. run_setitem_step.
  unfold select. cbn [run rmapM].
  rewrite !(lookup_insert_ne _ _ "id_start"%string) by done.
  rewrite !(lookup_insert_ne _ _ "id_end"%string) by done.
  destruct (df !! "id_start"%string) as [id_start|] eqn:Hstart; [|done].
  destruct (df !! "id_end"%string) as [id_end|] eqn:Hend; [|done].
  intros _. by exists ts, stamps, id_start, id_end.
Qed.

Lemma map_dict_values_rows ids :
  length (map_dict_values toll_rates ids) = col_length ids
  /\ forall i, (i < col_length ids)%nat ->
       map_dict_values toll_rates ids !! i = Some (default F.nan (row_multiplier ids i)).
Proof.
  split.
  - destruct ids; simpl; by rewrite ?length_map, ?length_replicate.
  - intros i Hi.
    destruct ids as [l|l|l|l|l]; cbn [map_dict_values row_multiplier col_length] in *;
      try (by rewrite (proj2 (lookup_replicate _ _ _ _) (conj eq_refl Hi))).
    rewrite lookup_map. destruct (lookup_lt_is_Some_2 l i Hi) as [s Hs]. rewrite Hs.
    cbn [fmap option_fmap option_map mbind option_bind].
    by rewrite toll_rates_multiplier.
Qed.



(** A [timestamp] column of strings is replaced by the parsed
    timestamps in the caller's frame. *)
Lemma time_check_replaces_timestamp parse (df : gmap string column) l stamps ids ids2 :
  df !! "timestamp"%string = Some (ColStr l) ->
  rmapM parse l = Ok stamps ->
  df !! "id"%string = Some (ColInt ids) ->
  df !! "id_2"%string = Some (ColInt ids2) ->
  (run (time_check parse) df).2 !! "timestamp"%string = Some (ColDatetime stamps).
Proof.
  intros Hts Hstamps Hid Hid2.
  rewrite (time_check_run parse df (ColStr l) stamps ids ids2); try done.
  by simplify_map_eq.
Qed.

(** ** Literals *)

(** The decimal literals of the sources as binary64 values:
    mantissa times a power of two. *)
Example float_literals :
  F.dec 5 10 = S754_finite false 4503599627370496 (-53)
  /\ F.dec 9 10 = S754_finite false 8106479329266893 (-53)
  /\ F.dec 10 10 = S754_finite false 4503599627370496 (-52)
  /\ F.dec 11 10 = S754_finite false 4953959590107546 (-52)
  /\ F.dec 12 10 = S754_finite false 5404319552844595 (-52)
  /\ F.dec 15 10 = S754_finite false 6755399441055744 (-52)
  /\ F.dec 20 10 = S754_finite false 4503599627370496 (-51).
Proof. repeat split; vm_compute; reflexivity. Qed.

(** * Further properties *)

(** ** ListReverser: chunks *)

Section ListReverserChunks.
Context {A : Type}.
Implicit Types (lst : list A) (n : Z).

(** The chunks of size [m] of [lst], each reversed, for [c] chunks. *)
Lemma reversed_chunks_step (m c : nat) lst :
  flat_map (fun k => rev (firstn m (skipn (k * m) lst))) (seq 0 (S c))
  = rev (firstn m lst)
    ++ flat_map (fun k => rev (firstn m (skipn (k * m) (skipn m lst)))) (seq 0 c).
Proof.
  cbn [seq flat_map]. simpl skipn. f_equal.
  rewrite <- seq_shift, flat_map_concat_map, map_map, <- flat_map_concat_map.
  apply flat_map_ext. intros k. simpl. by rewrite Nat.add_comm, <- skipn_skipn.
Qed.

Lemma reversed_chunks_nil (m c : nat) :
  flat_map (fun k => rev (firstn m (skipn (k * m) (@nil A)))) (seq 0 c) = [].
Proof.
  induction (seq 0 c) as [|k ks IH]; [done|]. simpl.
  by rewrite skipn_nil, firstn_nil, IH.
Qed.

Lemma reverse_by_n_elements_chunks lst n :
  1 <= n ->
  reverse_by_n_elements lst n
  = Ok (flat_map (fun k => rev (firstn (Z.to_nat n) (skipn (k * Z.to_nat n) lst)))
                 (seq 0 (Z.to_nat ((Z.of_nat (length lst) + n - 1) / n)))).
Proof.
  intros Hn. unfold reverse_by_n_elements.
  rewrite range_positive_step by lia. cbn [mbind result_bind rbind]. f_equal.
  rewrite flat_map_concat_map, map_map, <- flat_map_concat_map.
  apply flat_map_ext. intros k. rewrite <- slice_chunk.
  by rewrite Z2Nat.id by lia.
Qed.

Lemma chunk_count_covers (len : nat) n :
  1 <= n ->
  (len <= Z.to_nat ((Z.of_nat len + n - 1) / n) * Z.to_nat n)%nat.
Proof.
  intros Hn.
  assert (Z.of_nat len <= (Z.of_nat len + n - 1) / n * n).
  { pose proof (Z.mod_pos_bound (Z.of_nat len + n - 1) n ltac:(lia)).
    pose proof (Z.div_mod (Z.of_nat len + n - 1) n ltac:(lia)). lia. }
  assert (0 <= (Z.of_nat len + n - 1) / n) by (apply Z.div_pos; lia).
  nia.
Qed.

(** Reversing the chunks of the reversed chunks gives the list back. *)
Lemma reversed_chunks_twice (m : nat) : forall (c : nat) lst,
  (0 < m)%nat -> (length lst <= c * m)%nat ->
  flat_map (fun k => rev (firstn m (skipn (k * m)
      (flat_map (fun k => rev (firstn m (skipn (k * m) lst))) (seq 0 c)))))
    (seq 0 c)
  = lst.
Proof.
  induction c as [|c IH]; intros lst Hm Hlen.
  - destruct lst; [done | simpl in Hlen; lia].
  - rewrite (reversed_chunks_step m c lst).
    set (rest := flat_map _ (seq 0 c)).
    rewrite reversed_chunks_step.
    destruct (Nat.le_gt_cases m (length lst)) as [Hge|Hlt].
    + assert (Hl : length (rev (firstn m lst)) = m).
      { rewrite length_rev, length_firstn. lia. }
      rewrite (take_app_length' _ _ m) by done.
      rewrite (drop_app_length' _ _ m) by done.
      rewrite rev_involutive.
      subst rest. rewrite IH; [apply firstn_skipn | done |].
      rewrite length_skipn. lia.
    + subst rest. rewrite (skipn_all2 lst) by lia.
      rewrite reversed_chunks_nil, app_nil_r.
      rewrite (firstn_all2 lst) by lia.
      rewrite (firstn_all2 (rev lst)) by (rewrite length_rev; lia).
      rewrite rev_involutive.
      rewrite (skipn_all2 (rev lst)) by (rewrite length_rev; lia).
      by rewrite reversed_chunks_nil, app_nil_r.
Qed.

Lemma reversed_chunks_length (m : nat) : forall (c : nat) lst,
  (length lst <= c * m)%nat ->
  length (flat_map (fun k => rev (firstn m (skipn (k * m) lst))) (seq 0 c))
  = length lst.
Proof.
  intros c lst Hlen. apply Permutation_length.
  apply (chunks_permutation m (@rev A)); [|done].
  intros l. symmetry. apply Permutation_rev.
Qed.

(** X1. For a chunk size [n >= 1], reversing by chunks twice gives the
    list back, also when the last chunk is shorter than [n]. *)
Theorem reverse_by_n_elements_involutive lst n :
  1 <= n ->
  reverse_by_n_elements lst n ≫= (fun out => reverse_by_n_elements out n) = Ok lst.
Proof.
  intros Hn. rewrite reverse_by_n_elements_chunks by done. rewrite bind_Ok.
  rewrite reverse_by_n_elements_chunks by done.
  pose proof (chunk_count_covers (length lst) n Hn) as Hc.
  rewrite reversed_chunks_length by done.
  f_equal. apply reversed_chunks_twice; [lia | done].
Qed.

(** X2. A chunk size that is at least the length of the list (and at
    least 1) reverses the whole list. *)
Theorem reverse_by_n_elements_whole lst n :
  1 <= n -> Z.of_nat (length lst) <= n ->
  reverse_by_n_elements lst n = Ok (rev lst).
Proof.
  intros Hn Hlen. rewrite reverse_by_n_elements_chunks by done. f_equal.
  destruct lst as [|x lst].
  - by rewrite reversed_chunks_nil.
  - assert (Hc : (Z.of_nat (length (x :: lst)) + n - 1) / n = 1).
    { symmetry. apply (Z.div_unique _ _ 1 (Z.of_nat (length (x :: lst)) - 1)).
      - simpl length in *. lia.
      - lia. }
    rewrite Hc. change (Z.to_nat 1) with 1%nat.
    cbn [seq flat_map]. rewrite app_nil_r. simpl skipn.
    by rewrite firstn_all2 by lia.
Qed.

End ListReverserChunks.

Lemma reverse_by_n_elements_involutive_witness :
  reverse_by_n_elements [1; 2; 3; 4; 5; 6; 7; 8] 3
    ≫= (fun out => reverse_by_n_elements out 3)
  = Ok [1; 2; 3; 4; 5; 6; 7; 8].
Proof. apply (reverse_by_n_elements_involutive [1; 2; 3; 4; 5; 6; 7; 8] 3). lia. Defined.

Lemma reverse_by_n_elements_whole_witness :
  reverse_by_n_elements [1; 2; 3] 5 = Ok [3; 2; 1].
Proof. apply (reverse_by_n_elements_whole [1; 2; 3] 5); simpl; lia. Defined.

(** ** LengthGrouper: order of the keys *)

Lemma first_seen_In x l : In x (first_seen l) <-> In x l.
Proof.
  induction l as [|a l IH]; simpl; [done|].
  rewrite filter_In, IH. destruct (Nat.eqb_spec x a); simpl.
  - intuition.
  - split; [intuition|]. intros [?|?]; [congruence | by right].
Qed.

Lemma first_seen_snoc l x :
  first_seen (l ++ [x])
  = if existsb (Nat.eqb x) l then first_seen l else first_seen l ++ [x].
Proof.
  induction l as [|a l IH]; simpl; [done|].
  rewrite IH. destruct (Nat.eqb_spec x a) as [->|Hne]; simpl.
  - destruct (existsb (Nat.eqb a) l); [done|].
    rewrite List.filter_app. simpl. by rewrite Nat.eqb_refl, app_nil_r.
  - destruct (existsb (Nat.eqb x) l); [done|].
    rewrite List.filter_app. simpl.
    destruct (Nat.eqb_spec x a); [done|]. done.
Qed.

Lemma group_by_length_body_keys (grouped grouped' : list (nat * list string)) s :
  group_by_length_body grouped s = Ok grouped' ->
  PyDict.keys grouped'
  = if existsb (Nat.eqb (String.length s)) (PyDict.keys grouped)
    then PyDict.keys grouped
    else PyDict.keys grouped ++ [String.length s].
Proof.
  unfold group_by_length_body, PyDict.contains.
  set (len := String.length s).
  destruct (PyDict.get len grouped) as [bucket|] eqn:Hlen; cbn [negb].
  - unfold PyDict.getitem. rewrite Hlen. cbn. intros [= <-].
    rewrite dict_keys_set_present by (by rewrite Hlen).
    replace (existsb (Nat.eqb len) (PyDict.keys grouped)) with true; [done|].
    symmetry. apply existsb_exists. exists len. split; [|apply Nat.eqb_refl].
    apply dict_get_In in Hlen. change len with (len, bucket).1. by apply in_map.
  - unfold PyDict.getitem. rewrite dict_get_set_eq. cbn. intros [= <-].
    rewrite dict_keys_set_present by (rewrite dict_get_set_eq; eauto).
    rewrite dict_keys_set_absent by done.
    replace (existsb (Nat.eqb len) (PyDict.keys grouped)) with false; [done|].
    symmetry. apply not_true_is_false. intros (k & Hk & ->%Nat.eqb_eq)%existsb_exists.
    by apply (dict_get_None_keys _ _ Hlen).
Qed.

(** X3. The keys of the result are the lengths of the input strings,
    each once, in the order in which the lengths first occur. *)
Theorem group_by_length_key_order (lst : list string) :
  exists grouped,
    group_by_length lst = Ok grouped
    /\ PyDict.keys grouped = first_seen (map String.length lst).
Proof.
  assert (Hloop : forall l pre grouped,
    grouped_inv pre grouped ->
    PyDict.keys grouped = first_seen (map String.length pre) ->
    exists grouped',
      rfold group_by_length_body grouped l = Ok grouped'
      /\ PyDict.keys grouped' = first_seen (map String.length (pre ++ l))).
  { induction l as [|s l IH]; intros pre grouped Hinv Hkeys; simpl.
    - exists grouped. by rewrite app_nil_r.
    - destruct (group_by_length_body_inv pre grouped s Hinv) as (g1 & Hg1 & Hinv1).
      rewrite Hg1. cbn.
      destruct (IH (pre ++ [s]) g1 Hinv1) as (g2 & Hg2 & Hk2).
      + rewrite (group_by_length_body_keys _ _ _ Hg1), map_app. simpl.
        rewrite first_seen_snoc, Hkeys.
        replace (existsb (Nat.eqb (String.length s)) (first_seen (map String.length pre)))
          with (existsb (Nat.eqb (String.length s)) (map String.length pre)); [done|].
        apply eq_true_iff_eq. rewrite !existsb_exists.
        split; intros (k & Hk & Heq); exists k; (split; [|done]);
          by apply first_seen_In.
      + exists g2. split; [done|]. by rewrite <- app_assoc in Hk2. }
  apply (Hloop lst [] []); [|done].
  split; [constructor|]. split; [intros k; reflexivity | reflexivity].
Qed.

(** ** MatrixRotator: rows of any length *)

Section ZipStar.
Context {A : Type}.
Implicit Types (rows : list (list A)).

(** [zip_star] has a column [i] exactly when there is a row and every
    row has an element [i]. *)
Lemma zip_star_length rows i :
  (i < length (Py.zip_star rows))%nat
  <-> rows <> [] /\ List.Forall (fun r => (i < length r)%nat) rows.
Proof.
  induction rows as [|r rows IH]; [simpl; split; [lia | by intros [? _]]|].
  destruct rows as [|r2 rows].
  - cbn [Py.zip_star]. rewrite length_map. split.
    + intros Hi. split; [done | by repeat constructor].
    + intros [_ Hall]. by inversion Hall.
  - change (Py.zip_star (r :: r2 :: rows))
      with (zip_with cons r (Py.zip_star (r2 :: rows))).
    rewrite length_zip_with. split.
    + intros Hi. split; [done|]. constructor; [lia|]. apply IH. lia.
    + intros [_ Hall]. inversion Hall as [|? ? Hr Hrest]; subst.
      assert (i < length (Py.zip_star (r2 :: rows)))%nat by (by apply IH). lia.
Qed.

(** Column [i] holds the element [i] of every row, in row order. *)
Lemma zip_star_lookup rows i col :
  Py.zip_star rows !! i = Some col ->
  length col = length rows
  /\ forall j r, rows !! j = Some r ->
       exists x, r !! i = Some x /\ col !! j = Some x.
Proof.
  revert col. induction rows as [|r rows IH]; intros col; [done|].
  destruct rows as [|r2 rows].
  - cbn [Py.zip_star]. rewrite lookup_map.
    destruct (r !! i) as [x|] eqn:Hx; [|done]. intros [= <-].
    split; [done|]. intros [|j] r' Hj; simplify_eq/=. by exists x.
  - change (Py.zip_star (r :: r2 :: rows))
      with (zip_with cons r (Py.zip_star (r2 :: rows))).
    rewrite lookup_zip_with.
    destruct (r !! i) as [x|] eqn:Hx; [|done]. cbn -[Py.zip_star].
    destruct (Py.zip_star (r2 :: rows) !! i) as [col'|] eqn:Hcol; [|done].
    cbn -[Py.zip_star]. intros [= <-].
    destruct (IH col' eq_refl) as [Hlen Hcell].
    split; [simpl; by rewrite Hlen|].
    intros [|j] r' Hj; simplify_eq/=; [by exists x | by apply Hcell].
Qed.

End ZipStar.

(** X4. The call returns on every list of rows, ragged or empty: the
    result has a row [i] exactly when the input has a row and every
    input row has an element [i], its rows have as many cells as the
    input has rows, and the cell (i, j) is the element [i] of the input
    row [j] counted from the last, times [i + j]. *)
Theorem rotate_and_multiply_matrix_total (matrix : list (list Z)) :
  exists out,
    rotate_and_multiply_matrix matrix = Ok out
    /\ (forall i, (i < length out)%nat
                  <-> matrix <> [] /\ List.Forall (fun r => (i < length r)%nat) matrix)
    /\ List.Forall (fun r => length r = length matrix) out
    /\ forall i j, (i < length out)%nat -> (j < length matrix)%nat ->
         exists x,
           matrix !! (length matrix - 1 - j)%nat ≫= (.!! i) = Some x
           /\ out !! i ≫= (.!! j) = Some (x * (Z.of_nat i + Z.of_nat j)).
Proof.
  unfold rotate_and_multiply_matrix.
  set (rotated := Py.zip_star (rev matrix)).
  set (n := length matrix).
  assert (Hcols : forall i, (i < length rotated)%nat ->
    exists col, rotated !! i = Some col /\ length col = n
      /\ forall j, (j < n)%nat ->
           exists x, col !! j = Some x
                     /\ matrix !! (n - 1 - j)%nat ≫= (.!! i) = Some x).
  { intros i Hi. destruct (lookup_lt_is_Some_2 rotated i Hi) as [col Hcol].
    destruct (zip_star_lookup _ _ _ Hcol) as [Hlen Hcell].
    rewrite length_rev in Hlen. exists col. split; [done|]. split; [done|].
    intros j Hj. destruct (lookup_lt_is_Some_2 matrix (n - 1 - j)) as [r Hr]; [lia|].
    destruct (Hcell j r) as (x & Hx & Hc).
    { rewrite rev_reverse, reverse_lookup by (fold n; lia).
      rewrite <- Hr. f_equal. fold n. lia. }
    exists x. split; [done|]. by rewrite Hr. }
  set (cell := fun i j : nat => nth j (nth i rotated []) 0 * (Z.of_nat i + Z.of_nat j)).
  exists (map (fun i => map (cell i) (seq 0 n)) (seq 0 (length rotated))).
  split; [|split; [|split]].
  - apply rmapM_ok. intros i Hi%in_seq.
    destruct (Hcols 0%nat) as (row0 & Hrow0 & Hlen0 & _); [lia|].
    cbv beta. rewrite (index_lookup _ _ _ Hrow0), bind_Ok. cbv beta. rewrite Hlen0.
    erewrite rmapM_ok; [reflexivity|]. intros j Hj%in_seq.
    destruct (Hcols i) as (col & Hcol & _ & Hcell); [lia|].
    destruct (Hcell j) as (x & Hx & _); [lia|].
    cbv beta. rewrite (index_lookup _ _ _ Hcol), bind_Ok. cbv beta.
    rewrite (index_lookup _ _ _ Hx), bind_Ok.
    unfold cell.
    by rewrite (nth_lookup_Some _ _ [] _ Hcol), (nth_lookup_Some _ _ 0 _ Hx).
  - intros i. rewrite length_map, length_seq. unfold rotated.
    rewrite zip_star_length. split; intros [Hne Hall]; split.
    + intros ->. by apply Hne.
    + apply List.Forall_forall. intros r Hr.
      eapply List.Forall_forall in Hall; [exact Hall|]. by apply in_rev in Hr.
    + intros Hnil. apply Hne. apply (f_equal (@rev _)) in Hnil.
      by rewrite rev_involutive in Hnil.
    + apply List.Forall_forall. intros r Hr%in_rev.
      eapply List.Forall_forall in Hall; [exact Hall | done].
  - apply List.Forall_forall. intros r (i & <- & _)%in_map_iff.
    by rewrite length_map, length_seq.
  - intros i j Hi Hj. rewrite length_map, length_seq in Hi.
    destruct (Hcols i Hi) as (col & Hcol & _ & Hcell).
    destruct (Hcell j Hj) as (x & Hx & Hm).
    exists x. split; [exact Hm|].
    rewrite lookup_map, lookup_seq_lt by done.
    cbn [fmap option_fmap option_map mbind option_bind].
    rewrite lookup_map, lookup_seq_lt by done. cbn [fmap option_fmap option_map].
    rewrite !Nat.add_0_l. unfold cell.
    by rewrite (nth_lookup_Some _ _ [] _ Hcol), (nth_lookup_Some _ _ 0 _ Hx).
Qed.

Example rotate_and_multiply_matrix_ragged :
  rotate_and_multiply_matrix [[1; 2; 3]; [4; 5]; [6; 7; 8; 9]]
  = Ok [[0; 4; 2]; [7; 10; 6]].
Proof. reflexivity. Qed.

(** ** TollRateCalculator: failures and repeated calls *)

(** X5. A call that returns can be repeated: on the frame it leaves
    behind, the call returns the same result and leaves the same
    frame. *)
Theorem calculate_toll_rate_idempotent (df df' out : gmap string column) :
  run calculate_toll_rate df = (Ok out, df') ->
  run calculate_toll_rate df' = (Ok out, df').
Proof.
  rewrite calculate_toll_rate_outcome.
  destruct (df !! "id_start"%string) as [ids|] eqn:Hids; [|done].
  destruct (df !! "distance"%string) as [dist|] eqn:Hdist; [|done].
  destruct (as_floats dist) as [ds|e] eqn:Hds; [|done].
  destruct (df !! "id_end"%string) as [id_end|] eqn:Hend; [|done].
  cbv zeta. intros [= <- <-].
  rewrite (calculate_toll_rate_run _ ids id_end dist ds) by (by simplify_map_eq).
  cbv zeta. f_equal. apply map_eq. intros c.
  destruct (decide (c = "toll_rate"%string)) as [->|?]; [by simplify_map_eq|].
  destruct (decide (c = "vehicle_type"%string)) as [->|?]; by simplify_map_eq.
Qed.

Lemma calculate_toll_rate_idempotent_witness :
  let toll := ColFloat [F.dec 97 10; F.mul (F.dec 292 10) (F.dec 15 10); F.nan] in
  let out : gmap string column :=
    <["id_start"%string := ColStr ["car"; "truck"; "1001400"]%string]>
      (<["id_end"%string := ColInt [1001402; 1001404; 1001402]]>
         (<["toll_rate"%string := toll]> ∅)) in
  let df' : gmap string column :=
    <["toll_rate"%string := toll]>
      (<["vehicle_type"%string := ColFloat [F.dec 10 10; F.dec 15 10; F.nan]]> toll_frame) in
  run calculate_toll_rate df' = (Ok out, df').
Proof.
  intros toll out df'.
  apply (calculate_toll_rate_idempotent toll_frame df' out).
  vm_compute. reflexivity.
Defined.

(** X6. When [id_start] is present and [distance] is missing the call
    raises [KeyError] after it has assigned [vehicle_type]: the caller's
    frame keeps the new column. *)
Theorem calculate_toll_rate_missing_distance (df : gmap string column) ids :
  df !! "id_start"%string = Some ids ->
  df !! "distance"%string = None ->
  run calculate_toll_rate df
  = (Raise KeyError, <["vehicle_type"%string := map_dict toll_rates ids]> df).
Proof. intros Hids Hdist. by rewrite calculate_toll_rate_outcome, Hids, Hdist. Qed.

Lemma calculate_toll_rate_missing_distance_witness :
  run calculate_toll_rate timed_frame
  = (Raise KeyError,
     <["vehicle_type"%string := map_dict toll_rates (ColInt [1; 1; 2; 1; 2])]> timed_frame).
Proof.
  apply (calculate_toll_rate_missing_distance timed_frame (ColInt [1; 1; 2; 1; 2]));
    reflexivity.
Defined.

(** ** DictFlattener *)

Lemma nested_induction {V} (P : nested V -> Prop) :
  (forall v, P (Leaf v)) ->
  (forall items, List.Forall (fun kv => P (snd kv)) items -> P (Dict items)) ->
  forall x, P x.
Proof.
  intros HL HD. fix IH 1. intros [v|items]; [apply HL|].
  apply HD. induction items as [|[k x] items IHi]; constructor; [apply IH | exact IHi].
Qed.

Section DictFlattener.
Context {V : Type}.
Implicit Types (flat pairs : list (string * V)) (k sep : string).

Lemma joined_snoc sep path key :
  joined sep (path ++ [key]) = new_key sep (joined sep path) key.
Proof. unfold joined. by rewrite fold_left_app. Qed.

Lemma assign_all_app pairs1 pairs2 flat :
  assign_all (pairs1 ++ pairs2) flat = assign_all pairs2 (assign_all pairs1 flat).
Proof. unfold assign_all. by rewrite fold_left_app. Qed.

(** The traversal assigns the leaves in order under their joined keys. *)
Lemma flatten_value_leaves sep (value : nested V) : forall path flat,
  flatten_value sep value (joined sep path) flat
  = assign_all (map (fun pv => (joined sep (fst pv), snd pv)) (leaves_value value path)) flat.
Proof.
  induction value as [v|items IH] using nested_induction; intros path flat; [done|].
  cbn [flatten_value leaves_value]. revert flat.
  induction IH as [|[key value] items Hvalue _ IHitems]; intros flat; [done|].
  cbn [fold_left flat_map fst snd]. rewrite map_app, assign_all_app.
  rewrite <- joined_snoc, Hvalue. apply IHitems.
Qed.

Lemma flatten_dict_assign_all (nested_dict : list (string * nested V)) sep :
  flatten_dict nested_dict sep = assign_all (dotted sep nested_dict) [].
Proof.
  unfold flatten_dict, flatten, dotted.
  rewrite <- (flatten_value_leaves sep (Dict nested_dict) [] []). done.
Qed.

Lemma assign_all_keys_NoDup pairs : forall flat,
  NoDup (PyDict.keys flat) -> NoDup (PyDict.keys (assign_all pairs flat)).
Proof.
  induction pairs as [|[k v] pairs IH]; intros flat Hnd; [done|].
  cbn. apply IH.
  destruct (PyDict.get k flat) as [v0|] eqn:Hk.
  - rewrite dict_keys_set_present; [done | by rewrite Hk].
  - rewrite dict_keys_set_absent by done.
    apply NoDup_app. split; [done|]. split; [|repeat constructor; by intros ?%elem_of_nil].
    intros x Hx ->%list_elem_of_singleton.
    apply (dict_get_None_keys _ _ Hk). by apply list_elem_of_In.
Qed.

Lemma assign_all_get k pairs : forall flat,
  PyDict.get k (assign_all pairs flat)
  = match last_assigned k pairs with
    | Some v => Some v
    | None => PyDict.get k flat
    end.
Proof.
  unfold last_assigned.
  induction pairs as [|[k' v] pairs IH] using rev_ind; intros flat; [done|].
  rewrite assign_all_app, rev_app_distr. cbn [rev app List.find fst snd assign_all fold_left].
  destruct (String.eqb_spec k' k) as [->|Hne]; cbn [option_map snd].
  - by rewrite dict_get_set_eq.
  - rewrite dict_get_set_ne by done. apply IH.
Qed.

(** Distinct keys are assigned side by side, in order. *)
Lemma assign_all_distinct pairs : forall flat,
  NoDup (PyDict.keys flat ++ map fst pairs) ->
  assign_all pairs flat = flat ++ pairs.
Proof.
  induction pairs as [|[k v] pairs IH]; intros flat Hnd; [by rewrite app_nil_r|].
  cbn [assign_all fold_left fst snd]. fold (assign_all pairs (PyDict.set k v flat)).
  assert (Hset : PyDict.set k v flat = flat ++ [(k, v)]).
  { assert (Hk : ~ In k (PyDict.keys flat)).
    { apply NoDup_app in Hnd as (_ & Hdisj & _). intros Hin%list_elem_of_In.
      apply (Hdisj k Hin). simpl. left. }
    clear -Hk. induction flat as [|[k0 v0] flat IHf]; [done|]. simpl in *.
    destruct (decide (k = k0)) as [->|?]; [tauto|]. f_equal. apply IHf. tauto. }
  rewrite Hset, IH.
  - by rewrite <- app_assoc.
  - unfold PyDict.keys in *. rewrite map_app, <- app_assoc. exact Hnd.
Qed.

Lemma last_assigned_Some k pairs v :
  last_assigned k pairs = Some v -> In (k, v) pairs.
Proof.
  unfold last_assigned.
  destruct (List.find _ (rev pairs)) as [[k' v']|] eqn:Hf; [|done].
  intros [= <-]. apply find_some in Hf as [Hin Heq]. simpl in Heq.
  apply String.eqb_eq in Heq as ->. by apply (proj2 (in_rev _ _)) in Hin.
Qed.

Lemma last_assigned_In k pairs v :
  In (k, v) pairs -> exists v', last_assigned k pairs = Some v'.
Proof.
  intros Hin. unfold last_assigned.
  destruct (List.find _ (rev pairs)) as [[k' v']|] eqn:Hf; [by eexists|].
  exfalso. apply (proj1 (in_rev _ _)) in Hin.
  apply (find_none _ _ Hf (k, v)) in Hin. simpl in Hin.
  by rewrite String.eqb_refl in Hin.
Qed.

Lemma string_app_assoc (a b c : string) :
  ((a ++ b) ++ c)%string = (a ++ b ++ c)%string.
Proof.
  induction a as [|x a IH]; [done|].
  change (String x ((a ++ b) ++ c) = String x (a ++ b ++ c))%string.
  by rewrite IH.
Qed.

Lemma concat_head_app sep (a b : string) (rest : list string) :
  String.concat sep ((a ++ b)%string :: rest) = (a ++ String.concat sep (b :: rest))%string.
Proof.
  destruct rest as [|x rest]; [done|].
  change (String.concat sep ((a ++ b)%string :: x :: rest))
    with ((a ++ b) ++ sep ++ String.concat sep (x :: rest))%string.
  change (String.concat sep (b :: x :: rest))
    with (b ++ sep ++ String.concat sep (x :: rest))%string.
  by rewrite string_app_assoc.
Qed.

Lemma joined_concat sep : forall (rest : list string) (acc : string),
  acc <> ""%string ->
  fold_left (new_key sep) rest acc = String.concat sep (acc :: rest).
Proof.
  induction rest as [|key rest IH]; intros acc Hacc; [done|].
  cbn [fold_left].
  assert (Hnew : new_key sep acc key = (acc ++ sep ++ key)%string).
  { by destruct acc. }
  rewrite Hnew, IH by (by destruct acc).
  rewrite concat_head_app.
  change (String.concat sep (acc :: key :: rest))
    with (acc ++ sep ++ String.concat sep (key :: rest))%string.
  by rewrite concat_head_app.
Qed.

Lemma flatten_dict_get (nested_dict : list (string * nested V)) sep k :
  PyDict.get k (flatten_dict nested_dict sep) = last_assigned k (dotted sep nested_dict).
Proof.
  rewrite flatten_dict_assign_all, assign_all_get. by destruct (last_assigned k _).
Qed.

(** X7. The result is a dictionary (distinct keys) in which a key holds
    the value of the last leaf, in the order of the traversal, whose
    joined path is that key, and is absent when there is no such leaf:
    a later leaf with the same joined path overwrites an earlier one and
    an empty nested dictionary leaves no key. *)
Theorem flatten_dict_lookup (nested_dict : list (string * nested V)) sep k :
  NoDup (PyDict.keys (flatten_dict nested_dict sep))
  /\ PyDict.get k (flatten_dict nested_dict sep)
     = last_assigned k (dotted sep nested_dict).
Proof.
  split; [|apply flatten_dict_get].
  rewrite flatten_dict_assign_all. apply assign_all_keys_NoDup. constructor.
Qed.

(** X8. When the joined paths of the leaves are pairwise distinct the
    result is the list of the leaves under their joined paths, in the
    order of the traversal: nothing is lost. *)
Theorem flatten_dict_distinct (nested_dict : list (string * nested V)) sep :
  NoDup (map fst (dotted sep nested_dict)) ->
  flatten_dict nested_dict sep = dotted sep nested_dict.
Proof.
  intros Hnd. rewrite flatten_dict_assign_all.
  by rewrite assign_all_distinct.
Qed.

(** X9. A leaf reached through a first key that is not the empty string
    is stored under the keys of its path joined by the separator. *)
Theorem flatten_dict_dotted_path (nested_dict : list (string * nested V)) sep
    key rest v :
  In (key :: rest, v) (leaves_value (Dict nested_dict) []) ->
  key <> ""%string ->
  In (String.concat sep (key :: rest)) (PyDict.keys (flatten_dict nested_dict sep)).
Proof.
  intros Hleaf Hkey.
  assert (Hin : In (String.concat sep (key :: rest), v) (dotted sep nested_dict)).
  { unfold dotted. apply in_map_iff. exists (key :: rest, v). split; [|done].
    cbn [fst snd]. f_equal. unfold joined. cbn [fold_left new_key].
    by apply joined_concat. }
  apply last_assigned_In in Hin as [v' Hv'].
  pose proof (flatten_dict_get nested_dict sep (String.concat sep (key :: rest)))
    as Hget.
  rewrite Hv' in Hget. apply dict_get_In in Hget.
  change (String.concat sep (key :: rest))
    with (String.concat sep (key :: rest), v').1. by apply in_map.
Qed.

End DictFlattener.

Lemma flatten_dict_distinct_witness :
  flatten_dict nested_sample "." = dotted "." nested_sample.
Proof.
  apply (flatten_dict_distinct nested_sample "."). vm_compute.
  repeat constructor; rewrite ?list_elem_of_In; simpl; intuition discriminate.
Defined.

Lemma flatten_dict_dotted_path_witness :
  In (String.concat "." ["road"; "lanes"; "left"]%string)
     (PyDict.keys (flatten_dict nested_sample ".")).
Proof.
  apply (flatten_dict_dotted_path nested_sample "." "road" ["lanes"; "left"]%string 2).
  - vm_compute. tauto.
  - discriminate.
Defined.

Example flatten_dict_ex :
  flatten_dict nested_sample "."
  = [("road.name", 1); ("road.lanes.left", 2); ("toll", 3)]%string.
Proof. reflexivity. Qed.

(** A later leaf with the same joined path wins, at the place of the
    first; an empty first key adds no prefix. *)
Example flatten_dict_collision :
  flatten_dict [ ("a.b", Leaf 1); ("a", Dict [("b", Leaf 2)]);
                 ("", Dict [("c", Leaf 3)]) ]%string "."
  = [("a.b", 2); ("c", 3)]%string.
Proof. reflexivity. Qed.

(** ** PermutationGenerator *)

Section Permutations.
Context {A : Type}.
Implicit Types (l r p : list A) (x : A).

Lemma selections_Permutation l x r :
  In (x, r) (selections l) -> Permutation (x :: r) l.
Proof.
  revert x r. induction l as [|a l IH]; intros x r; simpl; [done|].
  intros [[= <- <-]|Hin]; [done|].
  apply in_map_iff in Hin as ([y r'] & [= <- <-] & Hin). simpl.
  rewrite perm_swap. constructor. by apply IH.
Qed.

Lemma selections_In l x : In x l -> exists r, In (x, r) (selections l).
Proof.
  induction l as [|a l IH]; simpl; [done|].
  intros [->|Hin]; [exists l; by left|].
  destruct (IH Hin) as [r Hr]. exists (a :: r). right.
  apply in_map_iff. by exists (x, r).
Qed.

Lemma selections_fst l : map fst (selections l) = l.
Proof.
  induction l as [|a l IH]; simpl; [done|]. f_equal.
  rewrite map_map. simpl. exact IH.
Qed.

Lemma selections_length l x r : In (x, r) (selections l) -> length l = S (length r).
Proof. intros Hin%selections_Permutation%Permutation_length. by simpl in Hin. Qed.

Lemma permutations_upto_sound : forall n l p,
  length l = n -> In p (permutations_upto n l) -> Permutation p l.
Proof.
  induction n as [|n IH]; intros l p Hlen; simpl.
  - destruct l; [|done]. by intros [<-|[]].
  - intros ([x r] & Hsel & Hin)%in_flat_map. simpl in Hin.
    apply in_map_iff in Hin as (p' & <- & Hp').
    rewrite <- (selections_Permutation _ _ _ Hsel). constructor.
    apply IH; [|done]. apply selections_length in Hsel. lia.
Qed.

Lemma permutations_upto_complete : forall n l p,
  length l = n -> Permutation p l -> In p (permutations_upto n l).
Proof.
  induction n as [|n IH]; intros l p Hlen Hperm; simpl.
  - destruct l; [|done]. apply Permutation_nil_r in Hperm as ->. by left.
  - destruct p as [|x p'].
    { apply Permutation_length in Hperm. simpl in Hperm. lia. }
    destruct (selections_In l x) as [r Hsel].
    { apply (Permutation_in x Hperm). by left. }
    apply in_flat_map. exists (x, r). split; [done|]. simpl.
    apply in_map. apply IH.
    + apply selections_length in Hsel. lia.
    + apply selections_Permutation in Hsel.
      apply (Permutation_cons_inv (a := x)). by rewrite Hperm, Hsel.
Qed.

Lemma permutations_In l p : In p (permutations l) <-> Permutation p l.
Proof.
  split; [by apply permutations_upto_sound | by apply permutations_upto_complete].
Qed.

Lemma permutations_upto_length : forall n l,
  length l = n -> length (permutations_upto n l) = fact n.
Proof.
  induction n as [|n IH]; intros l Hlen; [done|].
  cbn [permutations_upto].
  assert (Hblocks : forall sels : list (A * list A),
    (forall s, In s sels -> length (snd s) = n) ->
    length (flat_map (fun s => map (cons (fst s)) (permutations_upto n (snd s))) sels)
    = (length sels * fact n)%nat).
  { induction sels as [|s sels IHs]; intros Hs; [done|].
    cbn [flat_map]. rewrite length_app, length_map, IH, IHs; [simpl; lia | |].
    - intros s' Hs'. apply Hs. by right.
    - apply Hs. by left. }
  rewrite Hblocks.
  - rewrite <- (length_map fst), selections_fst, Hlen. simpl. lia.
  - intros [x r] Hsel. apply selections_length in Hsel. simpl. lia.
Qed.

Lemma NoDup_flat_map_heads (f : A * list A -> list (list A)) (sels : list (A * list A)) :
  NoDup (map fst sels) ->
  (forall s, In s sels -> NoDup (f s)) ->
  (forall s p, In s sels -> In p (f s) -> exists p', p = fst s :: p') ->
  NoDup (flat_map f sels).
Proof.
  induction sels as [|s sels IH]; intros Hnd Hf Hhead; simpl; [constructor|].
  apply NoDup_cons in Hnd as [Hs Hnd].
  apply NoDup_app. split; [apply Hf; by left|]. split.
  - intros p Hp%list_elem_of_In Hp'%list_elem_of_In.
    apply in_flat_map in Hp' as (s' & Hs' & Hp').
    destruct (Hhead s p (or_introl eq_refl) Hp) as [p1 ->].
    destruct (Hhead s' _ (or_intror Hs') Hp') as [p2 [= Heq _]].
    apply Hs. apply list_elem_of_In. rewrite Heq. by apply in_map.
  - apply IH; [done | |].
    + intros s' Hs'. apply Hf. by right.
    + intros s' p Hs' Hp. apply Hhead; [by right | done].
Qed.

Lemma permutations_upto_NoDup : forall n l,
  length l = n -> NoDup l -> NoDup (permutations_upto n l).
Proof.
  induction n as [|n IH]; intros l Hlen Hnd; [repeat constructor; by intros ?%elem_of_nil|].
  cbn [permutations_upto]. apply NoDup_flat_map_heads.
  - by rewrite selections_fst.
  - intros [x r] Hsel. simpl. apply NoDup_fmap_2_strong.
    + intros p1 p2 _ _. by intros [= ->].
    + apply IH.
      * apply selections_length in Hsel. lia.
      * apply selections_Permutation in Hsel. rewrite <- Hsel in Hnd.
        by apply NoDup_cons in Hnd as [_ Hr].
  - intros [x r] p _ (p' & <- & _)%in_map_iff. by exists p'.
Qed.

End Permutations.

Lemma dedup_set_iteration : set_iteration dedup.
Proof.
  intros l. unfold dedup.
  split; [apply NoDup_ListNoDup, NoDup_nodup | intros x; apply nodup_In].
Qed.

(** X10. Whatever the order in which the set yields its elements, the
    result has no duplicate and its elements are exactly the
    rearrangements of [nums]. *)
Theorem unique_permutations_exact set_order (nums : list Z) :
  set_iteration set_order ->
  NoDup (unique_permutations set_order nums)
  /\ forall p, In p (unique_permutations set_order nums) <-> Permutation p nums.
Proof.
  intros Hset. unfold unique_permutations.
  destruct (Hset (permutations nums)) as [Hnd Hin]. split; [exact Hnd|].
  intros p. by rewrite Hin, permutations_In.
Qed.

Lemma unique_permutations_exact_witness :
  NoDup (unique_permutations dedup [1; 1; 2])
  /\ forall p, In p (unique_permutations dedup [1; 1; 2]) <-> Permutation p [1; 1; 2].
Proof. apply (unique_permutations_exact dedup [1; 1; 2]), dedup_set_iteration. Defined.

(** X11. When the elements of [nums] are pairwise distinct the result
    has [n!] elements, [n] the length of [nums]. *)
Theorem unique_permutations_count_distinct set_order (nums : list Z) :
  set_iteration set_order ->
  NoDup nums ->
  length (unique_permutations set_order nums) = fact (length nums).
Proof.
  intros Hset Hnums. unfold unique_permutations.
  destruct (Hset (permutations nums)) as [Hnd Hin].
  rewrite <- (permutations_upto_length (length nums) nums eq_refl).
  apply Permutation_length, NoDup_Permutation; [done | |].
  - by apply permutations_upto_NoDup.
  - intros p. rewrite !list_elem_of_In. apply Hin.
Qed.

Lemma unique_permutations_count_distinct_witness :
  length (unique_permutations dedup [1; 2; 3]) = fact 3.
Proof.
  apply (unique_permutations_count_distinct dedup [1; 2; 3]).
  - apply dedup_set_iteration.
  - repeat constructor; rewrite ?list_elem_of_In; simpl; lia.
Defined.

Example unique_permutations_ex :
  unique_permutations dedup [1; 1; 2] = [[1; 1; 2]; [1; 2; 1]; [2; 1; 1]].
Proof. reflexivity. Qed.

(** ** DistanceMatrixBuilder *)

Lemma unique_In x l : In x (unique l) <-> In x l.
Proof.
  induction l as [|a l IH]; simpl; [done|].
  rewrite filter_In, IH. destruct (Z.eqb_spec x a); simpl.
  - intuition.
  - split; [intuition|]. intros [?|?]; [congruence | by right].
Qed.

Lemma filter_all {A} (f : A -> bool) (l : list A) :
  (forall x, In x l -> f x = true) -> List.filter f l = l.
Proof.
  induction l as [|a l IH]; intros Hf; simpl; [done|].
  rewrite (Hf a) by (by left). f_equal. apply IH. intros x Hx. apply Hf. by right.
Qed.

Lemma unique_NoDup l : NoDup l -> unique l = l.
Proof.
  induction 1 as [|x l Hx Hl IH]; simpl; [done|]. rewrite IH. f_equal.
  apply filter_all. intros y Hy. apply negb_true_iff, Z.eqb_neq. intros ->.
  by apply Hx, list_elem_of_In.
Qed.

Lemma filter_length_lt {A} (f : A -> bool) (l : list A) x :
  In x l -> f x = false -> (length (List.filter f l) < length l)%nat.
Proof.
  induction l as [|a l IH]; simpl; [done|].
  pose proof (List.filter_length_le f l).
  intros [->|Hin] Hx.
  - rewrite Hx. lia.
  - specialize (IH Hin Hx). destruct (f a); simpl; lia.
Qed.

Lemma unique_length l : (length (unique l) <= length l)%nat.
Proof.
  induction l as [|x l IH]; simpl; [done|].
  pose proof (List.filter_length_le (fun y => negb (y =? x)) (unique l)). lia.
Qed.

(** A repeated value makes [unique] shorter. *)
Lemma unique_length_repeated l : ~ NoDup l -> (length (unique l) < length l)%nat.
Proof.
  induction l as [|x l IH]; intros Hdup; [destruct Hdup; constructor|].
  simpl. destruct (decide (x ∈ l)) as [Hin|Hnotin].
  - apply list_elem_of_In in Hin.
    pose proof (filter_length_lt (fun y => negb (y =? x)) (unique l) x) as Hlt.
    pose proof (unique_length l).
    rewrite unique_In, Z.eqb_refl in Hlt. specialize (Hlt Hin eq_refl). lia.
  - assert (~ NoDup l) as Hl by (intros Hl; apply Hdup; by constructor).
    specialize (IH Hl).
    pose proof (List.filter_length_le (fun y => negb (y =? x)) (unique l)). lia.
Qed.

Lemma unique_nonempty l : l <> [] -> unique l <> [].
Proof. by destruct l. Qed.

Lemma alter_insert_same {A} (f : A -> A) (l : list A) i x :
  alter f i (<[i := x]> l) = <[i := f x]> l.
Proof.
  revert i. induction l as [|a l IH]; intros [|i]; try done.
  cbn. f_equal. apply IH.
Qed.

Lemma insert_insert_same {A} (l : list A) i x y :
  <[i := y]> (<[i := x]> l) = <[i := y]> l.
Proof.
  revert i. induction l as [|a l IH]; intros [|i]; try done.
  cbn. f_equal. apply IH.
Qed.

Lemma insert_prefix {A} (f : nat -> A) (row : list A) k :
  (k < length row)%nat ->
  <[k := f k]> (map f (seq 0 k) ++ drop k row)
  = map f (seq 0 (S k)) ++ drop (S k) row.
Proof.
  intros Hk. destruct (lookup_lt_is_Some_2 row k Hk) as [x Hx].
  rewrite insert_app_r_alt by (rewrite length_map, length_seq; lia).
  rewrite length_map, length_seq, Nat.sub_diag, (drop_S _ _ _ Hx).
  rewrite seq_S, map_app, <- app_assoc. done.
Qed.

Lemma iloc_float_lookup (df : gmap string column) name c l i x :
  df !! name = Some c -> as_floats c = Ok l -> l !! i = Some x ->
  iloc_float df i name = Ok x.
Proof.
  intros Hc Hl Hx. unfold iloc_float. rewrite Hc. cbn [of_option].
  by rewrite bind_Ok, Hl, bind_Ok, Hx.
Qed.

Lemma rfold_cons {S A} (body : S -> A -> result S) (acc : S) (a : A) (l : list A) :
  rfold body acc (a :: l) = body acc a ≫= fun acc' => rfold body acc' l.
Proof. reflexivity. Qed.

Section DistanceMatrixFacts.
Variable haversine : spec_float -> spec_float -> spec_float -> spec_float -> spec_float.
Variables (df : gmap string column) (lat lon : column) (lats lons : list spec_float).
Hypothesis Hlat : df !! "latitude"%string = Some lat.
Hypothesis Hlats : as_floats lat = Ok lats.
Hypothesis Hlon : df !! "longitude"%string = Some lon.
Hypothesis Hlons : as_floats lon = Ok lons.
Hypothesis Hsame : length lons = length lats.

Local Abbreviation expected := (expected_cell haversine lats lons).

Lemma coordinates_lookup i :
  (i < length lats)%nat ->
  iloc_float df i "latitude" = Ok (nth i lats F.nan)
  /\ iloc_float df i "longitude" = Ok (nth i lons F.nan).
Proof.
  intros Hi. split.
  - apply (iloc_float_lookup df _ lat lats); [done..|].
    destruct (lookup_lt_is_Some_2 lats i Hi) as [x Hx].
    by rewrite (nth_lookup_Some _ _ _ _ Hx).
  - apply (iloc_float_lookup df _ lon lons); [done..|].
    destruct (lookup_lt_is_Some_2 lons i ltac:(lia)) as [x Hx].
    by rewrite (nth_lookup_Some _ _ _ _ Hx).
Qed.

Lemma distance_cell_value (m : matrix) i j :
  (i < length lats)%nat -> (j < length lats)%nat ->
  distance_cell haversine df i m j = iloc_set m i j (expected i j).
Proof.
  intros Hi Hj. unfold distance_cell, expected_cell.
  destruct (Nat.eqb_spec i j) as [->|Hne]; cbn [negb]; [done|].
  destruct (coordinates_lookup i Hi) as [-> ->].
  destruct (coordinates_lookup j Hj) as [-> ->].
  by rewrite !bind_Ok.
Qed.

(** The inner loop fills the row [i] from the left. *)
Lemma distance_row_loop labels labels' cells0 (i : nat) row0 : forall k,
  (k <= length labels')%nat -> (k <= length lats)%nat ->
  (i < length labels)%nat -> (i < length lats)%nat ->
  cells0 !! i = Some row0 -> length row0 = length labels' ->
  rfold (distance_cell haversine df i) (mkmatrix labels labels' cells0) (seq 0 k)
  = Ok (mkmatrix labels labels'
          (<[i := map (expected i) (seq 0 k) ++ drop k row0]> cells0)).
Proof.
  induction k as [|k IH]; intros Hk Hk' Hi Hi' Hrow Hlen.
  - simpl. by rewrite drop_0, list_insert_id.
  - rewrite seq_S, rfold_app, IH by (done || lia). rewrite bind_Ok.
    cbn [rfold Nat.add]. rewrite distance_cell_value by lia.
    unfold iloc_set. cbn [index columns cells].
    rewrite (proj2 (Nat.ltb_lt _ _) Hi), (proj2 (Nat.ltb_lt k _)) by lia.
    cbn [andb]. rewrite bind_Ok. do 2 f_equal.
    rewrite alter_insert_same. f_equal.
    change (seq 0 k ++ [k]) with (seq 0 k ++ [(0 + k)%nat]). rewrite <- seq_S.
    apply insert_prefix. lia.
Qed.

(** The outer loop fills the rows from the top, on a square frame whose
    side is the number of rows of [df]. *)
Lemma distance_matrix_loop labels labels' cells0 (n : nat) :
  n = length lats -> length labels = n -> length labels' = n ->
  length cells0 = n -> List.Forall (fun row => length row = n) cells0 ->
  forall k, (k <= n)%nat ->
    rfold (fun distance_matrix i =>
             rfold (distance_cell haversine df i) distance_matrix (seq 0 n))
          (mkmatrix labels labels' cells0) (seq 0 k)
    = Ok (mkmatrix labels labels'
            (map (fun i => map (expected i) (seq 0 n)) (seq 0 k) ++ drop k cells0)).
Proof.
  intros Hn Hl Hl' Hc Hrows. induction k as [|k IH]; intros Hk.
  - simpl. by rewrite drop_0.
  - rewrite seq_S, rfold_app, IH by lia. rewrite bind_Ok. cbn [rfold Nat.add].
    destruct (lookup_lt_is_Some_2 cells0 k ltac:(lia)) as [row0 Hrow0].
    assert (Hrow0n : length row0 = n).
    { eapply List.Forall_forall in Hrows; [exact Hrows|].
      apply list_elem_of_In, list_elem_of_lookup. eauto. }
    rewrite (distance_row_loop _ _ _ k row0) by
      (try lia; rewrite lookup_app_r, length_map, length_seq, Nat.sub_diag,
         ?lookup_drop, ?Nat.add_0_r; try done; rewrite length_map, length_seq; lia).
    rewrite bind_Ok. do 2 f_equal.
    rewrite (drop_ge row0) by lia. rewrite app_nil_r.
    change (seq 0 k ++ [k]) with (seq 0 k ++ [(0 + k)%nat]). rewrite <- seq_S.
    apply (insert_prefix (fun i => map (expected i) (seq 0 n)) cells0 k). lia.
Qed.

End DistanceMatrixFacts.

(** Both loops on the frame without cells that is labelled by the
    identifiers of the rows: every cell is assigned. *)
Lemma distance_matrix_filled haversine (df : gmap string column)
    (ids : list Z) lat lon lats lons :
  df !! "latitude"%string = Some lat -> as_floats lat = Ok lats ->
  df !! "longitude"%string = Some lon -> as_floats lon = Ok lons ->
  length lats = length ids -> length lons = length ids ->
  rfold (fun distance_matrix i =>
           rfold (distance_cell haversine df i) distance_matrix (seq 0 (length ids)))
        (empty_matrix ids) (seq 0 (length ids))
  = Ok (mkmatrix ids ids
          (map (fun i => map (expected_cell haversine lats lons i) (seq 0 (length ids)))
               (seq 0 (length ids)))).
Proof.
  intros Hlat Hlats Hlon Hlons Hnlat Hnlon. unfold empty_matrix.
  set (n := length ids).
  rewrite (distance_matrix_loop haversine df lat lon lats lons Hlat Hlats Hlon Hlons
             ltac:(lia) ids ids _ n); try done; try lia.
  - rewrite (drop_ge _ n) by (rewrite length_replicate; lia). by rewrite app_nil_r.
  - by rewrite length_replicate.
  - apply List.Forall_forall. intros row Hrow%list_elem_of_In.
    apply elem_of_replicate in Hrow as [-> _]. by rewrite length_replicate.
Qed.

(** X12. When no identifier is repeated and the coordinates are
    numeric, the call returns the square frame labelled by the
    identifiers in row order, whose cell (i, j) is the integer 0 on the
    diagonal and elsewhere the distance from the coordinates of row [i]
    to those of row [j]. *)
Theorem calculate_distance_matrix_distinct haversine (df : gmap string column)
    ids lat lon lats lons :
  df !! "id"%string = Some (ColInt ids) ->
  NoDup ids ->
  df !! "latitude"%string = Some lat -> as_floats lat = Ok lats ->
  df !! "longitude"%string = Some lon -> as_floats lon = Ok lons ->
  length lats = length ids -> length lons = length ids ->
  calculate_distance_matrix haversine df
  = Ok (mkmatrix ids ids
          (map (fun i => map (expected_cell haversine lats lons i) (seq 0 (length ids)))
               (seq 0 (length ids)))).
Proof.
  intros Hid Hnd Hlat Hlats Hlon Hlons Hnlat Hnlon.
  unfold calculate_distance_matrix. rewrite Hid. cbn [of_option].
  rewrite bind_Ok. cbv beta. cbn [as_ints]. rewrite bind_Ok. cbv beta zeta.
  rewrite (unique_NoDup _ Hnd).
  by apply (distance_matrix_filled haversine df ids lat lon lats lons).
Qed.

Lemma calculate_distance_matrix_distinct_witness :
  calculate_distance_matrix taxicab located_frame
  = Ok (mkmatrix [7; 3; 5] [7; 3; 5]
          (map (fun i => map (expected_cell taxicab
                                [F.dec 10 1; F.dec 20 1; F.dec 40 1]
                                [F.dec 1 1; F.dec 2 1; F.dec 4 1] i) (seq 0 3))
               (seq 0 3))).
Proof.
  apply (calculate_distance_matrix_distinct taxicab located_frame [7; 3; 5]
           (ColFloat [F.dec 10 1; F.dec 20 1; F.dec 40 1])
           (ColFloat [F.dec 1 1; F.dec 2 1; F.dec 4 1])); try reflexivity.
  repeat constructor; rewrite ?list_elem_of_In; simpl; lia.
Defined.

(** X13. When an identifier is repeated (and the coordinates are
    numeric) the call raises [IndexError]: the frame has one row and one
    column per distinct identifier, and the loops run over the rows of
    the input. *)
Theorem calculate_distance_matrix_repeated haversine (df : gmap string column)
    ids lat lon lats lons :
  df !! "id"%string = Some (ColInt ids) ->
  ~ NoDup ids ->
  df !! "latitude"%string = Some lat -> as_floats lat = Ok lats ->
  df !! "longitude"%string = Some lon -> as_floats lon = Ok lons ->
  length lats = length ids -> length lons = length ids ->
  calculate_distance_matrix haversine df = Raise IndexError.
Proof.
  intros Hid Hdup Hlat Hlats Hlon Hlons Hnlat Hnlon.
  unfold calculate_distance_matrix. rewrite Hid. cbn [of_option].
  rewrite bind_Ok. cbv beta. cbn [as_ints]. rewrite bind_Ok. cbv beta zeta. unfold empty_matrix.
  pose proof (unique_length_repeated ids Hdup) as Hlt.
  assert (Hne : ids <> []) by (intros ->; apply Hdup; constructor).
  pose proof (unique_nonempty ids Hne) as Hune.
  set (u := length (unique ids)) in *. set (n := length ids) in *.
  assert (0 < u)%nat by (subst u; destruct (unique ids); [done | simpl; lia]).
  assert (Hrow : rfold (distance_cell haversine df 0)
                   (mkmatrix (unique ids) (unique ids) (replicate u (replicate u Missing)))
                   (seq 0 n) = Raise IndexError).
  { replace n with (u + (n - u))%nat by lia.
    rewrite seq_app, rfold_app.
    rewrite (distance_row_loop haversine df lat lon lats lons Hlat Hlats Hlon Hlons
               ltac:(lia) (unique ids) (unique ids) _ 0 (replicate u Missing));
      try (fold u; lia); try lia.
    - rewrite bind_Ok. cbn [Nat.add].
      replace (n - u)%nat with (S (n - u - 1)) by lia. cbn [seq rfold].
      rewrite (distance_cell_value haversine df lat lon lats lons Hlat Hlats Hlon Hlons
                 ltac:(lia)) by lia.
      unfold iloc_set. cbn [index columns]. fold u.
      by rewrite Nat.ltb_irrefl, andb_false_r.
    - destruct u; [lia | done].
    - by rewrite length_replicate. }
  assert (Hseq : seq 0 n = 0%nat :: seq 1 (n - 1)).
  { destruct n; [lia | simpl; by rewrite Nat.sub_0_r]. }
  rewrite Hseq in Hrow |- *. by rewrite rfold_cons, Hrow.
Qed.

Lemma calculate_distance_matrix_repeated_witness :
  calculate_distance_matrix taxicab repeated_frame = Raise IndexError.
Proof.
  apply (calculate_distance_matrix_repeated taxicab repeated_frame [7; 3; 7]
           (ColFloat [F.dec 10 1; F.dec 20 1; F.dec 40 1])
           (ColFloat [F.dec 1 1; F.dec 2 1; F.dec 4 1])
           [F.dec 10 1; F.dec 20 1; F.dec 40 1]
           [F.dec 1 1; F.dec 2 1; F.dec 4 1]); try reflexivity.
  intros Hnd. apply NoDup_cons in Hnd as [Hnotin _].
  apply Hnotin. apply list_elem_of_In. simpl. tauto.
Defined.

(** ** MatrixUnroller *)

Lemma position_lookup (labels : list Z) : forall (j : nat) x,
  NoDup labels -> labels !! j = Some x -> position x labels = Some j.
Proof.
  induction labels as [|a labels IH]; intros j x Hnd Hj; [done|].
  apply NoDup_cons in Hnd as [Ha Hnd]. destruct j as [|j]; simpl in *.
  - injection Hj as ->. by rewrite Z.eqb_refl.
  - destruct (Z.eqb_spec a x) as [->|Hne].
    + exfalso. apply Ha. apply list_elem_of_lookup. eauto.
    + by rewrite (IH j x Hnd Hj).
Qed.

Section Unroll.
Variable m : matrix.
Hypothesis Hwf : well_formed m.

Lemma loc_lookup (i j : nat) start_id end_id row d :
  index m !! i = Some start_id -> columns m !! j = Some end_id ->
  cells m !! i = Some row -> row !! j = Some d ->
  loc m start_id end_id = Ok d.
Proof.
  destruct Hwf as (Hi & Hc & _). intros Hstart Hend Hrow Hd. unfold loc.
  rewrite (position_lookup _ _ _ Hi Hstart), (position_lookup _ _ _ Hc Hend).
  cbn [of_option]. rewrite !bind_Ok, Hrow. cbn [of_option]. by rewrite bind_Ok, Hd.
Qed.

(** The inner loop appends one record per column, in column order. *)
Lemma unroll_row_loop (i : nat) start_id row :
  index m !! i = Some start_id -> cells m !! i = Some row ->
  forall todo rtodo taken rtaken unrolled,
    columns m = taken ++ todo -> row = rtaken ++ rtodo ->
    length taken = length rtaken -> length todo = length rtodo ->
    rfold (fun unrolled end_id =>
             distance ← loc m start_id end_id;
             Ok (unrolled ++ [mkrow start_id end_id distance]))
          unrolled todo
    = Ok (unrolled ++ map (fun ed => mkrow start_id ed.1 ed.2) (zip todo rtodo)).
Proof.
  intros Hstart Hrow.
  induction todo as [|end_id todo IH]; intros rtodo taken rtaken unrolled Hc Hr Ht Hl.
  - simpl. by rewrite app_nil_r.
  - destruct rtodo as [|d rtodo]; [done|]. rewrite rfold_cons.
    rewrite (loc_lookup i (length taken) start_id end_id row d); try done.
    + rewrite bind_Ok. cbv beta. rewrite bind_Ok. cbv beta.
      rewrite (IH rtodo (taken ++ [end_id]) (rtaken ++ [d])).
      * simpl. by rewrite <- app_assoc.
      * by rewrite <- app_assoc.
      * by rewrite <- app_assoc.
      * rewrite !length_app. simpl. lia.
      * simpl in Hl. lia.
    + rewrite Hc. by rewrite list_lookup_middle.
    + rewrite Hr. by rewrite list_lookup_middle.
Qed.

Lemma unroll_loop : forall todo ctodo taken ctaken unrolled,
  index m = taken ++ todo -> cells m = ctaken ++ ctodo ->
  length taken = length ctaken -> length todo = length ctodo ->
  rfold (fun unrolled start_id =>
           rfold (fun unrolled end_id =>
                    distance ← loc m start_id end_id;
                    Ok (unrolled ++ [mkrow start_id end_id distance]))
                 unrolled (columns m))
        unrolled todo
  = Ok (unrolled
        ++ flat_map (fun sr => map (fun ed => mkrow sr.1 ed.1 ed.2) (zip (columns m) sr.2))
                    (zip todo ctodo)).
Proof.
  induction todo as [|start_id todo IH]; intros ctodo taken ctaken unrolled Hi Hc Ht Hl.
  - simpl. by rewrite app_nil_r.
  - destruct ctodo as [|row ctodo]; [done|]. rewrite rfold_cons.
    assert (Hrowlen : length row = length (columns m)).
    { destruct Hwf as (_ & _ & _ & Hrows).
      eapply List.Forall_forall in Hrows; [exact Hrows|].
      rewrite Hc. apply in_or_app. right. by left. }
    assert (Hstart : index m !! length taken = Some start_id).
    { rewrite Hi. by rewrite list_lookup_middle. }
    assert (Hrow : cells m !! length taken = Some row).
    { rewrite Hc, Ht. by rewrite list_lookup_middle. }
    rewrite (unroll_row_loop (length taken) start_id row Hstart Hrow
               (columns m) row [] []); try done.
    rewrite bind_Ok. cbv beta.
    rewrite (IH ctodo (taken ++ [start_id]) (ctaken ++ [row])).
    + simpl. by rewrite <- app_assoc.
    + by rewrite <- app_assoc.
    + by rewrite <- app_assoc.
    + rewrite !length_app. simpl. lia.
    + simpl in Hl. lia.
Qed.

Lemma unrolled_length (rows : list (Z * list cell)) :
  List.Forall (fun sr => length sr.2 = length (columns m)) rows ->
  length (flat_map (fun sr => map (fun ed => mkrow sr.1 ed.1 ed.2) (zip (columns m) sr.2))
                   rows)
  = (length rows * length (columns m))%nat.
Proof.
  induction 1 as [|sr rows Hsr _ IH]; [done|].
  cbn [flat_map]. rewrite length_app, length_map, length_zip, Hsr, IH. simpl. lia.
Qed.

End Unroll.

Lemma unroll_distance_matrix_run (m : matrix) :
  well_formed m ->
  let unrolled :=
    flat_map (fun sr => map (fun ed => mkrow sr.1 ed.1 ed.2) (zip (columns m) sr.2))
             (zip (index m) (cells m)) in
  unroll_distance_matrix m
  = Ok (match unrolled with
        | [] => ∅
        | _ => pair_frame (map row_id_start unrolled) (map row_id_end unrolled)
                          (cells_column (map row_distance unrolled))
        end).
Proof.
  intros Hwf unrolled. unfold unroll_distance_matrix.
  rewrite (unroll_loop m Hwf (index m) (cells m) [] [] []); try done.
  by destruct Hwf as (_ & _ & -> & _).
Qed.

Lemma cells_column_ints (l : list cell) :
  (forall c, In c l -> exists z, c = IntCell z) ->
  cells_column l = ColInt (map cell_int l).
Proof.
  intros Hint. unfold cells_column.
  replace (forallb is_int_cell l) with true; [done|].
  symmetry. apply forallb_forall. intros c Hc. by destruct (Hint c Hc) as [z ->].
Qed.

Lemma cells_column_floats (l : list cell) :
  (exists c, In c l /\ forall z, c <> IntCell z) ->
  cells_column l = ColFloat (map float_of_cell l).
Proof.
  intros (c & Hc & Hnot). unfold cells_column.
  replace (forallb is_int_cell l) with false; [done|].
  symmetry. apply not_true_is_false. intros Hall.
  eapply forallb_forall in Hall; [|exact Hc].
  destruct c as [|z|f]; try done. by apply (Hnot z).
Qed.

(** X14. On a frame with one cell per pair of labels and no repeated
    label, the call returns the frame of one record per row label and
    column label, rows first and columns within a row: (number of rows)
    x (number of columns) records, with the labels in [id_start] and
    [id_end] and the cells in [distance], which is a column of integers
    when every cell is an integer and a column of floats otherwise (an
    integer cell converted, a missing cell NaN). Without a record the
    frame has no column. *)
Theorem unroll_distance_matrix_records (m : matrix) :
  well_formed m ->
  int64_cells m ->
  let records :=
    flat_map (fun sr => map (fun ed => (sr.1, ed.1, ed.2)) (zip (columns m) sr.2))
             (zip (index m) (cells m)) in
  let starts := map (fun r => r.1.1) records in
  let ends := map (fun r => r.1.2) records in
  let distances := map snd records in
  exists out,
    unroll_distance_matrix m = Ok out
    /\ length records = (length (index m) * length (columns m))%nat
    /\ (records = [] -> out = ∅)
    /\ (records <> [] ->
        (forall c, In c distances -> exists z, c = IntCell z) ->
        out = pair_frame starts ends (ColInt (map cell_int distances)))
    /\ ((exists c, In c distances /\ forall z, c <> IntCell z) ->
        out = pair_frame starts ends (ColFloat (map float_of_cell distances))).
Proof.
  intros Hwf _ records starts ends distances.
  rewrite (unroll_distance_matrix_run m Hwf). cbv zeta.
  set (unrolled := flat_map _ (zip (index m) (cells m))).
  assert (Hrec : map (fun r => (row_id_start r, row_id_end r, row_distance r)) unrolled
                 = records).
  { unfold unrolled, records. induction (zip (index m) (cells m)) as [|sr l IH]; [done|].
    cbn [flat_map]. rewrite map_app, IH, map_map. done. }
  assert (Hstarts : map row_id_start unrolled = starts).
  { unfold starts. rewrite <- Hrec, map_map. done. }
  assert (Hends : map row_id_end unrolled = ends).
  { unfold ends. rewrite <- Hrec, map_map. done. }
  assert (Hdist : map row_distance unrolled = distances).
  { unfold distances. rewrite <- Hrec, map_map. done. }
  eexists. split; [reflexivity|]. split; [|split; [|split]].
  - rewrite <- Hrec, length_map. unfold unrolled.
    destruct Hwf as (_ & _ & Hlen & Hrows).
    rewrite unrolled_length.
    + rewrite length_zip. lia.
    + apply List.Forall_forall. intros [s r] Hin. simpl.
      eapply List.Forall_forall in Hrows; [exact Hrows|].
      apply (in_map snd) in Hin. rewrite snd_zip in Hin by lia. exact Hin.
  - rewrite <- Hrec. by destruct unrolled.
  - intros Hne Hints. rewrite Hstarts, Hends, Hdist.
    rewrite (cells_column_ints _ Hints).
    destruct unrolled; [|done]. by rewrite <- Hrec in Hne.
  - intros Hfloat. rewrite Hstarts, Hends, Hdist.
    rewrite (cells_column_floats _ Hfloat).
    destruct unrolled; [|done].
    destruct Hfloat as (c & Hc & _). by rewrite <- Hdist in Hc.
Qed.

Lemma unroll_distance_matrix_records_witness :
  exists out,
    unroll_distance_matrix sample_matrix = Ok out
    /\ 4%nat = 4%nat
    /\ ([(7, 7, IntCell 0); (7, 3, FloatCell (F.dec 15 1));
         (3, 7, FloatCell (F.dec 15 1)); (3, 3, IntCell 0)] = [] -> out = ∅)
    /\ ([(7, 7, IntCell 0); (7, 3, FloatCell (F.dec 15 1));
         (3, 7, FloatCell (F.dec 15 1)); (3, 3, IntCell 0)] <> [] ->
        (forall c, In c [IntCell 0; FloatCell (F.dec 15 1); FloatCell (F.dec 15 1); IntCell 0] ->
                   exists z, c = IntCell z) ->
        out = pair_frame [7; 7; 3; 3] [7; 3; 7; 3] (ColInt [0; 0; 0; 0]))
    /\ ((exists c, In c [IntCell 0; FloatCell (F.dec 15 1); FloatCell (F.dec 15 1); IntCell 0]
                   /\ forall z, c <> IntCell z) ->
        out = pair_frame [7; 7; 3; 3] [7; 3; 7; 3]
                (ColFloat [F.zero; F.dec 15 1; F.dec 15 1; F.zero])).
Proof.
  apply (unroll_distance_matrix_records sample_matrix).
  - repeat split; simpl.
    + repeat constructor; rewrite ?list_elem_of_In; simpl; lia.
    + repeat constructor; rewrite ?list_elem_of_In; simpl; lia.
    + repeat constructor.
  - intros row c z Hrow Hc ->. simpl in Hrow.
    destruct Hrow as [<-|[<-|[]]]; simpl in Hc;
      repeat (destruct Hc as [Hc|Hc]; [try discriminate; injection Hc as <-; lia|]);
      destruct Hc.
Defined.

Example unroll_distance_matrix_ex :
  unroll_distance_matrix sample_matrix
  = Ok (pair_frame [7; 7; 3; 3] [7; 3; 7; 3]
          (ColFloat [F.zero; F.dec 15 1; F.dec 15 1; F.zero])).
Proof. vm_compute. reflexivity. Qed.

Lemma zip_seq {B} (l : list Z) (g : nat -> B) : forall k,
  zip l (map g (seq k (length l)))
  = map (fun i => (nth (i - k) l 0, g i)) (seq k (length l)).
Proof.
  induction l as [|x l IH]; intros k; [done|].
  cbn [length seq map zip zip_with]. rewrite Nat.sub_diag. cbn [nth]. f_equal.
  rewrite IH. apply map_ext_in. intros i Hi%in_seq.
  replace (i - k)%nat with (S (i - S k)) by lia. done.
Qed.

Lemma flat_map_map {A B C} (f : B -> list C) (h : A -> B) (l : list A) :
  flat_map f (map h l) = flat_map (fun a => f (h a)) l.
Proof. induction l as [|a l IH]; [done|]. simpl. by rewrite IH. Qed.

Lemma map_flat_map {A B C} (f : B -> C) (g : A -> list B) (l : list A) :
  map f (flat_map g l) = flat_map (fun a => map f (g a)) l.
Proof. induction l as [|a l IH]; [done|]. simpl. by rewrite map_app, IH. Qed.

(** X15. Unrolling the distance matrix of rows with distinct
    identifiers gives the frame of one record for every ordered pair of
    rows, the pairs of a row with itself included: the record of the
    pair (i, j) carries the identifiers of rows [i] and [j] and, when
    there are two rows or more, the float 0.0 for [i = j] and the
    distance from row [i] to row [j] otherwise. With one row the only
    distance is the integer 0, and without a row the frame has no
    column. *)
Theorem unroll_distance_matrix_of_calculated haversine (df : gmap string column)
    ids lat lon lats lons :
  df !! "id"%string = Some (ColInt ids) ->
  NoDup ids ->
  df !! "latitude"%string = Some lat -> as_floats lat = Ok lats ->
  df !! "longitude"%string = Some lon -> as_floats lon = Ok lons ->
  length lats = length ids -> length lons = length ids ->
  let n := length ids in
  let pairs := flat_map (fun i => map (fun j => (i, j)) (seq 0 n)) (seq 0 n) in
  calculate_distance_matrix haversine df ≫= unroll_distance_matrix
  = Ok (match ids with
        | [] => ∅
        | [id] => pair_frame [id] [id] (ColInt [0])
        | _ =>
            pair_frame (map (fun p => nth p.1 ids 0) pairs)
                       (map (fun p => nth p.2 ids 0) pairs)
                       (ColFloat (map (fun p => expected_distance haversine lats lons p.1 p.2)
                                      pairs))
        end).
Proof.
  intros Hid Hnd Hlat Hlats Hlon Hlons Hnlat Hnlon n pairs.
  unfold calculate_distance_matrix. rewrite Hid. cbn [of_option].
  rewrite bind_Ok. cbv beta. cbn [as_ints]. rewrite bind_Ok. cbv beta zeta.
  rewrite (unique_NoDup _ Hnd).
  rewrite (distance_matrix_filled haversine df ids lat lon lats lons); try done.
  rewrite bind_Ok. rewrite unroll_distance_matrix_run.
  2:{ repeat split; cbn [index columns cells]; try done.
      + by rewrite length_map, length_seq.
      + apply List.Forall_forall. intros row Hrow. apply in_map_iff in Hrow as (i & <- & _).
        by rewrite length_map, length_seq. }
  cbv zeta. cbn [index columns cells]. fold n. f_equal.
  set (unrolled := flat_map _ _).
  assert (Hun : unrolled
                = map (fun p => mkrow (nth p.1 ids 0) (nth p.2 ids 0)
                                  (expected_cell haversine lats lons p.1 p.2)) pairs).
  { unfold unrolled, pairs, n. rewrite zip_seq, flat_map_map, map_flat_map.
    apply flat_map_ext. intros i. cbn [fst snd].
    rewrite zip_seq, !map_map. apply map_ext. intros j. cbn [fst snd].
    by rewrite !Nat.sub_0_r. }
  rewrite Hun. clear unrolled Hun.
  destruct ids as [|id1 [|id2 ids']]; [done|done|].
  assert (Hpairs : pairs <> []) by done.
  rewrite !map_map. cbn [row_id_start row_id_end row_distance].
  rewrite cells_column_floats.
  - rewrite map_map.
    replace (map (fun p => float_of_cell (expected_cell haversine lats lons p.1 p.2)) pairs)
      with (map (fun p => expected_distance haversine lats lons p.1 p.2) pairs).
    + by destruct pairs.
    + apply map_ext. intros [i j]. unfold expected_cell, expected_distance. cbn [fst snd].
      by destruct (i =? j)%nat.
  - exists (expected_cell haversine lats lons 0 1). split; [|done].
    apply in_map_iff. exists (0%nat, 1%nat). split; [done|].
    unfold pairs, n. apply in_flat_map. exists 0%nat. split; [apply in_seq; simpl; lia|].
    apply in_map_iff. exists 1%nat. split; [done|]. apply in_seq. simpl. lia.
Qed.

Lemma unroll_distance_matrix_of_calculated_witness :
  let pairs := flat_map (fun i => map (fun j => (i, j)) (seq 0 3)) (seq 0 3) in
  calculate_distance_matrix taxicab located_frame ≫= unroll_distance_matrix
  = Ok (pair_frame (map (fun p => nth p.1 [7; 3; 5] 0) pairs)
                   (map (fun p => nth p.2 [7; 3; 5] 0) pairs)
                   (ColFloat (map (fun p => expected_distance taxicab
                                              [F.dec 10 1; F.dec 20 1; F.dec 40 1]
                                              [F.dec 1 1; F.dec 2 1; F.dec 4 1] p.1 p.2)
                                  pairs))).
Proof.
  apply (unroll_distance_matrix_of_calculated taxicab located_frame [7; 3; 5]
           (ColFloat [F.dec 10 1; F.dec 20 1; F.dec 40 1])
           (ColFloat [F.dec 1 1; F.dec 2 1; F.dec 4 1])); try reflexivity.
  repeat constructor; rewrite ?list_elem_of_In; simpl; lia.
Defined.

(** ** Repeated calls *)

(** X16. A call that returns can be repeated: the first call leaves the
    [timestamp] column converted, and on that frame the call returns the
    same series and leaves the frame as it is. *)
Theorem time_check_idempotent parse (df df' : gmap string column) series :
  run (time_check parse) df = (Ok series, df') ->
  run (time_check parse) df' = (Ok series, df').
Proof.
  intros Hrun.
  destruct (time_check_returns parse df df' series Hrun)
    as (ts & stamps & ids & ids2 & Hts & Hstamps & Hid & Hid2).
  rewrite (time_check_run parse df ts stamps ids ids2 Hts Hstamps Hid Hid2) in Hrun.
  injection Hrun as <- <-.
  rewrite (time_check_run parse _ (ColDatetime stamps) stamps ids ids2);
    try (by simplify_map_eq).
  by rewrite insert_insert_eq.
Qed.

Lemma time_check_idempotent_witness :
  run (time_check (fun _ => Raise ValueError)) timed_frame
  = (Ok [((1, -1), true); ((1, 5), false); ((2, 3), false)], timed_frame).
Proof.
  apply (time_check_idempotent (fun _ => Raise ValueError)
           (<["timestamp"%string := ColInt [0; 86400000000000; 5; 7; 86400000000004]]>
              timed_frame)).
  vm_compute. reflexivity.
Defined.

(** X17. A call that returns can be repeated: on the frame it leaves
    behind, with its [time] and [toll_rate] columns, the call returns
    the same result and leaves the same frame. *)
Theorem calculate_time_based_toll_rates_idempotent parse
    (df df' out : gmap string column) :
  run (calculate_time_based_toll_rates parse) df = (Ok out, df') ->
  run (calculate_time_based_toll_rates parse) df' = (Ok out, df').
Proof.
  intros Hrun.
  destruct (calculate_time_based_toll_rates_returns parse df df' out Hrun)
    as (ts & stamps & id_start & id_end & Hts & Hstamps & Hstart & Hend).
  rewrite (calculate_time_based_toll_rates_run parse df ts stamps id_start id_end
             Hts Hstamps Hstart Hend) in Hrun.
  cbv zeta in Hrun. injection Hrun as <- <-.
  rewrite (calculate_time_based_toll_rates_run parse _ ts stamps id_start id_end);
    try (by simplify_map_eq).
  cbv zeta. f_equal. apply map_eq. intros c.
  destruct (decide (c = "toll_rate"%string)) as [->|?]; [by simplify_map_eq|].
  destruct (decide (c = "time"%string)) as [->|?]; by simplify_map_eq.
Qed.

Lemma calculate_time_based_toll_rates_idempotent_witness :
  let toll := ColFloat (replicate 5 (F.dec 5 10)) in
  let out : gmap string column :=
    <["id_start"%string := ColInt [1; 1; 2; 1; 2]]>
      (<["id_end"%string := ColInt [7; 7; 8; 9; 8]]>
         (<["toll_rate"%string := toll]> ∅)) in
  let df' : gmap string column :=
    <["toll_rate"%string := toll]>
      (<["time"%string := ColTime (map time_of [0; 86400000000000; 5; 7; 86400000000004])]>
         timed_frame) in
  run (calculate_time_based_toll_rates (fun _ => Raise ValueError)) df' = (Ok out, df').
Proof.
  intros toll out df'.
  apply (calculate_time_based_toll_rates_idempotent (fun _ => Raise ValueError)
           timed_frame df' out).
  vm_compute. reflexivity.
Defined.

(** ** PolylineDecoder *)

Example polyline_to_dataframe_ex :
  polyline_to_dataframe sample_float sample_pow "0,0;3,4;3,4"
  = Returns (points_frame [(F.of_Z 0, F.of_Z 0); (F.of_Z 3, F.of_Z 4); (F.of_Z 3, F.of_Z 4)]
                          (ColFloat [F.zero; F.of_Z 5; F.zero])).
Proof. vm_compute. reflexivity. Qed.

Lemma obind_Returns {A B} (a : A) (k : A -> outcome B) : Returns a ≫= k = k a.
Proof. reflexivity. Qed.

Lemma split_fields_length (sep : ascii) (s : string) :
  length (split_fields sep s).2 = occurrences sep s.
Proof.
  induction s as [|c s IH]; [done|]. cbn [split_fields occurrences].
  destruct (split_fields sep s) as [field fields]. simpl in IH.
  destruct (Ascii.eqb c sep); simpl; by rewrite IH.
Qed.

Lemma str_split_length (s : string) (sep : ascii) :
  length (str_split s sep) = S (occurrences sep s).
Proof.
  unfold str_split. pose proof (split_fields_length sep s) as H.
  destruct (split_fields sep s) as [field fields]. simpl in *. by rewrite H.
Qed.

Lemma str_split_single (s : string) (sep : ascii) :
  occurrences sep s = 0%nat -> str_split s sep = [s].
Proof.
  unfold str_split. induction s as [|c s IH]; [done|]. cbn [split_fields occurrences].
  destruct (split_fields sep s) as [field fields].
  destruct (Ascii.eqb c sep); [done|]. simpl. intros H.
  specialize (IH H). by injection IH as -> ->.
Qed.

Lemma split_fields_trailing (sep : ascii) (s : string) :
  In EmptyString (split_fields sep (s ++ String sep EmptyString)).2.
Proof.
  induction s as [|c s IH].
  - simpl. rewrite Ascii.eqb_refl. by left.
  - change (String c s ++ String sep "")%string with (String c (s ++ String sep "")).
    cbn [split_fields].
    destruct (split_fields sep (s ++ String sep "")) as [field fields]. simpl in IH.
    destruct (Ascii.eqb c sep); simpl; auto.
Qed.

Section PolylineFacts.
Variable float : string -> option spec_float.
Variable pow : spec_float -> spec_float -> option spec_float.

Lemma unpack_floats_point_of (coord : string) :
  unpack_floats float (str_split coord ",")
  = of_option ValueError (point_of float coord).
Proof.
  unfold point_of, unpack_floats.
  destruct (str_split coord ",") as [|a [|b [|c fields]]]; try done.
  - by destruct (float a).
  - by destruct (float a), (float b).
  - by destruct (float a), (float b), (float c).
Qed.

Lemma points_loop (coords : list string) (points : list (spec_float * spec_float)) :
  map (point_of float) coords = map Some points ->
  rmapM (fun coord => unpack_floats float (str_split coord ",")) coords = Ok points.
Proof.
  revert points. induction coords as [|coord coords IH]; intros [|p points] H; try done.
  injection H as Hp H. cbn [rmapM]. rewrite unpack_floats_point_of, Hp. cbn [of_option].
  rewrite bind_Ok, (IH points H). by rewrite bind_Ok.
Qed.

Lemma points_loop_malformed (coords : list string) (coord : string) :
  In coord coords -> point_of float coord = None ->
  rmapM (fun coord => unpack_floats float (str_split coord ",")) coords = Raise ValueError.
Proof.
  induction coords as [|c coords IH]; intros Hin Hnone; [done|]. cbn [rmapM].
  rewrite unpack_floats_point_of.
  destruct (point_of float c) as [p|] eqn:Hc; [|done]. cbn [of_option]. rewrite bind_Ok.
  destruct Hin as [->|Hin]; [congruence|]. by rewrite (IH Hin Hnone).
Qed.

Lemma points_parsed (coords : list string) :
  (forall coord, In coord coords -> point_of float coord <> None) ->
  exists points, map (point_of float) coords = map Some points.
Proof.
  induction coords as [|c coords IH]; intros H; [by exists []|].
  destruct IH as [points Hp]; [intros; apply H; by right|].
  destruct (point_of float c) as [p|] eqn:Hc; [|by destruct (H c); [left|]].
  exists (p :: points). simpl. by rewrite Hc, Hp.
Qed.

(** The loop over the positions computes the distances of the pairs of
    consecutive points. *)
Lemma distances_loop (points : list (spec_float * spec_float)) :
  forall m k distances,
    (S k + m)%nat = length points ->
    ofold (fun distances i =>
             p1 ← of_result (Py.index points (i - 1));
             p2 ← of_result (Py.index points i);
             distance ← distance_between pow p1 p2;
             Returns (distances ++ [Float distance]))
          distances (seq (S k) m)
    = ds ← omapM (fun pq => distance_between pow pq.1 pq.2)
                 (zip (drop k points) (drop (S k) points));
      Returns (distances ++ map Float ds).
Proof.
  induction m as [|m IH]; intros k distances Hlen.
  - rewrite (drop_ge points (S k)) by lia.
    destruct (drop k points); simpl; by rewrite app_nil_r.
  - destruct (lookup_lt_is_Some_2 points k ltac:(lia)) as [p1 Hp1].
    destruct (lookup_lt_is_Some_2 points (S k) ltac:(lia)) as [p2 Hp2].
    rewrite (drop_S _ _ _ Hp1). pose proof (drop_S _ _ _ Hp2) as Hrest.
    rewrite Hrest at 2.
    cbn [seq ofold zip zip_with omapM]. unfold Py.index.
    replace (S k - 1)%nat with k by lia. rewrite Hp1, Hp2. cbn [of_option of_result].
    rewrite !obind_Returns. cbn [fst snd].
    destruct (distance_between pow p1 p2) as [d|e]; [|done].
    rewrite !obind_Returns. rewrite (IH (S k)) by lia.
    destruct (omapM _ (zip (drop (S k) points) (drop (S (S k)) points))) as [ds|e]; [|done].
    rewrite !obind_Returns. simpl. by rewrite <- app_assoc.
Qed.

Lemma omapM_length {A B} (f : A -> outcome B) (l : list A) (bs : list B) :
  omapM f l = Returns bs -> length bs = length l.
Proof.
  revert bs. induction l as [|a l IH]; intros bs; simpl.
  - by intros [= <-].
  - destruct (f a) as [b|e]; [|done]. rewrite obind_Returns.
    destruct (omapM f l) as [bs'|e]; [|done]. rewrite obind_Returns.
    intros [= <-]. simpl. by rewrite (IH bs').
Qed.

Lemma numbers_column_distances (ds : list spec_float) :
  numbers_column (Int 0 :: map Float ds)
  = match ds with [] => ColInt [0] | _ => ColFloat (F.zero :: ds) end.
Proof.
  destruct ds as [|d ds]; [done|]. unfold numbers_column. cbn [forallb map is_int andb].
  cbn [float_value]. f_equal. f_equal. f_equal. rewrite map_map. apply map_id.
Qed.

Lemma polyline_to_dataframe_run (s : string) (points : list (spec_float * spec_float)) :
  map (point_of float) (str_split s ";") = map Some points ->
  polyline_to_dataframe float pow s
  = ds ← omapM (fun pq => distance_between pow pq.1 pq.2) (zip points (tail points));
    Returns (points_frame points
               (match ds with [] => ColInt [0] | _ => ColFloat (F.zero :: ds) end)).
Proof.
  intros Hpoints. unfold polyline_to_dataframe. cbv zeta.
  rewrite (points_loop _ points Hpoints). cbn [of_result]. rewrite obind_Returns.
  assert (Hlen : length points = S (occurrences ";" s)).
  { rewrite <- (str_split_length s ";"), <- (length_map (point_of float)), Hpoints.
    by rewrite length_map. }
  rewrite (distances_loop points (length points - 1) 0) by lia.
  rewrite drop_0. replace (drop 1 points) with (tail points) by (by destruct points).
  destruct (omapM _ (zip points (tail points))) as [ds|e] eqn:Hds; [|done].
  rewrite !obind_Returns.
  apply omapM_length in Hds. rewrite length_zip in Hds.
  assert (length (tail points) = (length points - 1)%nat) by (by destruct points; simpl; lia).
  replace (length ([Int 0] ++ map Float ds) =? length points)%nat with true.
  - change ([Int 0] ++ map Float ds) with (Int 0 :: map Float ds).
    by rewrite numbers_column_distances.
  - symmetry. apply Nat.eqb_eq. rewrite length_app, length_map. simpl. lia.
Qed.

Lemma polyline_to_dataframe_raises (s coord : string) :
  In coord (str_split s ";") -> point_of float coord = None ->
  polyline_to_dataframe float pow s = Raises (Exn ValueError).
Proof.
  intros Hin Hnone. unfold polyline_to_dataframe. cbv zeta.
  by rewrite (points_loop_malformed _ coord Hin Hnone).
Qed.

End PolylineFacts.

Lemma points_parsed_or_not float (coords : list string) :
  (exists coord, In coord coords /\ point_of float coord = None)
  \/ (exists points, map (point_of float) coords = map Some points).
Proof.
  induction coords as [|c coords [(coord & Hin & Hnone)|[points Hp]]].
  - right. by exists [].
  - left. exists coord. split; [by right|done].
  - destruct (point_of float c) as [p|] eqn:Hc.
    + right. exists (p :: points). simpl. by rewrite Hc, Hp.
    + left. exists c. split; [by left|done].
Qed.

Lemma distance_between_raises pow p1 p2 e :
  distance_between pow p1 p2 = Raises e -> e = OverflowError.
Proof.
  destruct p1 as [lat1 lon1], p2 as [lat2 lon2]. unfold distance_between.
  destruct (pow (SFsub F.prec F.emax lat2 lat1) (F.of_Z 2)) as [a|]; [|by intros [= <-]].
  cbn [or_overflow]. rewrite obind_Returns.
  destruct (pow (SFsub F.prec F.emax lon2 lon1) (F.of_Z 2)) as [b|]; [|by intros [= <-]].
  cbn [or_overflow]. rewrite obind_Returns.
  destruct (pow (F.add a b) (F.dec 5 10)); [done|by intros [= <-]].
Qed.

Lemma distances_raise pow (pairs : list ((spec_float * spec_float) * (spec_float * spec_float))) e :
  omapM (fun pq => distance_between pow pq.1 pq.2) pairs = Raises e -> e = OverflowError.
Proof.
  induction pairs as [|pq pairs IH]; [done|]. cbn [omapM].
  destruct (distance_between pow pq.1 pq.2) as [d|e'] eqn:Hd.
  - rewrite obind_Returns. destruct (omapM _ pairs) as [ds|e'']; [done|].
    intros [= <-]. by apply IH.
  - intros [= <-]. by apply distance_between_raises in Hd.
Qed.

(** X18. When every coordinate between the semicolons is two fields
    around one comma that [float] reads, the points are these pairs of
    floats, one more than there are semicolons, and the call computes
    the distances of the consecutive points: it returns the frame of the
    points as soon as no power overflows. A frame that is returned has
    one row per point, and its distances start with 0. *)
Theorem polyline_to_dataframe_rows float pow (s : string) :
  (forall coord, In coord (str_split s ";") -> point_of float coord <> None) ->
  exists points,
    map (point_of float) (str_split s ";") = map Some points
    /\ length points = S (occurrences ";" s)
    /\ polyline_to_dataframe float pow s
       = (ds ← omapM (fun pq => distance_between pow pq.1 pq.2) (zip points (tail points));
          Returns (points_frame points
                     (match ds with [] => ColInt [0] | _ => ColFloat (F.zero :: ds) end)))
    /\ forall df,
         polyline_to_dataframe float pow s = Returns df ->
         exists distance ds,
           df = points_frame points distance
           /\ as_floats distance = Ok (F.zero :: ds)
           /\ length ds = occurrences ";" s.
Proof.
  intros Hall. destruct (points_parsed float _ Hall) as [points Hpoints].
  assert (Hlen : length points = S (occurrences ";" s)).
  { rewrite <- (str_split_length s ";"), <- (length_map (point_of float)), Hpoints.
    by rewrite length_map. }
  exists points. split; [done|]. split; [done|].
  rewrite (polyline_to_dataframe_run float pow s points Hpoints). split; [done|].
  intros df. destruct (omapM _ (zip points (tail points))) as [ds|e] eqn:Hds; [|done].
  rewrite obind_Returns. intros [= <-].
  apply omapM_length in Hds. rewrite length_zip in Hds.
  assert (length (tail points) = (length points - 1)%nat) by (by destruct points; simpl; lia).
  eexists _, ds. split; [done|]. split; [by destruct ds|lia].
Qed.

Lemma polyline_to_dataframe_rows_witness :
  exists points,
    map (point_of sample_float) (str_split "0,0;3,4" ";") = map Some points
    /\ length points = S (occurrences ";" "0,0;3,4")
    /\ polyline_to_dataframe sample_float sample_pow "0,0;3,4"
       = (ds ← omapM (fun pq => distance_between sample_pow pq.1 pq.2)
                     (zip points (tail points));
          Returns (points_frame points
                     (match ds with [] => ColInt [0] | _ => ColFloat (F.zero :: ds) end)))
    /\ forall df,
         polyline_to_dataframe sample_float sample_pow "0,0;3,4" = Returns df ->
         exists distance ds,
           df = points_frame points distance
           /\ as_floats distance = Ok (F.zero :: ds)
           /\ length ds = occurrences ";" "0,0;3,4".
Proof.
  apply (polyline_to_dataframe_rows sample_float sample_pow "0,0;3,4").
  intros coord Hin. vm_compute in Hin.
  destruct Hin as [<-|[<-|[]]]; vm_compute; discriminate.
Defined.

(** X19. The call raises [ValueError] exactly when some coordinate
    between the semicolons is not two fields around one comma that
    [float] reads; the only other exception it can raise is the
    [OverflowError] of a power. *)
Theorem polyline_to_dataframe_value_error float pow (s : string) :
  (polyline_to_dataframe float pow s = Raises (Exn ValueError)
   <-> exists coord, In coord (str_split s ";") /\ point_of float coord = None)
  /\ forall e, polyline_to_dataframe float pow s = Raises e ->
               e = Exn ValueError \/ e = OverflowError.
Proof.
  destruct (points_parsed_or_not float (str_split s ";"))
    as [(coord & Hin & Hnone)|[points Hpoints]].
  - rewrite (polyline_to_dataframe_raises float pow s coord Hin Hnone).
    split; [|intros e [= <-]; by left]. split; [|done]. intros _. by exists coord.
  - rewrite (polyline_to_dataframe_run float pow s points Hpoints).
    destruct (omapM _ (zip points (tail points))) as [ds|e] eqn:Hds.
    + rewrite obind_Returns. split; [|done]. split; [done|].
      intros (coord & Hin & Hnone). exfalso.
      apply (in_map (point_of float)) in Hin. rewrite Hpoints, Hnone in Hin.
      apply in_map_iff in Hin as (p & Hp & _). done.
    + apply distances_raise in Hds as ->. split; [|intros e [= <-]; by right].
      split; [done|]. intros (coord & Hin & Hnone). exfalso.
      apply (in_map (point_of float)) in Hin. rewrite Hpoints, Hnone in Hin.
      apply in_map_iff in Hin as (p & Hp & _). done.
Qed.

(** X20. The empty string and every string that ends with a semicolon
    raise [ValueError], whatever [float] reads: the text after the last
    semicolon is a coordinate. *)
Theorem polyline_to_dataframe_trailing_separator float pow (s : string) :
  polyline_to_dataframe float pow (s ++ ";") = Raises (Exn ValueError)
  /\ polyline_to_dataframe float pow "" = Raises (Exn ValueError).
Proof.
  split.
  - apply (polyline_to_dataframe_raises float pow _ ""); [|done].
    unfold str_split. pose proof (split_fields_trailing ";" s) as Hin.
    destruct (split_fields ";" (s ++ ";")) as [field fields]. by right.
  - apply (polyline_to_dataframe_raises float pow _ ""); [by left|done].
Qed.

(** X21. A string without semicolon that is one coordinate always
    returns: the frame has one row, and its distance is the integer 0 of
    an integer column; no power is computed. *)
Theorem polyline_to_dataframe_single_point float pow (s : string) p :
  occurrences ";" s = 0%nat ->
  point_of float s = Some p ->
  polyline_to_dataframe float pow s = Returns (points_frame [p] (ColInt [0])).
Proof.
  intros Hnone Hp.
  rewrite (polyline_to_dataframe_run float pow s [p]); [done|].
  rewrite (str_split_single s ";" Hnone). simpl. by rewrite Hp.
Qed.

Lemma polyline_to_dataframe_single_point_witness :
  polyline_to_dataframe sample_float sample_pow "3,4"
  = Returns (points_frame [(F.of_Z 3, F.of_Z 4)] (ColInt [0])).
Proof.
  apply (polyline_to_dataframe_single_point sample_float sample_pow "3,4");
    reflexivity.
Defined.

(** ** Toll rates of numeric identifiers *)

Lemma zip_with_mul_nan (ds : list spec_float) :
  zip_with F.mul ds (replicate (length ds) F.nan) = replicate (length ds) F.nan.
Proof.
  induction ds as [|d ds IH]; [done|]. cbn [length replicate zip_with].
  by rewrite mul_nan_r, IH.
Qed.

(** X22. When [id_start] holds integers, as the identifiers of the
    unrolled distances do, no row has a multiplier: the call returns a
    frame whose [toll_rate] is NaN in every row. *)
Theorem calculate_toll_rate_integer_ids (df : gmap string column) ids id_end dist ds :
  df !! "id_start"%string = Some (ColInt ids) ->
  df !! "id_end"%string = Some id_end ->
  df !! "distance"%string = Some dist ->
  as_floats dist = Ok ds ->
  length ds = length ids ->
  exists out df',
    run calculate_toll_rate df = (Ok out, df')
    /\ out !! "toll_rate"%string = Some (ColFloat (replicate (length ids) F.nan)).
Proof.
  intros Hids Hend Hdist Hds Hlen.
  rewrite (calculate_toll_rate_run df (ColInt ids) id_end dist ds Hids Hend Hdist Hds).
  cbv zeta. do 2 eexists. split; [reflexivity|].
  cbn [map_dict_values col_length]. rewrite <- Hlen, zip_with_mul_nan.
  by simplify_map_eq.
Qed.

Lemma calculate_toll_rate_integer_ids_witness :
  exists out df',
    run calculate_toll_rate distance_frame = (Ok out, df')
    /\ out !! "toll_rate"%string = Some (ColFloat (replicate 5 F.nan)).
Proof.
  apply (calculate_toll_rate_integer_ids distance_frame [3; 1; 2; 1; 3]
           (ColInt [1; 2; 3; 3; 2])
           (ColFloat [F.dec 100 1; F.dec 10 1; F.dec 15 1; F.dec 20 1; F.dec 5 1])
           [F.dec 100 1; F.dec 10 1; F.dec 15 1; F.dec 20 1; F.dec 5 1]);
    reflexivity.
Defined.
